(** * Window lifecycle shell of the desktop application

    A shallow embedding of the window-management core of the desktop
    shell (BrowserManager, Browser, WindowErrorHandler,
    WindowLifecycleManager, WindowDisplayManager, WindowPositionManager,
    WindowSpellCheckManager, WindowConfigBuilder, WindowWebRequestManager,
    WindowThemeManager, TrayManager) together with the statements that
    are checked against it.

    The host platform (Electron) is not part of the repository.  The
    few pieces of it the code relies on are modelled explicitly and
    documented where they are introduced: native windows with their
    [close] protocol, the [ipcMain] invoke-handler table, and the
    process exit call. *)

From Stdlib Require Import ZArith QArith Qround Bool List Lia.
From stdpp Require Import base option list gmap strings.

Local Open Scope Z_scope.

(** ** Stateful code that may throw

    Methods that mutate shared objects and may throw are functions
    from the state to a result, which is a thrown fault or a returned
    value, and the state left behind. *)
Module StateExn.

Definition M (S E A : Type) : Type := S -> (E + A) * S.

Definition ret {S E A : Type} (a : A) : M S E A := fun s => (inr a, s).

Definition bind {S E A B : Type} (m : M S E A) (k : A -> M S E B) : M S E B :=
  fun s => match m s with
           | (inl e, s') => (inl e, s')
           | (inr a, s') => k a s'
           end.

Definition throw {S E A : Type} (e : E) : M S E A := fun s => (inl e, s).

(** [try { m } catch (err) { h err }] *)
Definition tryCatch {S E A : Type} (m : M S E A) (h : E -> M S E A) : M S E A :=
  fun s => match m s with
           | (inl e, s') => h e s'
           | (inr a, s') => (inr a, s')
           end.

(** Read the state, and change it. *)
Definition gets {S E A : Type} (f : S -> A) : M S E A := fun s => (inr (f s), s).

Definition modify {S E : Type} (f : S -> S) : M S E unit := fun s => (inr tt, f s).

Notation "x <- m ;; k" := (bind m (fun x => k))
  (at level 100, m at next level, right associativity).
Notation "m ;;; k" := (bind m (fun _ => k))
  (at level 100, right associativity).

End StateExn.

(** ** Crash recovery policy

    Source: [WindowLifecycleManager.setupRenderProcessMonitoring].
    Every window owns one [WindowLifecycleManager], hence one
    [lastRendererProcessCrashTime] field, initialised to [0].  Time
    stamps are the integer milliseconds returned by [Date.now()]. *)
Module CrashRecovery.

(** What the process is doing: still running, or stopped by
    [app.exit code]. *)
Inductive ProcessStatus : Type :=
| Running
| Exited (code : Z).

(** The action the handler took for one crash. *)
Inductive CrashAction : Type :=
| Reload          (* this.window.webContents.reload() *)
| ExitApp (code : Z).  (* app.exit(code) *)

Record WindowLifecycleManager : Type := mkLifecycle {
  lastRendererProcessCrashTime : Z
}.

(** [private lastRendererProcessCrashTime: number = 0] *)
Definition newLifecycleManager : WindowLifecycleManager := mkLifecycle 0.

(** [60 * 1000] *)
Definition crashThreshold : Z := 60 * 1000.

(** The body of the ['render-process-gone'] listener, with
    [currentTime] the value of [Date.now()]. *)
Definition onRenderProcessGone (currentTime : Z) (m : WindowLifecycleManager)
  : WindowLifecycleManager * CrashAction :=
  let lastCrashTime := lastRendererProcessCrashTime m in
  let m' := mkLifecycle currentTime in
  if crashThreshold <? currentTime - lastCrashTime
  then (m', Reload)
  else (m', ExitApp 1).

(** The process: one lifecycle manager per window identifier, the
    reloads issued so far (most recent first), and the process status. *)
Record Process : Type := mkProcess {
  managers : gmap string WindowLifecycleManager;
  reloads : list string;
  status : ProcessStatus
}.

(** A renderer of window [id] dies at time [now].  A stopped process
    handles nothing; a window without a manager has no listener. *)
Definition crash (id : string) (now : Z) (p : Process) : Process :=
  match status p with
  | Exited _ => p
  | Running =>
    match managers p !! id with
    | None => p
    | Some m =>
      match onRenderProcessGone now m with
      | (m', Reload) =>
        mkProcess (<[id := m']> (managers p)) (id :: reloads p) Running
      | (m', ExitApp code) =>
        mkProcess (<[id := m']> (managers p)) (reloads p) (Exited code)
      end
    end
  end.

(** A sequence of crashes [(id, now)], oldest first. *)
Definition crashes (evs : list (string * Z)) (p : Process) : Process :=
  fold_left (fun q ev => crash (fst ev) (snd ev) q) evs p.

(** A freshly started process with the given windows. *)
Definition start (ids : list string) : Process :=
  mkProcess (list_to_map (map (fun id => (id, newLifecycleManager)) ids)) [] Running.

End CrashRecovery.

(** ** Load-failure surface and retry channel

    Source: [WindowErrorHandler] and [RETRY_CONNECTION_CONFIG].

    Electron's [ipcMain] is an event emitter that additionally keeps a
    table of invoke handlers.  [ipcMain.handle channel fn] stores [fn]
    in that table and throws when the channel already has an entry;
    [ipcMain.removeHandler channel] deletes the entry;
    [ipcMain.listenerCount channel] is the event emitter's count of
    listeners added with [on]/[once] and does not look at the handler
    table.  Nothing in the repository adds a listener on a retry
    channel. *)
Module ErrorHandler.
Import StateExn.

Inductive Fault : Type :=
| LoadError (message : string)      (* a rejected loadURL / loadFile *)
| SecondHandler (channel : string)  (* ipcMain.handle on a taken channel *)
| NoHandler (channel : string).     (* invoke on a channel without handler *)

(** [err.message] *)
Definition message (f : Fault) : string :=
  match f with
  | LoadError msg => msg
  | SecondHandler ch => "Attempted to register a second handler for '" +:+ ch +:+ "'"
  | NoHandler ch => "No handler registered for '" +:+ ch +:+ "'"
  end.

(** What a window displays. *)
Inductive Page : Type :=
| Blank
| FilePage (file : string)
| UrlPage (url : string).

(** How the next navigation ends: scripted by the environment. *)
Inductive LoadResult : Type :=
| Loaded
| Failed (message : string).

Inductive LogEntry : Type :=
| LogInfo (msg : string)
| LogDebug (msg : string)
| LogWarn (msg : string)
| LogError (msg : string) (err : Fault).

(** [WindowErrorHandler]: the window is named by its identifier. *)
Record WindowErrorHandler : Type := mkErrorHandler {
  identifier : string;
  retryHandlerKey : string
}.

Definition RETRY_HANDLER_PREFIX : string := "retry-connection-".

(** The constructor. *)
Definition newErrorHandler (id : string) : WindowErrorHandler :=
  mkErrorHandler id (RETRY_HANDLER_PREFIX +:+ id).

(** The closure passed to [ipcMain.handle]: it captures [this] and
    [originalUrl]. *)
Record RetryHandler : Type := mkRetryHandler {
  owner : WindowErrorHandler;
  originalUrl : string
}.

Record IpcMain : Type := mkIpcMain {
  invokeHandlers : gmap string RetryHandler;
  listeners : gmap string nat
}.

Record World : Type := mkWorld {
  ipcMain : IpcMain;
  pages : gmap string Page;
  script : list LoadResult;
  log : list LogEntry
}.

(** The value returned to the renderer. *)
Record RetryResult : Type := mkRetryResult {
  success : bool;
  error : option string
}.

(** Computations over the world that may throw a [Fault]. *)
Definition M (A : Type) : Type := StateExn.M World Fault A.

Definition logger (e : LogEntry) : M unit :=
  fun w => (inr tt, mkWorld (ipcMain w) (pages w) (script w) (log w ++ [e])).

Definition tag (eh : WindowErrorHandler) (msg : string) : string :=
  "[" +:+ identifier eh +:+ "] " +:+ msg.

(** *** Electron calls *)

(** One navigation of the window of [eh] to [target]: the outcome is
    the next entry of the script (an exhausted script loads). *)
Definition navigate (eh : WindowErrorHandler) (target : Page) : M unit :=
  fun w =>
    match script w with
    | Failed msg :: rest =>
      (inl (LoadError msg), mkWorld (ipcMain w) (pages w) rest (log w))
    | Loaded :: rest =>
      (inr tt, mkWorld (ipcMain w) (<[identifier eh := target]> (pages w)) rest (log w))
    | [] =>
      (inr tt, mkWorld (ipcMain w) (<[identifier eh := target]> (pages w)) [] (log w))
    end.

Definition loadFile (eh : WindowErrorHandler) (file : string) : M unit :=
  navigate eh (FilePage file).

Definition loadURL (eh : WindowErrorHandler) (url : string) : M unit :=
  navigate eh (UrlPage url).

Definition listenerCount (channel : string) : M nat :=
  fun w => (inr (default 0%nat (listeners (ipcMain w) !! channel)), w).

Definition handle (channel : string) (fn : RetryHandler) : M unit :=
  fun w =>
    match invokeHandlers (ipcMain w) !! channel with
    | Some _ => (inl (SecondHandler channel), w)
    | None =>
      (inr tt,
       mkWorld (mkIpcMain (<[channel := fn]> (invokeHandlers (ipcMain w)))
                          (listeners (ipcMain w)))
               (pages w) (script w) (log w))
    end.

Definition removeHandler (channel : string) : M unit :=
  fun w =>
    (inr tt,
     mkWorld (mkIpcMain (delete channel (invokeHandlers (ipcMain w)))
                        (listeners (ipcMain w)))
             (pages w) (script w) (log w)).

(** *** WindowErrorHandler *)

Definition errorHtml : string := "error.html".

Definition fallbackHtml : string :=
  "data:text/html,<html><body><h1>Loading Failed</h1><p>Unable to connect to server, please restart the application</p></body></html>".

Definition cleanupRetryHandler (eh : WindowErrorHandler) : M unit :=
  n <- listenerCount (retryHandlerKey eh) ;;
  if (0 <? n)%nat
  then removeHandler (retryHandlerKey eh) ;;;
       logger (LogDebug (tag eh ("Cleaned up retry handler: " +:+ retryHandlerKey eh)))
  else ret tt.

Definition setupRetryHandler (eh : WindowErrorHandler) (url : string) : M unit :=
  cleanupRetryHandler eh ;;;
  handle (retryHandlerKey eh) (mkRetryHandler eh url) ;;;
  logger (LogDebug (tag eh ("Set up retry-connection handler: " +:+ retryHandlerKey eh))).

Definition reloadErrorPage (eh : WindowErrorHandler) : M unit :=
  tryCatch
    (logger (LogInfo (tag eh "Reloading error page after failed retry...")) ;;;
     loadFile eh errorHtml ;;;
     logger (LogInfo (tag eh "Error page reloaded.")))
    (fun loadErr => logger (LogError (tag eh "Failed to reload error page:") loadErr)).

Definition loadFallbackErrorPage (eh : WindowErrorHandler) : M unit :=
  tryCatch
    (logger (LogWarn (tag eh "Attempting to load fallback error HTML string...")) ;;;
     loadURL eh fallbackHtml ;;;
     logger (LogInfo (tag eh "Fallback error HTML string loaded.")))
    (fun finalErr => logger (LogError (tag eh "Unable to display any page:") finalErr)).

Definition handleLoadError (eh : WindowErrorHandler) (url : string) : M unit :=
  tryCatch
    (logger (LogInfo (tag eh "Attempting to load error page...")) ;;;
     loadFile eh errorHtml ;;;
     logger (LogInfo (tag eh "Error page loaded successfully.")) ;;;
     setupRetryHandler eh url)
    (fun err =>
       logger (LogError (tag eh "Failed to load error page:") err) ;;;
       loadFallbackErrorPage eh).

(** The body of the handler registered by [setupRetryHandler]. *)
Definition retryHandler (h : RetryHandler) : M RetryResult :=
  let eh := owner h in
  let url := originalUrl h in
  logger (LogInfo (tag eh ("Retry connection requested for: " +:+ url))) ;;;
  tryCatch
    (loadURL eh url ;;;
     logger (LogInfo (tag eh ("Reconnection successful to " +:+ url))) ;;;
     cleanupRetryHandler eh ;;;
     ret (mkRetryResult true None))
    (fun err =>
       logger (LogError (tag eh ("Retry connection failed for " +:+ url +:+ ":")) err) ;;;
       reloadErrorPage eh ;;;
       ret (mkRetryResult false (Some (message err)))).

(** The renderer invokes [channel]: Electron runs the handler stored
    for it, and rejects when there is none. *)
Definition invoke (channel : string) : M RetryResult :=
  fun w =>
    match invokeHandlers (ipcMain w) !! channel with
    | Some h => retryHandler h w
    | None => (inl (NoHandler channel), w)
    end.

(** A world with no handler, no listener and nothing displayed, whose
    navigations end as scripted. *)
Definition initial (s : list LoadResult) : World :=
  mkWorld (mkIpcMain ∅ ∅) ∅ s [].

End ErrorHandler.

(** ** Native windows and screen geometry

    The part of Electron's [BrowserWindow], [screen] and [app] that the
    display and position managers use.  Coordinates and sizes are the
    integers Electron reports; JavaScript arithmetic on them is exact
    rational arithmetic. *)
Module Electron.

Inductive Platform : Type := darwin | win32 | linux | otherPlatform.

Definition isMac (p : Platform) : bool :=
  match p with darwin => true | _ => false end.

Definition isLinux (p : Platform) : bool :=
  match p with linux => true | _ => false end.

Definition isWin32 (p : Platform) : bool :=
  match p with win32 => true | _ => false end.

Record Rectangle : Type := mkRect {
  x : Z;
  y : Z;
  width : Z;
  height : Z
}.

Record Display : Type := mkDisplay {
  workArea : Rectangle
}.

(** The observable state of one native window. *)
Record BrowserWindow : Type := mkWindow {
  destroyed : bool;
  visible : bool;
  focused : bool;
  fullScreen : bool;
  minimized : bool;
  visibleOnAllWorkspaces : bool;
  bounds : Rectangle;
  contentBounds : Rectangle
}.

(** Calls made on a window or on [app]. *)
Inductive Call : Type :=
| Restore
| SetVisibleOnAllWorkspaces (b : bool)
| SetFullScreen (b : bool)
| Show
| Focus
| Hide
| Minimize
| AppHide
| SetPosition (newX newY : Z).

Definition moveTo (r : Rectangle) (newX newY : Z) : Rectangle :=
  mkRect newX newY (width r) (height r).

(** What a call does to the flags this model tracks. *)
Definition perform (c : Call) (w : BrowserWindow) : BrowserWindow :=
  match c with
  | Restore =>
    mkWindow (destroyed w) (visible w) (focused w) (fullScreen w) false
             (visibleOnAllWorkspaces w) (bounds w) (contentBounds w)
  | SetVisibleOnAllWorkspaces b =>
    mkWindow (destroyed w) (visible w) (focused w) (fullScreen w) (minimized w)
             b (bounds w) (contentBounds w)
  | SetFullScreen b =>
    mkWindow (destroyed w) (visible w) (focused w) b (minimized w)
             (visibleOnAllWorkspaces w) (bounds w) (contentBounds w)
  | Show =>
    mkWindow (destroyed w) true (focused w) (fullScreen w) (minimized w)
             (visibleOnAllWorkspaces w) (bounds w) (contentBounds w)
  | Focus =>
    mkWindow (destroyed w) (visible w) true (fullScreen w) (minimized w)
             (visibleOnAllWorkspaces w) (bounds w) (contentBounds w)
  | Hide =>
    mkWindow (destroyed w) false false (fullScreen w) (minimized w)
             (visibleOnAllWorkspaces w) (bounds w) (contentBounds w)
  | Minimize =>
    mkWindow (destroyed w) (visible w) (focused w) (fullScreen w) true
             (visibleOnAllWorkspaces w) (bounds w) (contentBounds w)
  | AppHide => w
  | SetPosition newX newY =>
    mkWindow (destroyed w) (visible w) (focused w) (fullScreen w) (minimized w)
             (visibleOnAllWorkspaces w)
             (moveTo (bounds w) newX newY) (moveTo (contentBounds w) newX newY)
  end.

(** [Math.floor], [Math.round] (halves go up) and [Math.max]. *)
Definition Math_floor (q : Q) : Z := Qfloor q.

Definition Math_round (q : Q) : Z := Qfloor (Qplus q (Qmake 1 2)).

Definition Math_max (a b : Q) : Q := if Qle_bool a b then b else a.

End Electron.

(** ** Display manager

    Source: [WindowDisplayManager].  Debug logging is left out; the
    warnings are kept. *)
Module DisplayManager.
Import Electron.

Record WindowDisplayManager : Type := mkDisplayManager {
  window : BrowserWindow;
  identifier : string;
  wasMainWindowFocused : bool;
  calls : list Call;        (* native calls issued, oldest first *)
  warnings : list string    (* logger.warn *)
}.

Definition newDisplayManager (w : BrowserWindow) (identifier : string)
  : WindowDisplayManager :=
  mkDisplayManager w identifier false [] [].

Definition call (c : Call) (dm : WindowDisplayManager) : WindowDisplayManager :=
  mkDisplayManager (perform c (window dm)) (identifier dm) (wasMainWindowFocused dm)
                   (calls dm ++ [c]) (warnings dm).

Definition warn (msg : string) (dm : WindowDisplayManager) : WindowDisplayManager :=
  mkDisplayManager (window dm) (identifier dm) (wasMainWindowFocused dm) (calls dm)
                   (warnings dm ++ [msg]).

(** [`[${this.identifier}] ${msg}`] *)
Definition tag (dm : WindowDisplayManager) (msg : string) : string :=
  "[" +:+ identifier dm +:+ "] " +:+ msg.

Definition when (b : bool) (f : WindowDisplayManager -> WindowDisplayManager)
  (dm : WindowDisplayManager) : WindowDisplayManager :=
  if b then f dm else dm.

(** [showWindow].  [mainFocused] is the value read from
    [mainWindow?.browserWindow?.isFocused() || false]. *)
Definition showWindow (p : Platform) (mainFocused : bool) (dm : WindowDisplayManager)
  : WindowDisplayManager :=
  if destroyed (window dm) then warn (tag dm "Cannot show destroyed window") dm
  else
    let dm := mkDisplayManager (window dm) (identifier dm) mainFocused (calls dm)
                               (warnings dm) in
    if minimized (window dm) then call Restore dm
    else
      let dm := when (negb (isLinux p)) (call (SetVisibleOnAllWorkspaces true)) dm in
      let dm := when (isMac p && fullScreen (window dm) && negb (visible (window dm)))
                     (call (SetFullScreen false)) dm in
      let dm := call Show dm in
      let dm := call Focus dm in
      when (negb (isLinux p)) (call (SetVisibleOnAllWorkspaces false)) dm.

Definition hideWindow (p : Platform) (dm : WindowDisplayManager) : WindowDisplayManager :=
  if destroyed (window dm) then warn (tag dm "Cannot hide destroyed window") dm
  else if isMac p then
    let dm := call Hide dm in
    when (negb (wasMainWindowFocused dm)) (call AppHide) dm
  else if isWin32 p then
    call Hide (call Minimize dm)
  else
    call Hide dm.

Definition toggleWindow (p : Platform) (mainFocused : bool) (dm : WindowDisplayManager)
  : WindowDisplayManager :=
  if destroyed (window dm) then warn (tag dm "Cannot toggle destroyed window") dm
  else if fullScreen (window dm) && visible (window dm) then dm
  else if visible (window dm) then
    if focused (window dm) then hideWindow p dm else call Focus dm
  else showWindow p mainFocused dm.

(** [centerOnDisplay], with [screen.getDisplayMatching] as given by
    the platform. *)
Definition centerOnDisplay (getDisplayMatching : Rectangle -> Display)
  (dm : WindowDisplayManager) : WindowDisplayManager :=
  if destroyed (window dm) then warn (tag dm "Cannot center destroyed window") dm
  else
    let currentDisplay := getDisplayMatching (bounds (window dm)) in
    let wa := workArea currentDisplay in
    let windowBounds := bounds (window dm) in
    let newX := Math_round (inject_Z (x wa)
                            + inject_Z (width wa - width windowBounds) / 2)%Q in
    let newY := Math_round (inject_Z (y wa)
                            + inject_Z (height wa - height windowBounds) / 2)%Q in
    call (SetPosition newX newY) dm.

(** [shouldHideDock].  [allWindows] is [BrowserWindow.getAllWindows()],
    each window with its identity; [this] is the identity of
    [this.window]. *)
Definition shouldHideDock (p : Platform) (allWindows : list (nat * BrowserWindow))
  (this : nat) : bool :=
  if negb (isMac p) then false
  else
    let visibleWindows :=
      List.filter (fun win => visible (snd win) && negb (Nat.eqb (fst win) this)) allWindows in
    Nat.eqb (length visibleWindows) 0.

End DisplayManager.

(** ** Position manager

    Source: [WindowPositionManager.positionWindowOnDisplay]. *)
Module PositionManager.
Import Electron.

(** The position passed to [this.window.setPosition]. *)
Definition centeredPosition (display : Display) (w : BrowserWindow) : Z * Z :=
  let wa := workArea display in
  let cb := contentBounds w in
  let newX := Math_floor (Math_max (inject_Z (x wa) + inject_Z (width wa - width cb) / 2)
                                   (inject_Z (x wa)))%Q in
  let newY := Math_floor (Math_max (inject_Z (y wa) + inject_Z (height wa - height cb) / 2)
                                   (inject_Z (y wa)))%Q in
  (newX, newY).

Definition positionWindowOnDisplay (display : Display) (w : BrowserWindow) : BrowserWindow :=
  let '(newX, newY) := centeredPosition display w in
  perform (SetPosition newX newY) w.

End PositionManager.

(** ** The earlier Browser class

    Source: [Browser.shouldHideDock] of the Browser class that has no
    display manager; its close handler hides the dock when
    [isMac && this.shouldHideDock()]. *)
Module EarlierBrowser.
Import Electron.

(** [browserManagerSet] tells whether [this.app.browserManager] is
    set.  The windows of the application are not consulted. *)
Definition shouldHideDock (browserManagerSet : bool)
  (allWindows : list (nat * BrowserWindow)) (this : nat) : bool :=
  if negb browserManagerSet then false else true.

(** The condition under which the close handler calls
    [app.dock?.hide()]. *)
Definition hidesDockOnClose (p : Platform) (browserManagerSet : bool)
  (allWindows : list (nat * BrowserWindow)) (this : nat) : bool :=
  isMac p && shouldHideDock browserManagerSet allWindows this.

End EarlierBrowser.

(** ** Window registry

    Source: [BrowserManager], the [Browser] class that owns a display
    manager, and the catalog [appBrowsers].

    JavaScript objects are kept in heaps and named by their index: the
    [Browser] objects in [heap], Electron's native windows in
    [natives].  A native window records the [Browser] whose
    [retrieveOrInitialize] built it and attached its listeners.
    Closing follows Electron: the ['close'] listeners run, and the
    window is destroyed unless one of them prevented the default.  The
    geometry restored by the window-state keeper, the reverse index
    from web contents to identifiers and the cosmetic window options
    are left out. *)
Module Registry.
Import StateExn.

Record BrowserWindowOpts : Type := mkOpts {
  identifier : string;
  path : string;
  keepAlive : option bool;
  showOnInit : option bool;
  parentIdentifier : option string;
  devTools : option bool;
  width : option Z;
  height : option Z
}.

(** The truth value of an optional flag: an unset one is false. *)
Definition truthy (o : option bool) : bool := default false o.

(** [value || fallback] on an optional number. *)
Definition orDefault (o : option Z) (fallback : Z) : Z :=
  match o with
  | Some v => if v =? 0 then fallback else v
  | None => fallback
  end.

Definition DEFAULT_HEIGHT : Z := 800.
Definition DEFAULT_WIDTH : Z := 1200.

Definition chatOpts : BrowserWindowOpts :=
  mkOpts "chat" "/chat" (Some true) (Some true) None None (Some 1200) (Some 800).

Definition devtoolsOpts : BrowserWindowOpts :=
  mkOpts "devtools" "/desktop/devtools" None None (Some "chat"%string) None
         (Some 1000) (Some 600).

Definition settingsOpts : BrowserWindowOpts :=
  mkOpts "settings" "/settings" None None (Some "chat"%string) None
         (Some 1000) (Some 800).

(** The catalog, in the order of its keys. *)
Definition appBrowsers : list (string * BrowserWindowOpts) :=
  [("chat"%string, chatOpts); ("devtools"%string, devtoolsOpts);
   ("settings"%string, settingsOpts)].

(** [appBrowsers[key]] *)
Definition appBrowsersAt (key : string) : option BrowserWindowOpts :=
  snd <$> List.find (fun e => String.eqb (fst e) key) appBrowsers.

Inductive Fault : Type :=
| TypeError (msg : string).

(** Progress of the load sequence started when a window is built. *)
Inductive LoadPhase : Type :=
| PlaceholderLoading
| PlaceholderFailed
| ContentLoading
| ContentLoaded
| ContentFailed.

Definition inFlight (ph : LoadPhase) : bool :=
  match ph with
  | PlaceholderLoading | ContentLoading => true
  | _ => false
  end.

Record Message : Type := mkMessage {
  channel : string;
  data : string
}.

Record NativeWindow : Type := mkNative {
  creator : nat;                    (* the Browser that built the window *)
  config : BrowserWindowOpts;       (* the options it was built from *)
  state : Electron.BrowserWindow;
  wasMainWindowFocused : bool;      (* of the window's display manager *)
  closeListener : bool;             (* the Browser's 'close' listener is attached *)
  loadPhase : LoadPhase;
  inbox : list Message              (* webContents.send, oldest first *)
}.

Definition isDestroyed (w : NativeWindow) : bool := Electron.destroyed (state w).

Record Browser : Type := mkBrowser {
  options : BrowserWindowOpts;
  _browserWindow : option nat;
  eventListenersSetup : bool
}.

Record App : Type := mkApp {
  isQuiting : bool;
  natives : list NativeWindow;
  heap : list Browser;
  browsers : gmap string nat;
  dockVisible : bool;
  logs : list string                (* logger.warn, oldest first *)
}.

Definition initialApp : App := mkApp false [] [] ∅ true [].

(** *** Updates of one object *)

Definition onNative (n : nat) (f : NativeWindow -> NativeWindow) (s : App) : App :=
  mkApp (isQuiting s) (alter f n (natives s)) (heap s) (browsers s)
        (dockVisible s) (logs s).

Definition setState (st : Electron.BrowserWindow) (w : NativeWindow) : NativeWindow :=
  mkNative (creator w) (config w) st (wasMainWindowFocused w) (closeListener w)
           (loadPhase w) (inbox w).

(** A call made directly on native window [n]. *)
Definition nativeCall (n : nat) (c : Electron.Call) (s : App) : App :=
  onNative n (fun w => setState (Electron.perform c (state w)) w) s.

Definition onBrowser (r : nat) (f : Browser -> Browser) (s : App) : App :=
  mkApp (isQuiting s) (natives s) (alter f r (heap s)) (browsers s)
        (dockVisible s) (logs s).

Definition warn (msg : string) (s : App) : App :=
  mkApp (isQuiting s) (natives s) (heap s) (browsers s) (dockVisible s)
        (logs s ++ [msg]).

Definition setDock (v : bool) (s : App) : App :=
  mkApp (isQuiting s) (natives s) (heap s) (browsers s) v (logs s).

(** Run a method of the display manager of window [n]. *)
Definition runDisplay (n : nat)
  (f : DisplayManager.WindowDisplayManager -> DisplayManager.WindowDisplayManager)
  (s : App) : App :=
  match natives s !! n with
  | None => s
  | Some w =>
    let dm := f (DisplayManager.mkDisplayManager (state w) (identifier (config w))
                                                 (wasMainWindowFocused w) [] []) in
    let w' := mkNative (creator w) (config w) (DisplayManager.window dm)
                       (DisplayManager.wasMainWindowFocused dm) (closeListener w)
                       (loadPhase w) (inbox w) in
    mkApp (isQuiting s) (<[n := w']> (natives s)) (heap s) (browsers s)
          (dockVisible s) (logs s ++ DisplayManager.warnings dm)
  end.

(** *** Browser *)

(** A window as [new BrowserWindow(config)] leaves it: [show: false]. *)
Definition freshWindow (o : BrowserWindowOpts) : Electron.BrowserWindow :=
  let r := Electron.mkRect 0 0 (orDefault (width o) DEFAULT_WIDTH)
                           (orDefault (height o) DEFAULT_HEIGHT) in
  Electron.mkWindow false false false false false false r r.

(** [this._browserWindow && !this._browserWindow.isDestroyed()] *)
Definition liveWindowOf (b : Browser) (s : App) : option nat :=
  match _browserWindow b with
  | Some n =>
    match natives s !! n with
    | Some w => if isDestroyed w then None else Some n
    | None => None
    end
  | None => None
  end.

(** [this._browserWindow?.isDestroyed()], undefined read as false. *)
Definition currentDestroyed (b : Browser) (s : App) : bool :=
  match _browserWindow b with
  | Some n =>
    match natives s !! n with
    | Some w => isDestroyed w
    | None => false
    end
  | None => false
  end.

(** [Browser.retrieveOrInitialize] of the Browser at [r].  A window is
    built when there is none or the current one is destroyed; its
    listeners are attached unless [eventListenersSetup] is already
    set, and the flag is set. *)
Definition Browser_retrieveOrInitialize (r : nat) (s : App) : App :=
  match heap s !! r with
  | None => s
  | Some b =>
    match liveWindowOf b s with
    | Some _ => s
    | None =>
      let n := length (natives s) in
      let w := mkNative r (options b) (freshWindow (options b)) false
                        (negb (eventListenersSetup b)) PlaceholderLoading [] in
      mkApp (isQuiting s) (natives s ++ [w])
            (<[r := mkBrowser (options b) (Some n) true]> (heap s))
            (browsers s) (dockVisible s) (logs s)
    end
  end.

(** The getter [browserWindow]: retrieve or build, then read. *)
Definition browserWindow (r : nat) : M App Fault (option nat) :=
  modify (Browser_retrieveOrInitialize r) ;;;
  gets (fun s => heap s !! r ≫= _browserWindow).

Definition cleanupResources (r : nat) (s : App) : App :=
  onBrowser r (fun b => mkBrowser (options b) (_browserWindow b) false) s.

(** [BrowserWindow.getAllWindows()]: the windows not destroyed. *)
Definition allWindows (s : App) : list (nat * Electron.BrowserWindow) :=
  List.filter (fun e => negb (Electron.destroyed (snd e)))
              (imap (fun i w => (i, state w)) (natives s)).

Section Host.

Variable platform : Electron.Platform.
Variable getDisplayNearestPoint : Z -> Z -> Electron.Display.

(** The ['close'] listener that the Browser at [r] attached to window
    [n].  The result tells whether it called [e.preventDefault()]. *)
Definition closeListenerBody (r n : nat) (s : App) : bool * App :=
  match heap s !! r with
  | None => (false, s)
  | Some b =>
    if isQuiting s then (false, cleanupResources r s)
    else if truthy (keepAlive (options b)) then
      let s1 := nativeCall n Electron.Hide s in
      let s2 := if DisplayManager.shouldHideDock platform (allWindows s1) n
                then setDock false s1 else s1 in
      (true, s2)
    else (false, cleanupResources r s)
  end.

Definition destroyNative (n : nat) (s : App) : App :=
  onNative n (fun w =>
    setState (Electron.mkWindow true false false
                (Electron.fullScreen (state w)) (Electron.minimized (state w))
                (Electron.visibleOnAllWorkspaces (state w))
                (Electron.bounds (state w)) (Electron.contentBounds (state w))) w) s.

(** A request to close native window [n], from [win.close()] or from
    the user. *)
Definition closeRequest (n : nat) (s : App) : App :=
  match natives s !! n with
  | None => s
  | Some w =>
    if isDestroyed w then s
    else
      let '(prevented, s1) :=
        if closeListener w then closeListenerBody (creator w) n s else (false, s) in
      if prevented then s1 else destroyNative n s1
  end.

(** *** BrowserManager *)

Definition BrowserManager_retrieveOrInitialize (o : BrowserWindowOpts)
  : M App Fault nat :=
  ob <- gets (fun s => browsers s !! identifier o) ;;
  match ob with
  | Some r => ret r
  | None =>
    r <- gets (fun s => length (heap s)) ;;
    (* new Browser(options, this.app) *)
    modify (fun s => mkApp (isQuiting s) (natives s) (heap s ++ [mkBrowser o None false])
                           (browsers s) (dockVisible s) (logs s)) ;;;
    modify (Browser_retrieveOrInitialize r) ;;;
    (* this.browsers.set(identifier, browser) *)
    modify (fun s => mkApp (isQuiting s) (natives s) (heap s)
                           (<[identifier o := r]> (browsers s))
                           (dockVisible s) (logs s)) ;;;
    ret r
  end.

Definition retrieveByIdentifier (id : string) : M App Fault nat :=
  ob <- gets (fun s => browsers s !! id) ;;
  match ob with
  | Some r => ret r
  | None =>
    match appBrowsersAt id with
    | Some o => BrowserManager_retrieveOrInitialize o
    | None => throw (TypeError "Cannot read properties of undefined (reading 'identifier')")
    end
  end.

Fixpoint forEach {A : Type} (f : A -> M App Fault unit) (l : list A) : M App Fault unit :=
  match l with
  | [] => ret tt
  | a :: rest => f a ;;; forEach f rest
  end.

Definition initializeBrowsers : M App Fault unit :=
  forEach (fun e : string * BrowserWindowOpts =>
             if truthy (keepAlive (snd e))
             then BrowserManager_retrieveOrInitialize (snd e) ;;; ret tt
             else ret tt)
          appBrowsers.

(** [WindowPositionManager.determinePosition], run by the position
    manager of window [n]. *)
Definition determinePosition (n : nat) (parent : option string) : M App Fault unit :=
  match parent with
  | None => ret tt
  | Some pid =>
    if String.eqb pid "" then ret tt
    else
      pr <- retrieveByIdentifier pid ;;
      opn <- browserWindow pr ;;
      ow <- gets (fun s => opn ≫= (fun pn => natives s !! pn)) ;;
      match ow with
      | None => throw (TypeError "Cannot read properties of undefined (reading 'getContentBounds')")
      | Some pw =>
        let cb := Electron.contentBounds (state pw) in
        let display := getDisplayNearestPoint (Electron.x cb) (Electron.y cb) in
        modify (onNative n (fun w =>
          setState (PositionManager.positionWindowOnDisplay display (state w)) w))
      end
  end.

(** [WindowDisplayManager.showWindow] of window [n]: the main window
    is looked up only when [n] is not destroyed. *)
Definition displayShowWindow (n : nat) : M App Fault unit :=
  ow <- gets (fun s => natives s !! n) ;;
  match ow with
  | None => ret tt
  | Some w =>
    if isDestroyed w
    then modify (runDisplay n (DisplayManager.showWindow platform false))
    else
      mr <- retrieveByIdentifier "chat" ;;
      omn <- browserWindow mr ;;
      mainFocused <- gets (fun s =>
        match omn ≫= (fun mn => natives s !! mn) with
        | Some mw => Electron.focused (state mw)
        | None => false
        end) ;;
      modify (runDisplay n (DisplayManager.showWindow platform mainFocused))
  end.

(** [Browser.show] *)
Definition Browser_show (r : nat) : M App Fault unit :=
  ob <- gets (fun s => heap s !! r) ;;
  match ob with
  | None => ret tt
  | Some b =>
    gone <- gets (currentDestroyed b) ;;
    (if negb gone
     then
       match _browserWindow b with
       | Some n => determinePosition n (parentIdentifier (options b))
       | None => ret tt
       end ;;;
       modify (fun s => if Electron.isMac platform then setDock true s else s)
     else ret tt) ;;;
    match _browserWindow b with
    | Some n => displayShowWindow n
    | None =>
      on <- browserWindow r ;;
      match on with
      | Some n => modify (nativeCall n Electron.Show)
      | None => ret tt
      end
    end
  end.

(** [Browser.hide] *)
Definition Browser_hide (r : nat) : M App Fault unit :=
  ob <- gets (fun s => heap s !! r) ;;
  match ob ≫= _browserWindow with
  | Some n => modify (runDisplay n (DisplayManager.hideWindow platform))
  | None =>
    on <- browserWindow r ;;
    match on with
    | Some n => modify (nativeCall n Electron.Hide)
    | None => ret tt
    end
  end.

(** [Browser.close]: [this.browserWindow.close()] *)
Definition Browser_close (r : nat) : M App Fault unit :=
  on <- browserWindow r ;;
  match on with
  | Some n => modify (closeRequest n)
  | None => ret tt
  end.

Definition closeWindow (id : string) : M App Fault unit :=
  ob <- gets (fun s => browsers s !! id) ;;
  match ob with
  | None => modify (warn ("Cannot close non-existent window: " +:+ id))
  | Some r => Browser_close r
  end.

(** [isWindowValid]; [minimizeWindow] and [maximizeWindow] read
    [browser.browserWindow] in the same way. *)
Definition isWindowValid (id : string) : M App Fault bool :=
  ob <- gets (fun s => browsers s !! id) ;;
  match ob with
  | None => ret false
  | Some r =>
    on <- browserWindow r ;;
    gets (fun s =>
      match on ≫= (fun n => natives s !! n) with
      | Some w => negb (isDestroyed w)
      | None => false
      end)
  end.

(** [webContents.send]: the message reaches the window's renderer. *)
Definition receive (msg : Message) (w : NativeWindow) : NativeWindow :=
  mkNative (creator w) (config w) (state w) (wasMainWindowFocused w)
           (closeListener w) (loadPhase w) (inbox w ++ [msg]).

(** [Browser.broadcast] *)
Definition Browser_broadcast (r : nat) (ch payload : string) : M App Fault unit :=
  ob <- gets (fun s => heap s !! r) ;;
  match ob with
  | None => ret tt
  | Some b =>
    gone <- gets (currentDestroyed b) ;;
    if gone then ret tt
    else
      match _browserWindow b with
      | None => throw (TypeError "Cannot read properties of undefined (reading 'webContents')")
      | Some n =>
        modify (onNative n (receive (mkMessage ch payload)))
      end
  end.

Definition broadcastToWindow (id ch payload : string) : M App Fault unit :=
  ob <- gets (fun s => browsers s !! id) ;;
  match ob with
  | None => modify (warn ("Cannot broadcast to non-existent window: " +:+ id))
  | Some r => Browser_broadcast r ch payload
  end.

(** The navigation under way in window [n] settles. *)
Definition loadSettled (n : nat) (ok : bool) (s : App) : App :=
  onNative n (fun w =>
    if isDestroyed w then w
    else
      let ph := match loadPhase w with
                | PlaceholderLoading => if ok then ContentLoading else PlaceholderFailed
                | ContentLoading => if ok then ContentLoaded else ContentFailed
                | ph => ph
                end in
      mkNative (creator w) (config w) (state w) (wasMainWindowFocused w)
               (closeListener w) ph (inbox w)) s.

(** *** What can happen to the registry *)

Inductive Op : Type :=
| OpRetrieve (id : string)               (* retrieveByIdentifier *)
| OpInitialize                           (* initializeBrowsers *)
| OpShow (id : string)                   (* retrieveByIdentifier(id).show() *)
| OpHide (id : string)                   (* retrieveByIdentifier(id).hide() *)
| OpCloseWindow (id : string)            (* closeWindow *)
| OpUserClose (n : nat)                  (* the user closes native window n *)
| OpIsWindowValid (id : string)          (* isWindowValid *)
| OpBroadcast (id ch payload : string)   (* broadcastToWindow *)
| OpLoadSettled (n : nat) (ok : bool)    (* a navigation ends *)
| OpQuit.                                (* shutdown sets app.isQuiting *)

Definition perform (op : Op) : M App Fault unit :=
  match op with
  | OpRetrieve id => retrieveByIdentifier id ;;; ret tt
  | OpInitialize => initializeBrowsers
  | OpShow id => r <- retrieveByIdentifier id ;; Browser_show r
  | OpHide id => r <- retrieveByIdentifier id ;; Browser_hide r
  | OpCloseWindow id => closeWindow id
  | OpUserClose n => modify (closeRequest n)
  | OpIsWindowValid id => isWindowValid id ;;; ret tt
  | OpBroadcast id ch payload => broadcastToWindow id ch payload
  | OpLoadSettled n ok => modify (loadSettled n ok)
  | OpQuit => modify (fun s => mkApp true (natives s) (heap s) (browsers s)
                                     (dockVisible s) (logs s))
  end.

(** The state an operation leaves, whether it returned or threw. *)
Definition step (op : Op) (s : App) : App := snd (perform op s).

Definition run (ops : list Op) (s : App) : App := fold_left (fun q op => step op q) ops s.

Definition reachable (s : App) : Prop := exists ops : list Op, s = run ops initialApp.

End Host.

End Registry.

(** ** Spell check manager

    Source: [WindowSpellCheckManager].  The store is the application's
    [storeManager], read with a default for a key that was never
    written.  [session.setSpellCheckerLanguages] throws when a code is
    not one the platform accepts; which codes those are is left to the
    platform ([valid]). *)
Module SpellCheck.
Import StateExn.

Definition SUPPORTED_SPELL_CHECK_LANGUAGES : list string :=
  ["ar"; "bg"; "ca"; "cs"; "da"; "de-DE"; "el"; "en-AU"; "en-CA"; "en-GB";
   "en-US"; "es-ES"; "es-MX"; "et"; "fa"; "fo"; "fr-FR"; "he"; "hi"; "hr";
   "hu"; "id"; "it-IT"; "ja"; "ko"; "lt"; "lv"; "nb"; "nl"; "pl"; "pt-BR";
   "pt-PT"; "ro"; "ru"; "sk"; "sl"; "sr"; "sv"; "ta"; "tg"; "tr"; "uk"; "vi";
   "zh-CN"; "zh-TW"]%string.

(** [s.startsWith(p)] *)
Definition startsWith (s p : string) : bool := String.prefix p s.

(** [s.split('-')[0]] *)
Fixpoint beforeDash (s : string) : string :=
  match s with
  | EmptyString => EmptyString
  | String c rest => if Ascii.eqb c (Ascii.ascii_of_nat 45) then EmptyString else String c (beforeDash rest)
  end.

(** The table [preferredVariants].  Only bases for which some
    supported language exists are ever looked up, so the keys that a
    JavaScript object inherits play no part. *)
Definition preferredVariants (base : string) : option string :=
  if String.eqb base "en" then Some "en-US"%string
  else if String.eqb base "es" then Some "es-ES"%string
  else if String.eqb base "pt" then Some "pt-BR"%string
  else if String.eqb base "zh" then Some "zh-CN"%string
  else None.

Definition mapLocaleToSpellCheckLanguages (locale : string) : list string :=
  if String.eqb locale "" then ["en-US"%string]
  else if startsWith locale "ar" then ["ar"%string]
  else if startsWith locale "fa" then ["fa"%string]
  else if startsWith locale "cn" || String.eqb locale "zh-CN" then ["zh-CN"%string]
  else
    match List.find (fun lang => String.eqb lang locale) SUPPORTED_SPELL_CHECK_LANGUAGES with
    | Some exactMatch => [exactMatch]
    | None =>
      let baseLocale := beforeDash locale in
      let prefixMatches :=
        List.filter (fun lang => startsWith lang baseLocale) SUPPORTED_SPELL_CHECK_LANGUAGES in
      match prefixMatches with
      | first :: _ =>
        match preferredVariants baseLocale with
        | Some preferred =>
          if existsb (String.eqb preferred) prefixMatches then [preferred] else [first]
        | None => [first]
        end
      | [] => ["en-US"%string]
      end
    end.

Record StoreManager : Type := mkStore {
  enableSpellCheck : option bool;
  spellCheckLanguages : option (list string);
  autoSyncSpellCheckLanguage : option bool
}.

Inductive Fault : Type :=
| InvalidLanguage (code : string).

Inductive LogEntry : Type :=
| LogInfo (msg : string)
| LogDebug (msg : string)
| LogWarn (msg : string)
| LogError (msg : string) (err : Fault).

Record World : Type := mkWorld {
  store : StoreManager;
  sessionLanguages : list string;   (* the spell checker's languages *)
  i18n : option string;             (* the current language, when app.i18n is set *)
  log : list LogEntry
}.

Definition M (A : Type) : Type := StateExn.M World Fault A.

(** The configuration as [getSpellCheckConfig] reports it. *)
Record SpellCheckConfig : Type := mkConfig {
  autoSync : bool;
  availableLanguages : list string;
  enabled : bool;
  languages : list string
}.

Definition logger (e : LogEntry) : M unit :=
  modify (fun w => mkWorld (store w) (sessionLanguages w) (i18n w) (log w ++ [e])).

Definition setStore (f : StoreManager -> StoreManager) : M unit :=
  modify (fun w => mkWorld (f (store w)) (sessionLanguages w) (i18n w) (log w)).

Definition getConfig (w : World) : SpellCheckConfig :=
  mkConfig (default true (autoSyncSpellCheckLanguage (store w)))
           SUPPORTED_SPELL_CHECK_LANGUAGES
           (default false (enableSpellCheck (store w)))
           (default ["en-US"%string] (spellCheckLanguages (store w))).

Definition getSpellCheckConfig : M SpellCheckConfig := gets getConfig.

Section Platform.

Variable valid : string -> bool.

Definition setSpellCheckerLanguages (l : list string) : M unit :=
  match List.find (fun code => negb (valid code)) l with
  | Some code => throw (InvalidLanguage code)
  | None => modify (fun w => mkWorld (store w) l (i18n w) (log w))
  end.

Definition nonEmpty (l : list string) : bool :=
  match l with [] => false | _ => true end.

Definition updateSpellCheck (en : bool) (langs : option (list string))
  (updateAutoSync : bool) : M unit :=
  tryCatch
    (setStore (fun s => mkStore (Some en) (spellCheckLanguages s)
                                (autoSyncSpellCheckLanguage s)) ;;;
     match langs with
     | Some l => setStore (fun s => mkStore (enableSpellCheck s) (Some l)
                                            (autoSyncSpellCheckLanguage s))
     | None => ret tt
     end ;;;
     (if updateAutoSync && negb en
      then setStore (fun s => mkStore (enableSpellCheck s) (spellCheckLanguages s)
                                      (Some false))
      else ret tt) ;;;
     match langs with
     | Some l =>
       if en && nonEmpty l
       then logger (LogDebug "Updating spell check languages") ;;;
            setSpellCheckerLanguages l ;;;
            logger (LogInfo "Spell check updated with languages")
       else logger (LogDebug "Spell check disabled or no languages provided") ;;;
            setSpellCheckerLanguages []
     | None => logger (LogDebug "Spell check disabled or no languages provided") ;;;
               setSpellCheckerLanguages []
     end)
    (fun error => logger (LogError "Failed to update spell check:" error)).

Definition setupSpellCheck : M unit :=
  tryCatch
    (cfg <- getSpellCheckConfig ;;
     if negb (enabled cfg) then logger (LogDebug "Spell check is disabled")
     else
       lang <- gets i18n ;;
       langs <-
         (match lang with
          | Some currentLanguage =>
            if autoSync cfg then
              let mapped := mapLocaleToSpellCheckLanguages currentLanguage in
              if nonEmpty mapped
              then setStore (fun s => mkStore (enableSpellCheck s) (Some mapped)
                                              (autoSyncSpellCheckLanguage s)) ;;;
                   ret mapped
              else ret (languages cfg)
            else ret (languages cfg)
          | None => ret (languages cfg)
          end) ;;
       if nonEmpty langs
       then logger (LogDebug "Setting spell check languages") ;;;
            setSpellCheckerLanguages langs ;;;
            logger (LogInfo "Spell check enabled with languages")
       else logger (LogWarn "Spell check enabled but no languages configured"))
    (fun error => logger (LogError "Failed to set spell check languages:" error)).

(** The listener of the i18n instance's ['languageChanged'] event. *)
Definition languageChangeListener (language : string) : M unit :=
  cfg <- getSpellCheckConfig ;;
  if enabled cfg && autoSync cfg then
    logger (LogDebug "auto-syncing spell check") ;;;
    let mapped := mapLocaleToSpellCheckLanguages language in
    if nonEmpty mapped then updateSpellCheck true (Some mapped) false else ret tt
  else ret tt.

Definition setAutoSyncSpellCheckLanguage (sync : bool) : M unit :=
  setStore (fun s => mkStore (enableSpellCheck s) (spellCheckLanguages s) (Some sync)) ;;;
  lang <- gets i18n ;;
  (match lang with
   | Some currentLanguage =>
     if sync then
       let mapped := mapLocaleToSpellCheckLanguages currentLanguage in
       if nonEmpty mapped then
         cfg <- getSpellCheckConfig ;;
         if enabled cfg then updateSpellCheck true (Some mapped) false else ret tt
       else ret tt
     else ret tt
   | None => ret tt
   end) ;;;
  logger (LogInfo (if sync then "Auto-sync spell check language: enabled"
                   else "Auto-sync spell check language: disabled")).

End Platform.

End SpellCheck.

(** ** Window configuration builder

    Source: [WindowConfigBuilder] and the constants of [const/theme].
    An options object is a finite map from property names to values;
    a property that is not set is absent from the map.  The state
    returned by the [electron-window-state] library for a file and the
    path of the preload script come from outside. *)
Module ConfigBuilder.

#[warnings="-register-all"]
Inductive JsValue : Type :=
| JUndefined
| JBool (b : bool)
| JNum (n : Z)
| JStr (s : string)
| JObject (fields : list (string * JsValue)).

Definition BACKGROUND_DARK : string := "#000".
Definition BACKGROUND_LIGHT : string := "#f8f8f8".
Definition SYMBOL_COLOR_DARK : string := "#ffffff80".
Definition SYMBOL_COLOR_LIGHT : string := "#00000080".
Definition TITLE_BAR_HEIGHT : Z := 29.
Definition DEFAULT_HEIGHT : Z := 800.
Definition DEFAULT_WIDTH : Z := 1200.
Definition MIN_HEIGHT : Z := 600.
Definition MIN_WIDTH : Z := 480.

(** What the builder hands to [windowStateKeeper(...)]. *)
Record KeeperOptions : Type := mkKeeperOptions {
  defaultHeight : Z;
  defaultWidth : Z;
  file : string;
  fullScreen : bool;
  maximize : bool
}.

(** The state the library returns. *)
Record State : Type := mkState {
  x : option Z;
  y : option Z;
  width : Z;
  height : Z;
  isMaximized : bool;
  isFullScreen : bool
}.

(** [value || fallback] for a property read as a number. *)
Definition numberOr (v : option JsValue) (fallback : Z) : Z :=
  match v with
  | Some (JNum n) => if n =? 0 then fallback else n
  | _ => fallback
  end.

(** [`${value}`] for the identifier, which is a string. *)
Definition stringOf (v : option JsValue) : string :=
  match v with
  | Some (JStr s) => s
  | _ => "undefined"
  end.

Definition stateFile (identifier : string) : string :=
  "window-state-" +:+ identifier +:+ ".json".

(** [initializeWindowStateKeeper]: the argument of [windowStateKeeper]. *)
Definition initializeWindowStateKeeper (options : gmap string JsValue) : KeeperOptions :=
  mkKeeperOptions (numberOr (options !! "height"%string) DEFAULT_HEIGHT)
                  (numberOr (options !! "width"%string) DEFAULT_WIDTH)
                  (stateFile (stringOf (options !! "identifier"%string)))
                  false false.

Definition optNum (o : option Z) : JsValue :=
  match o with
  | Some n => JNum n
  | None => JUndefined
  end.

Definition buildWebPreferences (preload : string) : JsValue :=
  JObject [("allowRunningInsecureContent"%string, JBool true);
           ("backgroundThrottling"%string, JBool false);
           ("contextIsolation"%string, JBool true);
           ("preload"%string, JStr preload);
           ("sandbox"%string, JBool false);
           ("webSecurity"%string, JBool false);
           ("webviewTag"%string, JBool true)].

Definition getWindowsSpecificConfig (isDarkMode : bool) : list (string * JsValue) :=
  [("backgroundColor"%string, JStr (if isDarkMode then BACKGROUND_DARK else BACKGROUND_LIGHT));
   ("titleBarOverlay"%string,
    JObject [("color"%string, JStr (if isDarkMode then BACKGROUND_DARK else BACKGROUND_LIGHT));
             ("height"%string, JNum TITLE_BAR_HEIGHT);
             ("symbolColor"%string,
              JStr (if isDarkMode then SYMBOL_COLOR_DARK else SYMBOL_COLOR_LIGHT))]);
   ("titleBarStyle"%string, JStr "hidden")].

(** [Object.assign(target, source)] and the spread of [source] over
    [target]: the properties of [source], in order, written over
    [target]. *)
Definition assign (target : gmap string JsValue) (source : list (string * JsValue))
  : gmap string JsValue :=
  fold_left (fun m kv => <[fst kv := snd kv]> m) source target.

(** The properties [build] writes over the rest of the options. *)
Definition baseProperties (options : gmap string JsValue) (st : State)
  (isDarkMode : bool) (preload : string) : list (string * JsValue) :=
  [("autoHideMenuBar"%string, JBool true);
   ("darkTheme"%string, JBool isDarkMode);
   ("frame"%string, JBool false);
   ("height"%string, JNum (height st));
   ("minHeight"%string, JNum MIN_HEIGHT);
   ("minWidth"%string, JNum MIN_WIDTH);
   ("show"%string, JBool false);
   ("title"%string, default JUndefined (options !! "title"%string));
   ("transparent"%string, JBool false);
   ("vibrancy"%string, JStr "sidebar");
   ("visualEffectState"%string, JStr "active");
   ("webPreferences"%string, buildWebPreferences preload);
   ("width"%string, JNum (width st));
   ("x"%string, optNum (x st));
   ("y"%string, optNum (y st))].

(** The object [build] returns: its property [windowStateKeeper], and
    its other properties as a map. *)
Record WindowConfig : Type := mkWindowConfig {
  config : gmap string JsValue;
  windowStateKeeper : State
}.

Section Outside.

Variable keeper : KeeperOptions -> State.   (* the library *)
Variable preload : string.                  (* join(preloadDir, 'index.js') *)

(** [new WindowConfigBuilder(options).build()] *)
Definition build (isWindows isDarkMode : bool) (options : gmap string JsValue)
  : WindowConfig :=
  let st := keeper (initializeWindowStateKeeper options) in
  let rest := delete "showOnInit"%string
                (delete "devTools"%string (delete "title"%string options)) in
  let baseConfig := assign rest (baseProperties options st isDarkMode preload) in
  let baseConfig := if isWindows
                    then assign baseConfig (getWindowsSpecificConfig isDarkMode)
                    else baseConfig in
  mkWindowConfig (delete "windowStateKeeper"%string baseConfig) st.

End Outside.

End ConfigBuilder.

(** ** Loading a window's content

    Source: [Browser.loadUrl], [Browser.loadPlaceholder] and the load
    sequence started by [Browser.retrieveOrInitialize], over the world
    of [ErrorHandler].  A rejected promise that nothing catches is a
    thrown fault of the computation. *)
Module BrowserLoad.
Import StateExn ErrorHandler.

Definition splashHtml : string := "splash.html".

(** [Browser.loadUrl]; [nextServerUrl] is [this.app.nextServerUrl]. *)
Definition loadUrl (eh : WindowErrorHandler) (nextServerUrl path : string) : M unit :=
  let initUrl := nextServerUrl +:+ path in
  tryCatch
    (logger (LogDebug (tag eh ("Attempting to load URL: " +:+ initUrl))) ;;;
     loadURL eh initUrl ;;;
     logger (LogDebug (tag eh ("Successfully loaded URL: " +:+ initUrl))))
    (fun error =>
       logger (LogError (tag eh ("Failed to load URL (" +:+ initUrl +:+ "):")) error) ;;;
       handleLoadError eh initUrl).

(** [Browser.loadPlaceholder] *)
Definition loadPlaceholder (eh : WindowErrorHandler) : M unit :=
  logger (LogDebug (tag eh "Loading splash screen placeholder")) ;;;
  loadFile eh splashHtml ;;;
  logger (LogDebug (tag eh "Splash screen placeholder loaded.")).

(** [this.loadPlaceholder().then(() => { this.loadUrl(path).catch(...) })] *)
Definition initialLoad (eh : WindowErrorHandler) (nextServerUrl path : string) : M unit :=
  loadPlaceholder eh ;;;
  tryCatch
    (loadUrl eh nextServerUrl path)
    (fun e => logger (LogError (tag eh ("Initial loadUrl error for path '"
                                        +:+ path +:+ "':")) e)).

(** The renderer invokes [channel] once for every element of
    [attempts]; the results are in the order of the invocations. *)
Fixpoint invokeEach {A : Type} (channel : string) (attempts : list A) (w : World)
  : list (Fault + RetryResult) * World :=
  match attempts with
  | [] => ([], w)
  | _ :: rest =>
    let '(r, w1) := invoke channel w in
    let '(rs, w2) := invokeEach channel rest w1 in
    (r :: rs, w2)
  end.

End BrowserLoad.

(** ** WindowWebRequestManager: navigation, window.open and response headers

    The three handlers that the manager installs on a window's
    webContents, as functions from the handler's argument to what the
    handler does: whether it prevents the default, the calls it makes on
    Electron's [shell], and the value it returns or passes to its
    callback. *)
Module WebRequest.

(** [String.prototype.includes]: [sub] occurs somewhere in [s]. *)
Fixpoint includes (s sub : string) : bool :=
  String.prefix sub s ||
  match s with
  | EmptyString => false
  | String _ s' => includes s' sub
  end.

Fixpoint dropChars (n : nat) (s : string) : string :=
  match n, s with
  | O, _ => s
  | S _, EmptyString => EmptyString
  | S n', String _ s' => dropChars n' s'
  end.

(** [s.replace(pattern, replacement)] with a string pattern: the first
    occurrence only.  The replacements used here have no [$]. *)
Fixpoint replace (s pattern replacement : string) : string :=
  if String.prefix pattern s
  then String.append replacement (dropChars (String.length pattern) s)
  else match s with
       | EmptyString => EmptyString
       | String c s' => String c (replace s' pattern replacement)
       end.

Inductive ShellCall : Type :=
  | OpenExternal (url : string)
  | OpenPath (path : string).

(** What a handler did: [defaultPrevented] for [event.preventDefault()],
    and the calls on [shell], oldest first. *)
Record Handled : Type := mkHandled {
  defaultPrevented : bool;
  shellCalls : list ShellCall
}.

(** The ['will-navigate'] listener. *)
Definition willNavigate (url : string) : Handled :=
  if includes url "localhost:" || includes url "127.0.0.1:"
  then mkHandled false []
  else mkHandled true [OpenExternal url].

Inductive Action : Type := deny | allow.

(** The handler given to [setWindowOpenHandler]: its result and the
    calls on [shell]. *)
Definition windowOpenHandler (url : string) : Action * list ShellCall :=
  if includes url "http://file/"
  then (let fileName := replace url "http://file/" "" in
        (deny, [OpenPath fileName]))
  else (deny, [OpenExternal url]).

(** Response headers: header name to its values; names are compared as
    the object's keys are, case-sensitively. *)
Definition Headers : Type := gmap string (list string).

Record HeadersReceivedResponse : Type := mkResponse {
  cancel : bool;
  responseHeaders : option Headers
}.

(** [if (headers?.[name]) delete headers[name]]: a header's value is an
    array, which is truthy also when empty. *)
Definition deleteHeader (name : string) (h : Headers) : Headers :=
  match h !! name with
  | Some _ => delete name h
  | None => h
  end.

(** The [onHeadersReceived] listener: what it passes to [callback]. *)
Definition onHeadersReceived (headers : option Headers) : HeadersReceivedResponse :=
  mkResponse false
    (h ← headers;
     Some (deleteHeader "content-security-policy"
            (deleteHeader "Content-Security-Policy"
              (deleteHeader "x-frame-options"
                (deleteHeader "X-Frame-Options" h))))).

End WebRequest.

(** ** WindowLifecycleManager: zoom factor, full screen, window state

    The listeners that [setupLifecycleEvents] installs, except the
    render-process monitor modelled above, and the manager's
    [setZoomFactor] and [getZoomFactor].  The world is what they read and
    write: the window, its page's zoom factor, the messages sent to the
    renderer and the store's [zoomFactor] entry.

    [webContents.setZoomFactor] is Electron's: it raises on a factor that
    is not greater than 0 and changes nothing then. *)
Module Lifecycle.
Import StateExn.

Inductive Fault : Type := InvalidZoomFactor.

Inductive Message : Type :=
  | FullscreenStatusChanged (status : bool)
  | WindowStateMaximized (maximized : bool)
  | WindowStateMinimized (minimized : bool).

Record Input : Type := mkInput {
  key : string;
  alt : bool;
  control : bool;
  meta : bool;
  shift : bool
}.

Record World : Type := mkWorld {
  destroyed : bool;
  fullScreen : bool;
  pageZoomFactor : Q;
  sent : list Message;             (* webContents.send, oldest first *)
  readyToShowPending : bool;       (* the once('ready-to-show') listener *)
  storedZoomFactor : option Q      (* storeManager's 'zoomFactor' *)
}.

Definition M (A : Type) : Type := StateExn.M World Fault A.

Definition webContents_setZoomFactor (factor : Q) : M unit :=
  if Qle_bool factor 0 then throw InvalidZoomFactor
  else modify (fun w => mkWorld (destroyed w) (fullScreen w) factor (sent w)
                                (readyToShowPending w) (storedZoomFactor w)).

Definition webContents_send (m : Message) : M unit :=
  modify (fun w => mkWorld (destroyed w) (fullScreen w) (pageZoomFactor w)
                           (sent w ++ [m]) (readyToShowPending w) (storedZoomFactor w)).

Definition window_setFullScreen (b : bool) : M unit :=
  modify (fun w => mkWorld (destroyed w) b (pageZoomFactor w) (sent w)
                           (readyToShowPending w) (storedZoomFactor w)).

(** [storeManager.get('zoomFactor', 1)] and [storeManager.set]. *)
Definition storeGetZoomFactor : M Q := gets (fun w => default 1%Q (storedZoomFactor w)).

Definition storeSetZoomFactor (factor : Q) : M unit :=
  modify (fun w => mkWorld (destroyed w) (fullScreen w) (pageZoomFactor w) (sent w)
                           (readyToShowPending w) (Some factor)).

(** The body shared by the zoom listeners. *)
Definition reapplyZoomFactor : M unit :=
  zoomFactor <- storeGetZoomFactor ;;
  webContents_setZoomFactor zoomFactor.

Inductive Event : Type :=
  | ReadyToShow
  | WillResize
  | Resize
  | Restore
  | EnterFullScreen
  | LeaveFullScreen
  | BeforeInput (input : Input)
  | Maximize
  | Unmaximize
  | Minimize.

Section Host.

Variable platform : Electron.Platform.

(** The listeners of one event, in the order they were installed; the
    result is whether the event's default was prevented.  The window has
    entered or left full screen when the full-screen events arrive. *)
Definition emit (ev : Event) : M bool :=
  match ev with
  | ReadyToShow =>
    pending <- gets readyToShowPending ;;
    if pending
    then (modify (fun w => mkWorld (destroyed w) (fullScreen w) (pageZoomFactor w)
                                   (sent w) false (storedZoomFactor w)) ;;;
          reapplyZoomFactor ;;; ret false)
    else ret false
  | WillResize => reapplyZoomFactor ;;; ret false
  | Resize =>
    if Electron.isLinux platform then (reapplyZoomFactor ;;; ret false) else ret false
  | Restore =>
    reapplyZoomFactor ;;;
    webContents_send (WindowStateMinimized false) ;;; ret false
  | EnterFullScreen =>
    window_setFullScreen true ;;;
    webContents_send (FullscreenStatusChanged true) ;;; ret false
  | LeaveFullScreen =>
    window_setFullScreen false ;;;
    webContents_send (FullscreenStatusChanged false) ;;; ret false
  | BeforeInput input =>
    isFullScreen <- gets fullScreen ;;
    if String.eqb (key input) "Escape" && negb (alt input) && negb (control input)
       && negb (meta input) && negb (shift input) && isFullScreen
    then (window_setFullScreen false ;;; ret true)
    else ret false
  | Maximize => webContents_send (WindowStateMaximized true) ;;; ret false
  | Unmaximize => webContents_send (WindowStateMaximized false) ;;; ret false
  | Minimize => webContents_send (WindowStateMinimized true) ;;; ret false
  end.

(** What happens to a live window between two calls of the manager: an
    event, or the page's zoom changing under the manager (the reset on
    resize that the listeners work around). *)
Inductive Op : Type :=
  | Emit (ev : Event)
  | PageZoomChanged (factor : Q).

Definition perform (op : Op) : M unit :=
  match op with
  | Emit ev => emit ev ;;; ret tt
  | PageZoomChanged factor =>
    modify (fun w => mkWorld (destroyed w) (fullScreen w) factor (sent w)
                             (readyToShowPending w) (storedZoomFactor w))
  end.

Fixpoint run (ops : list Op) : M unit :=
  match ops with
  | [] => ret tt
  | op :: rest => perform op ;;; run rest
  end.

End Host.

Definition setZoomFactor (factor : Q) : M unit :=
  gone <- gets destroyed ;;
  if negb gone
  then (webContents_setZoomFactor factor ;;; storeSetZoomFactor factor)
  else ret tt.

Definition getZoomFactor : M Q :=
  gone <- gets destroyed ;;
  if negb gone then gets pageZoomFactor else storeGetZoomFactor.

End Lifecycle.

(** ** WindowThemeManager

    [nativeTheme] is one object for the whole process: its ['updated']
    listeners are kept in the world, each one the [handleThemeChange] of
    the manager that installed it, beside every manager constructed and
    the callbacks that [setTimeout] has pending.  A manager is a
    reference into [managers]. *)
Module Theme.
Record TitleBarOverlay : Type := mkOverlay {
  color : string;
  height : Z;
  symbolColor : string
}.

Record Window : Type := mkWindow {
  destroyed : bool;
  backgroundColor : option string;
  titleBarOverlay : option TitleBarOverlay
}.

Record WindowThemeManager : Type := mkManager {
  window : Window;
  themeListenerSetup : bool
}.

Record World : Type := mkWorld {
  managers : list WindowThemeManager;
  listeners : list nat;           (* nativeTheme.on('updated', ...), oldest first *)
  timers : list nat;              (* setTimeout callbacks pending, oldest first *)
  shouldUseDarkColors : bool
}.

Definition initial : World := mkWorld [] [] [] false.

Definition onManager (this : nat) (f : WindowThemeManager -> WindowThemeManager)
  (s : World) : World :=
  mkWorld (alter f this (managers s)) (listeners s) (timers s) (shouldUseDarkColors s).

Definition setupThemeListener (this : nat) (s : World) : World :=
  match managers s !! this with
  | Some m =>
    if themeListenerSetup m then s
    else onManager this (fun m => mkManager (window m) true)
           (mkWorld (managers s) (listeners s ++ [this]) (timers s)
                    (shouldUseDarkColors s))
  | None => s
  end.

(** [new WindowThemeManager(window, identifier)]. *)
Definition construct (w : Window) (s : World) : World :=
  let this := length (managers s) in
  setupThemeListener this
    (mkWorld (managers s ++ [mkManager w false]) (listeners s) (timers s)
             (shouldUseDarkColors s)).

Definition applyWindowsVisualEffects (isDarkMode : bool) (w : Window) : Window :=
  mkWindow (destroyed w)
    (Some (if isDarkMode then ConfigBuilder.BACKGROUND_DARK else ConfigBuilder.BACKGROUND_LIGHT))
    (Some (mkOverlay (if isDarkMode then ConfigBuilder.BACKGROUND_DARK
                      else ConfigBuilder.BACKGROUND_LIGHT)
                     ConfigBuilder.TITLE_BAR_HEIGHT
                     (if isDarkMode then ConfigBuilder.SYMBOL_COLOR_DARK
                      else ConfigBuilder.SYMBOL_COLOR_LIGHT))).

Section Host.

Variable isWindows : bool.

Definition applyVisualEffects (this : nat) (s : World) : World :=
  match managers s !! this with
  | Some m =>
    if destroyed (window m) then s
    else
      let isDarkMode := shouldUseDarkColors s in
      if isWindows
      then onManager this
             (fun m => mkManager (applyWindowsVisualEffects isDarkMode (window m))
                                 (themeListenerSetup m)) s
      else s
  | None => s
  end.

Definition reapplyVisualEffects (this : nat) (s : World) : World :=
  applyVisualEffects this s.

(** [handleThemeChange]: the effects are applied from a timer. *)
Definition handleThemeChange (this : nat) (s : World) : World :=
  mkWorld (managers s) (listeners s) (timers s ++ [this]) (shouldUseDarkColors s).

Definition cleanup (this : nat) (s : World) : World :=
  match managers s !! this with
  | Some m =>
    if themeListenerSetup m
    then onManager this (fun m => mkManager (window m) false) s
    else s
  | None => s
  end.

(** The system theme changes: [nativeTheme] emits ['updated']. *)
Definition nativeThemeUpdated (dark : bool) (s : World) : World :=
  fold_left (fun s this => handleThemeChange this s) (listeners s)
            (mkWorld (managers s) (listeners s) (timers s) dark).

(** The oldest pending timer fires. *)
Definition timerFires (s : World) : World :=
  match timers s with
  | [] => s
  | this :: rest =>
    applyVisualEffects this
      (mkWorld (managers s) (listeners s) rest (shouldUseDarkColors s))
  end.

Fixpoint timersFire (n : nat) (s : World) : World :=
  match n with
  | O => s
  | S n' => timersFire n' (timerFires s)
  end.

Definition destroyWindow (this : nat) (s : World) : World :=
  onManager this
    (fun m => mkManager (mkWindow true (backgroundColor (window m))
                                  (titleBarOverlay (window m)))
                        (themeListenerSetup m)) s.

Inductive Op : Type :=
  | OpConstruct (w : Window)
  | OpCleanup (this : nat)
  | OpReapply (this : nat)
  | OpThemeUpdated (dark : bool)
  | OpTimerFires
  | OpDestroyWindow (this : nat).

Definition step (op : Op) (s : World) : World :=
  match op with
  | OpConstruct w => construct w s
  | OpCleanup this => cleanup this s
  | OpReapply this => reapplyVisualEffects this s
  | OpThemeUpdated dark => nativeThemeUpdated dark s
  | OpTimerFires => timerFires s
  | OpDestroyWindow this => destroyWindow this s
  end.

Definition run (ops : list Op) (s : World) : World := fold_left (fun s op => step op s) ops s.

Definition reachable (s : World) : Prop := exists ops : list Op, s = run ops initial.

End Host.

End Theme.

(** ** TrayManager

    The manager's [trays] map, in insertion order as a JavaScript [Map]
    keeps it, over a heap of [Tray] objects.  The [Tray] class is in
    [./Tray], outside these sources: a tray here is what the manager
    hands to it and what the manager calls on it, its options, whether
    [destroy()] was called and the broadcasts it was given. *)
Module Tray.

Record TrayOptions : Type := mkOptions {
  iconPath : string;
  identifier : string;
  tooltip : string
}.

Record Message : Type := mkMessage {
  event : string;
  data : string
}.

Record Tray : Type := mkTray {
  options : TrayOptions;
  destroyed : bool;
  received : list Message
}.

Record TrayManager : Type := mkManager {
  heap : list Tray;
  trays : list (string * nat)
}.

Definition initialManager : TrayManager := mkManager [] [].

(** [Map.prototype.get] and [set]. *)
Definition mapGet (key : string) (m : list (string * nat)) : option nat :=
  option_map snd (List.find (fun e => String.eqb (fst e) key) m).

Fixpoint mapSet (key : string) (value : nat) (m : list (string * nat)) :
  list (string * nat) :=
  match m with
  | [] => [(key, value)]
  | (k, v) :: rest =>
    if String.eqb k key then (k, value) :: rest else (k, v) :: mapSet key value rest
  end.

Definition onTray (r : nat) (f : Tray -> Tray) (s : TrayManager) : TrayManager :=
  mkManager (alter f r (heap s)) (trays s).

Definition Tray_broadcast (m : Message) (r : nat) (s : TrayManager) : TrayManager :=
  onTray r (fun t => mkTray (options t) (destroyed t) (received t ++ [m])) s.

Definition Tray_destroy (r : nat) (s : TrayManager) : TrayManager :=
  onTray r (fun t => mkTray (options t) true (received t)) s.

Definition retrieveByIdentifier (identifier : string) (s : TrayManager) : option nat :=
  mapGet identifier (trays s).

Definition getMainTray (s : TrayManager) : option nat := retrieveByIdentifier "main" s.

Definition retrieveOrInitialize (o : TrayOptions) (s : TrayManager) : nat * TrayManager :=
  match mapGet (identifier o) (trays s) with
  | Some tray => (tray, s)
  | None =>
    let tray := length (heap s) in
    (tray, mkManager (heap s ++ [mkTray o false []]) (mapSet (identifier o) tray (trays s)))
  end.

Definition broadcastToAllTrays (m : Message) (s : TrayManager) : TrayManager :=
  fold_left (fun s e => Tray_broadcast m (snd e) s) (trays s) s.

Definition broadcastToTray (identifier : string) (m : Message) (s : TrayManager) :
  TrayManager :=
  match mapGet identifier (trays s) with
  | Some tray => Tray_broadcast m tray s
  | None => s
  end.

Definition destroyAll (s : TrayManager) : TrayManager :=
  let s' := fold_left (fun s e => Tray_destroy (snd e) s) (trays s) s in
  mkManager (heap s') [].

Section Host.

(** [name] of package.json. *)
Variable name : string.

Definition initializeMainTray (s : TrayManager) : nat * TrayManager :=
  retrieveOrInitialize (mkOptions "tray-icon.png" "main" name) s.

Definition initializeTrays (s : TrayManager) : TrayManager :=
  snd (initializeMainTray s).

Inductive Op : Type :=
  | OpInitializeTrays
  | OpBroadcastToAllTrays (m : Message)
  | OpBroadcastToTray (identifier : string) (m : Message)
  | OpDestroyAll.

Definition step (op : Op) (s : TrayManager) : TrayManager :=
  match op with
  | OpInitializeTrays => initializeTrays s
  | OpBroadcastToAllTrays m => broadcastToAllTrays m s
  | OpBroadcastToTray identifier m => broadcastToTray identifier m s
  | OpDestroyAll => destroyAll s
  end.

Definition run (ops : list Op) (s : TrayManager) : TrayManager :=
  fold_left (fun s op => step op s) ops s.

End Host.

End Tray.

(** * Properties *)

Module CrashRecoveryFacts.
Import CrashRecovery.

Lemma onRenderProcessGone_reload (now : Z) (m : WindowLifecycleManager) :
  60000 < now - lastRendererProcessCrashTime m ->
  onRenderProcessGone now m = (mkLifecycle now, Reload).
Proof.
  intros H. unfold onRenderProcessGone, crashThreshold.
  destruct (Z.ltb_spec (60 * 1000) (now - lastRendererProcessCrashTime m)); [reflexivity | lia].
Qed.

Lemma onRenderProcessGone_exit (now : Z) (m : WindowLifecycleManager) :
  now - lastRendererProcessCrashTime m <= 60000 ->
  onRenderProcessGone now m = (mkLifecycle now, ExitApp 1).
Proof.
  intros H. unfold onRenderProcessGone, crashThreshold.
  destruct (Z.ltb_spec (60 * 1000) (now - lastRendererProcessCrashTime m)); [lia | reflexivity].
Qed.

Lemma start_lookup (ids : list string) (id : string) :
  id ∈ ids -> managers (start ids) !! id = Some newLifecycleManager.
Proof.
  unfold start; simpl. induction ids as [|x xs IH]; intros Hin.
  - inversion Hin.
  - simpl. destruct (decide (x = id)) as [->|Hne].
    + apply lookup_insert_eq.
    + rewrite lookup_insert_ne by exact Hne. apply IH.
      apply elem_of_cons in Hin. destruct Hin as [->|Hin]; [congruence | exact Hin].
Qed.

Lemma crash_reload (p : Process) (id : string) (m : WindowLifecycleManager) (now : Z) :
  status p = Running -> managers p !! id = Some m ->
  60000 < now - lastRendererProcessCrashTime m ->
  crash id now p = mkProcess (<[id := mkLifecycle now]> (managers p)) (id :: reloads p) Running.
Proof.
  intros Hs Hm Ht. unfold crash. rewrite Hs, Hm.
  rewrite (onRenderProcessGone_reload _ _ Ht). reflexivity.
Qed.

Lemma crash_exit (p : Process) (id : string) (m : WindowLifecycleManager) (now : Z) :
  status p = Running -> managers p !! id = Some m ->
  now - lastRendererProcessCrashTime m <= 60000 ->
  crash id now p = mkProcess (<[id := mkLifecycle now]> (managers p)) (reloads p) (Exited 1).
Proof.
  intros Hs Hm Ht. unfold crash. rewrite Hs, Hm.
  rewrite (onRenderProcessGone_exit _ _ Ht). reflexivity.
Qed.

(** A stopped process stays stopped, whatever crashes next. *)
Lemma crashes_exited (evs : list (string * Z)) (p : Process) (c : Z) :
  status p = Exited c -> crashes evs p = p.
Proof.
  revert p. induction evs as [|[i t] evs IH]; intros p Hs; [reflexivity|].
  unfold crashes in *. simpl. unfold crash at 2. rewrite Hs. apply IH, Hs.
Qed.

(** Two crashes of one window, the first at [t1] and the second [gap]
    milliseconds later, in a freshly started process. *)
Definition twoCrashes (ids : list string) (id : string) (t1 gap : Z) : Process :=
  crashes [(id, t1); (id, t1 + gap)] (start ids).

Lemma twoCrashes_70s (ids : list string) (id : string) (t1 : Z) :
  id ∈ ids -> 60000 < t1 ->
  status (twoCrashes ids id t1 70000) = Running /\
  reloads (twoCrashes ids id t1 70000) = [id; id].
Proof.
  intros Hin Ht. unfold twoCrashes, crashes. simpl.
  rewrite (crash_reload (start ids) id newLifecycleManager t1);
    [| reflexivity | apply start_lookup, Hin | simpl; lia].
  rewrite (crash_reload _ id (mkLifecycle t1) (t1 + 70000));
    [| reflexivity | simpl; apply lookup_insert_eq | simpl; lia].
  split; reflexivity.
Qed.

Lemma twoCrashes_10s (ids : list string) (id : string) (t1 : Z) :
  id ∈ ids -> status (twoCrashes ids id t1 10000) = Exited 1.
Proof.
  intros Hin. unfold twoCrashes, crashes. simpl.
  destruct (Z.lt_ge_cases 60000 t1) as [Ht|Ht].
  - rewrite (crash_reload (start ids) id newLifecycleManager t1);
      [| reflexivity | apply start_lookup, Hin | simpl; lia].
    rewrite (crash_exit _ id (mkLifecycle t1) (t1 + 10000));
      [| reflexivity | simpl; apply lookup_insert_eq | simpl; lia].
    reflexivity.
  - rewrite (crash_exit (start ids) id newLifecycleManager t1);
      [| reflexivity | apply start_lookup, Hin | simpl; lia].
    reflexivity.
Qed.

(** C1.  In a running process, a renderer crash of window [id] at time
    [now] is judged against that window's own previous crash time [m]
    (0 for a window that never crashed): more than 60000 ms later the
    window is reloaded and the process keeps running; otherwise the
    process exits with status 1, which is not zero.  No other window's
    crash time changes.  In a fresh process whose first crash comes
    more than 60000 ms after epoch 0, two crashes of one window 70 s
    apart both reload; two crashes 10 s apart stop the process. *)
Theorem crash_recovery_policy
  (p : Process) (id : string) (m : WindowLifecycleManager) (now : Z) :
  status p = Running ->
  managers p !! id = Some m ->
  (60000 < now - lastRendererProcessCrashTime m ->
     status (crash id now p) = Running /\
     reloads (crash id now p) = id :: reloads p) /\
  (now - lastRendererProcessCrashTime m <= 60000 ->
     status (crash id now p) = Exited 1 /\ 1 <> 0 /\
     reloads (crash id now p) = reloads p) /\
  managers (crash id now p) !! id = Some (mkLifecycle now) /\
  (forall id' : string, id' <> id ->
     managers (crash id now p) !! id' = managers p !! id') /\
  (forall (ids : list string) (t1 : Z), id ∈ ids -> 60000 < t1 ->
     status (twoCrashes ids id t1 70000) = Running /\
     reloads (twoCrashes ids id t1 70000) = [id; id]) /\
  (forall (ids : list string) (t1 : Z), id ∈ ids ->
     status (twoCrashes ids id t1 10000) = Exited 1).
Proof.
  intros Hs Hm.
  split; [| split; [| split; [| split; [| split]]]].
  - intros Ht. rewrite (crash_reload p id m now Hs Hm Ht). split; reflexivity.
  - intros Ht. rewrite (crash_exit p id m now Hs Hm Ht).
    split; [reflexivity | split; [lia | reflexivity]].
  - destruct (Z.lt_ge_cases 60000 (now - lastRendererProcessCrashTime m)) as [Ht|Ht].
    + rewrite (crash_reload p id m now Hs Hm Ht). simpl. apply lookup_insert_eq.
    + rewrite (crash_exit p id m now Hs Hm Ht). simpl. apply lookup_insert_eq.
  - intros id' Hne.
    destruct (Z.lt_ge_cases 60000 (now - lastRendererProcessCrashTime m)) as [Ht|Ht].
    + rewrite (crash_reload p id m now Hs Hm Ht). simpl.
      apply lookup_insert_ne. congruence.
    + rewrite (crash_exit p id m now Hs Hm Ht). simpl.
      apply lookup_insert_ne. congruence.
  - intros ids t1. apply twoCrashes_70s.
  - intros ids t1. apply twoCrashes_10s.
Qed.

(** The policy at a concrete process: windows chat and settings, chat
    crashed last at 1700000000000 and crashes again 70 s later. *)
Lemma crash_recovery_policy_witness :
  let p := mkProcess {[ "chat"%string := mkLifecycle 1700000000000;
                        "settings"%string := newLifecycleManager ]} [] Running in
  status (crash "chat" 1700000070000 p) = Running /\
  reloads (crash "chat" 1700000070000 p) = ["chat"%string] /\
  managers (crash "chat" 1700000070000 p) !! "settings"%string = Some newLifecycleManager /\
  status (twoCrashes ["chat"%string; "settings"%string] "chat" 1700000000000 10000) = Exited 1.
Proof.
  intros p.
  pose proof (crash_recovery_policy p "chat" (mkLifecycle 1700000000000) 1700000070000
                eq_refl eq_refl) as (Hre & _ & _ & Hfr & _ & H10).
  destruct (Hre ltac:(simpl; lia)) as [H1 H2].
  split; [exact H1 | split; [exact H2 | split]].
  - rewrite (Hfr "settings"%string) by discriminate. reflexivity.
  - apply H10. apply elem_of_cons. left. reflexivity.
Defined.

End CrashRecoveryFacts.

Module ErrorHandlerFacts.
Import StateExn ErrorHandler.

Ltac run_monad :=
  unfold handleLoadError, retryHandler, setupRetryHandler, reloadErrorPage,
    loadFallbackErrorPage, cleanupRetryHandler, loadFile, loadURL, navigate, handle,
    removeHandler, listenerCount, logger, tryCatch, bind, ret, throw; simpl.

(** With no event listener on the channel, [cleanupRetryHandler]
    leaves the world, and so the handler table, as it is. *)
Lemma cleanupRetryHandler_without_listener (eh : WindowErrorHandler) (w : World) :
  default 0%nat (listeners (ipcMain w) !! retryHandlerKey eh) = 0%nat ->
  cleanupRetryHandler eh w = (inr tt, w).
Proof.
  intros H. unfold cleanupRetryHandler, listenerCount, bind, ret. rewrite H. reflexivity.
Qed.

(** With a listener on the channel it deletes the handler. *)
Lemma cleanupRetryHandler_with_listener (eh : WindowErrorHandler) (w : World) (n : nat) :
  listeners (ipcMain w) !! retryHandlerKey eh = Some (S n) ->
  exists w', cleanupRetryHandler eh w = (inr tt, w') /\
             invokeHandlers (ipcMain w') !! retryHandlerKey eh = None.
Proof.
  intros H. run_monad. rewrite H. simpl.
  eexists. split; [reflexivity|]. simpl. apply lookup_delete_eq.
Qed.

(** Arming on a channel that already has a handler and no listener
    throws, and changes nothing. *)
Lemma setupRetryHandler_occupied
  (eh : WindowErrorHandler) (url : string) (w : World) (h : RetryHandler) :
  default 0%nat (listeners (ipcMain w) !! retryHandlerKey eh) = 0%nat ->
  invokeHandlers (ipcMain w) !! retryHandlerKey eh = Some h ->
  setupRetryHandler eh url w = (inl (SecondHandler (retryHandlerKey eh)), w).
Proof.
  intros Hl Hh. unfold setupRetryHandler, bind.
  rewrite (cleanupRetryHandler_without_listener eh w Hl).
  unfold handle. rewrite Hh. reflexivity.
Qed.

(** Arming on a free channel registers the handler. *)
Lemma setupRetryHandler_free (eh : WindowErrorHandler) (url : string) (w : World) :
  default 0%nat (listeners (ipcMain w) !! retryHandlerKey eh) = 0%nat ->
  invokeHandlers (ipcMain w) !! retryHandlerKey eh = None ->
  exists w', setupRetryHandler eh url w = (inr tt, w') /\
             invokeHandlers (ipcMain w') !! retryHandlerKey eh = Some (mkRetryHandler eh url).
Proof.
  intros Hl Hh. unfold setupRetryHandler, bind.
  rewrite (cleanupRetryHandler_without_listener eh w Hl).
  unfold handle. rewrite Hh. unfold logger. simpl.
  eexists. split; [reflexivity|]. simpl. apply lookup_insert_eq.
Qed.

Lemma reloadErrorPage_returns (eh : WindowErrorHandler) (w : World) :
  exists w', reloadErrorPage eh w = (inr tt, w') /\
             ipcMain w' = ipcMain w.
Proof.
  run_monad. destruct (script w) as [|[|msg] rest]; simpl; eauto.
Qed.

(** X1.  The retry handler never throws: every invocation returns a
    [RetryResult].  A successful reload returns [{success: true}], a
    failed one [{error: message, success: false}]. *)
Lemma retryHandler_returns (h : RetryHandler) (w : World) :
  exists r w', retryHandler h w = (inr r, w') /\
    match script w with
    | Failed msg :: _ => r = mkRetryResult false (Some msg)
    | _ => r = mkRetryResult true None /\
           pages w' !! identifier (owner h) = Some (UrlPage (originalUrl h))
    end.
Proof.
  run_monad.
  destruct (script w) as [|[|msg] rest]; simpl.
  - destruct (0 <? default 0 (listeners (ipcMain w) !! retryHandlerKey (owner h)))%nat;
      simpl; do 2 eexists; (split; [reflexivity|]); split; try reflexivity;
      simpl; apply lookup_insert_eq.
  - destruct (0 <? default 0 (listeners (ipcMain w) !! retryHandlerKey (owner h)))%nat;
      simpl; do 2 eexists; (split; [reflexivity|]); split; try reflexivity;
      simpl; apply lookup_insert_eq.
  - destruct rest as [|[|msg'] rest']; simpl; do 2 eexists; split; reflexivity.
Qed.

(** After a failed retry the error surface is loaded again (when that
    navigation succeeds) and the handler table is untouched. *)
Lemma retryHandler_failure (h : RetryHandler) (w : World) (msg : string) (rest : list LoadResult) :
  script w = Failed msg :: Loaded :: rest ->
  exists w', retryHandler h w = (inr (mkRetryResult false (Some msg)), w') /\
    pages w' !! identifier (owner h) = Some (FilePage errorHtml) /\
    ipcMain w' = ipcMain w.
Proof.
  intros Hs. run_monad. rewrite Hs. simpl.
  eexists. split; [reflexivity|]. split; [apply lookup_insert_eq | reflexivity].
Qed.

(** After a successful retry, with no listener on the channel, the
    handler is still in the table. *)
Lemma retryHandler_success_keeps_handler (h : RetryHandler) (w : World) (rest : list LoadResult) :
  script w = Loaded :: rest ->
  default 0%nat (listeners (ipcMain w) !! retryHandlerKey (owner h)) = 0%nat ->
  exists w', retryHandler h w = (inr (mkRetryResult true None), w') /\
    ipcMain w' = ipcMain w.
Proof.
  intros Hs Hl. run_monad. rewrite Hs. simpl. rewrite Hl. simpl.
  eexists. split; reflexivity.
Qed.

Definition chat : WindowErrorHandler := newErrorHandler "chat".
Definition chatUrl : string := "http://localhost:3015/chat".

(** The world after the chat window failed to load once: the error
    page is shown and the retry handler is armed. *)
Definition afterFirstFailure : World :=
  snd (handleLoadError chat chatUrl (initial [])).

(** A second load failure of the same window. *)
Definition afterSecondFailure : World :=
  snd (handleLoadError chat chatUrl afterFirstFailure).

(** C4.  The chat window fails to load twice and its error page loads
    both times.  The first failure arms the handler.  At the second,
    [cleanupRetryHandler] removes nothing (the channel has no event
    listener), so [ipcMain.handle] throws the second-handler fault;
    [handleLoadError] catches it, logs it, and shows the fall-back page
    in place of the error page. *)
Theorem rearm_raises_second_handler :
  retryHandlerKey chat = "retry-connection-chat"%string /\
  invokeHandlers (ipcMain afterFirstFailure) !! retryHandlerKey chat
    = Some (mkRetryHandler chat chatUrl) /\
  cleanupRetryHandler chat afterFirstFailure = (inr tt, afterFirstFailure) /\
  setupRetryHandler chat chatUrl afterFirstFailure
    = (inl (SecondHandler "retry-connection-chat"), afterFirstFailure) /\
  In (LogError "[chat] Failed to load error page:" (SecondHandler "retry-connection-chat"))
     (log afterSecondFailure) /\
  pages afterSecondFailure !! "chat"%string = Some (UrlPage fallbackHtml).
Proof.
  split; [reflexivity|].
  split; [vm_compute; reflexivity|].
  split; [vm_compute; reflexivity|].
  split; [vm_compute; reflexivity|].
  split; [|vm_compute; reflexivity].
  vm_compute. do 5 right. left. reflexivity.
Qed.

(** C5.  With the retry handler armed, the renderer invokes the retry
    channel and the original URL loads.  The handler returns
    [{success: true}] and the window shows the content, yet the handler
    is still registered: [cleanupRetryHandler] removed nothing. *)
Theorem successful_retry_keeps_handler :
  let w := snd (invoke "retry-connection-chat" afterFirstFailure) in
  fst (invoke "retry-connection-chat" afterFirstFailure) = inr (mkRetryResult true None) /\
  pages w !! "chat"%string = Some (UrlPage chatUrl) /\
  invokeHandlers (ipcMain w) !! "retry-connection-chat"%string
    = Some (mkRetryHandler chat chatUrl).
Proof.
  split; [vm_compute; reflexivity|].
  split; vm_compute; reflexivity.
Qed.

End ErrorHandlerFacts.

Module DisplayFacts.
Import Electron DisplayManager.

(** *** JavaScript rounding on halves of integers *)

Lemma Math_round_center (a d : Z) :
  Math_round (inject_Z a + inject_Z d / 2)%Q = a + (d + 1) / 2.
Proof.
  unfold Math_round, Qfloor, Qplus, Qdiv, Qmult, Qinv, inject_Z.
  cbn [Qnum Qden]. rewrite !Pos.mul_1_l.
  change (Z.pos (2 * 2)) with 4.
  pose proof (Z.div_mod (d + 1) 2 ltac:(lia)) as Hdm.
  pose proof (Z.mod_pos_bound (d + 1) 2 ltac:(lia)) as Hb.
  symmetry. apply Z.div_unique with (r := 2 * ((d + 1) mod 2)); lia.
Qed.

Lemma Math_floor_clamped (a d : Z) :
  Math_floor (Math_max (inject_Z a + inject_Z d / 2) (inject_Z a))%Q
  = a + Z.max (d / 2) 0.
Proof.
  unfold Math_floor, Math_max, Qle_bool, Qfloor, Qplus, Qdiv, Qmult, Qinv, inject_Z.
  cbn [Qnum Qden]. rewrite !Pos.mul_1_l.
  pose proof (Z.div_mod d 2 ltac:(lia)) as Hdm.
  pose proof (Z.mod_pos_bound d 2 ltac:(lia)) as Hb.
  destruct (Z.leb_spec ((a * 2 + d * 1 * 1) * 1) (a * 2)) as [Hle|Hgt]; cbn [Qnum Qden].
  - rewrite Z.div_1_r. lia.
  - symmetry. apply Z.div_unique with (r := d mod 2); lia.
Qed.

(** *** showWindow, hideWindow, toggleWindow *)

Lemma hideWindow_hides (p : Platform) (dm : WindowDisplayManager) :
  destroyed (window dm) = false ->
  visible (window (hideWindow p dm)) = false /\
  In Hide (calls (hideWindow p dm)) /\
  (~ In Show (calls dm) -> ~ In Show (calls (hideWindow p dm))).
Proof.
  intros Hd. unfold hideWindow. rewrite Hd.
  destruct p; simpl; unfold when; simpl;
    try destruct (wasMainWindowFocused dm); simpl;
    repeat split; try reflexivity;
    rewrite ?in_app_iff; simpl; intuition congruence.
Qed.

Lemma showWindow_minimized (p : Platform) (mainFocused : bool) (dm : WindowDisplayManager) :
  destroyed (window dm) = false -> minimized (window dm) = true ->
  calls (showWindow p mainFocused dm) = calls dm ++ [Restore].
Proof.
  intros Hd Hm. unfold showWindow. rewrite Hd. simpl. rewrite Hm. reflexivity.
Qed.

Lemma showWindow_shows (p : Platform) (mainFocused : bool) (dm : WindowDisplayManager) :
  destroyed (window dm) = false -> minimized (window dm) = false ->
  visible (window (showWindow p mainFocused dm)) = true /\
  focused (window (showWindow p mainFocused dm)) = true /\
  In Show (calls (showWindow p mainFocused dm)).
Proof.
  intros Hd Hm. unfold showWindow. rewrite Hd. simpl. rewrite Hm.
  destruct p, (fullScreen (window dm)), (visible (window dm)); simpl;
    repeat split; rewrite ?in_app_iff; simpl; tauto.
Qed.

(** C7.  For a window that is not destroyed: fullscreen and visible,
    [toggleWindow] changes nothing and makes no call; otherwise,
    visible and focused, it is [hideWindow] and the window ends
    hidden; visible and not focused, the only call is [focus] and the
    window stays visible; not visible, it is [showWindow], which shows
    and focuses the window (a minimized window is restored instead). *)
Theorem toggleWindow_cases (p : Platform) (mainFocused : bool) (dm : WindowDisplayManager) :
  destroyed (window dm) = false ->
  (fullScreen (window dm) = true -> visible (window dm) = true ->
     toggleWindow p mainFocused dm = dm) /\
  (fullScreen (window dm) = false -> visible (window dm) = true ->
   focused (window dm) = true ->
     toggleWindow p mainFocused dm = hideWindow p dm /\
     visible (window (toggleWindow p mainFocused dm)) = false /\
     In Hide (calls (toggleWindow p mainFocused dm))) /\
  (fullScreen (window dm) = false -> visible (window dm) = true ->
   focused (window dm) = false ->
     calls (toggleWindow p mainFocused dm) = calls dm ++ [Focus] /\
     visible (window (toggleWindow p mainFocused dm)) = true /\
     focused (window (toggleWindow p mainFocused dm)) = true) /\
  (visible (window dm) = false ->
     toggleWindow p mainFocused dm = showWindow p mainFocused dm /\
     (minimized (window dm) = false ->
        visible (window (toggleWindow p mainFocused dm)) = true /\
        In Show (calls (toggleWindow p mainFocused dm))) /\
     (minimized (window dm) = true ->
        calls (toggleWindow p mainFocused dm) = calls dm ++ [Restore])).
Proof.
  intros Hd. unfold toggleWindow. rewrite Hd.
  split; [| split; [| split]].
  - intros Hf Hv. rewrite Hf, Hv. reflexivity.
  - intros Hf Hv Hfo. rewrite Hf, Hv, Hfo. simpl.
    destruct (hideWindow_hides p dm Hd) as (H1 & H2 & _).
    split; [reflexivity | split; assumption].
  - intros Hf Hv Hfo. rewrite Hf, Hv, Hfo. simpl.
    split; [reflexivity | split; [exact Hv | reflexivity]].
  - intros Hv. rewrite Hv, andb_false_r.
    split; [reflexivity | split].
    + intros Hm. destruct (showWindow_shows p mainFocused dm Hd Hm) as (H1 & _ & H3).
      split; assumption.
    + intros Hm. apply showWindow_minimized; assumption.
Qed.

Definition screenRect : Rectangle := mkRect 0 0 1440 900.

Definition someWindow (vis foc ful : bool) : BrowserWindow :=
  mkWindow false vis foc ful false false (mkRect 100 80 800 600) (mkRect 100 80 800 600).

(** The four cases on macOS, on concrete windows. *)
Lemma toggleWindow_cases_witness :
  toggleWindow darwin true (newDisplayManager (someWindow true true true) "chat")
    = newDisplayManager (someWindow true true true) "chat" /\
  calls (toggleWindow darwin true (newDisplayManager (someWindow true true false) "chat"))
    = [Hide; AppHide] /\
  calls (toggleWindow darwin true (newDisplayManager (someWindow true false false) "chat"))
    = [Focus] /\
  calls (toggleWindow darwin true (newDisplayManager (someWindow false false false) "chat"))
    = [SetVisibleOnAllWorkspaces true; Show; Focus; SetVisibleOnAllWorkspaces false].
Proof.
  split; [| split; [| split]].
  - apply (toggleWindow_cases darwin true (newDisplayManager (someWindow true true true) "chat") eq_refl);
      reflexivity.
  - reflexivity.
  - apply (toggleWindow_cases darwin true (newDisplayManager (someWindow true false false) "chat") eq_refl);
      reflexivity.
  - reflexivity.
Defined.

(** *** centerOnDisplay and positionWindowOnDisplay *)

(** The position [centerOnDisplay] moves the window to. *)
Lemma centerOnDisplay_position (getDisplayMatching : Rectangle -> Display)
  (dm : WindowDisplayManager) :
  destroyed (window dm) = false ->
  let wa := workArea (getDisplayMatching (bounds (window dm))) in
  calls (centerOnDisplay getDisplayMatching dm)
  = calls dm ++
    [SetPosition (x wa + (width wa - width (bounds (window dm)) + 1) / 2)
                 (y wa + (height wa - height (bounds (window dm)) + 1) / 2)].
Proof.
  intros Hd wa. unfold centerOnDisplay. rewrite Hd. simpl.
  rewrite !Math_round_center. reflexivity.
Qed.

(** X4.  A window that is not larger than the work area of its
    display is moved by [centerOnDisplay] to a position at or after the
    origin of that work area. *)
Lemma centerOnDisplay_fits (getDisplayMatching : Rectangle -> Display)
  (dm : WindowDisplayManager) :
  destroyed (window dm) = false ->
  let wa := workArea (getDisplayMatching (bounds (window dm))) in
  width (bounds (window dm)) <= width wa ->
  height (bounds (window dm)) <= height wa ->
  x wa <= x (bounds (window (centerOnDisplay getDisplayMatching dm))) /\
  y wa <= y (bounds (window (centerOnDisplay getDisplayMatching dm))).
Proof.
  intros Hd wa Hw Hh. unfold centerOnDisplay. rewrite Hd. simpl.
  rewrite !Math_round_center. fold wa.
  assert (0 <= (width wa - width (bounds (window dm)) + 1) / 2)
    by (apply Z.div_pos; lia).
  assert (0 <= (height wa - height (bounds (window dm)) + 1) / 2)
    by (apply Z.div_pos; lia).
  lia.
Qed.

(** X2.  [positionWindowOnDisplay] never places the window before the
    origin of the work area, whatever the window's size: the centred
    offset is cut off at zero. *)
Lemma positionWindowOnDisplay_clamped (display : Display) (w : BrowserWindow) :
  x (workArea display) <= x (bounds (PositionManager.positionWindowOnDisplay display w)) /\
  y (workArea display) <= y (bounds (PositionManager.positionWindowOnDisplay display w)) /\
  PositionManager.centeredPosition display w
  = (x (workArea display)
       + Z.max ((width (workArea display) - width (contentBounds w)) / 2) 0,
     y (workArea display)
       + Z.max ((height (workArea display) - height (contentBounds w)) / 2) 0).
Proof.
  unfold PositionManager.positionWindowOnDisplay, PositionManager.centeredPosition.
  rewrite !Math_floor_clamped. simpl. repeat split; lia.
Qed.

Definition oneDisplay : Rectangle -> Display := fun _ => mkDisplay screenRect.

Lemma centerOnDisplay_fits_witness :
  0 <= x (bounds (window (centerOnDisplay oneDisplay
                            (newDisplayManager (someWindow true true false) "chat")))) /\
  0 <= y (bounds (window (centerOnDisplay oneDisplay
                            (newDisplayManager (someWindow true true false) "chat")))).
Proof.
  apply (centerOnDisplay_fits oneDisplay (newDisplayManager (someWindow true true false) "chat") eq_refl);
    simpl; lia.
Defined.

Definition largeWindow : BrowserWindow :=
  mkWindow false true true false false false (mkRect 0 0 1600 1000) (mkRect 0 0 1600 1000).

(** C8.  On a display with work area 1440 x 900 at the origin, a
    window of 1600 x 1000 is moved by [centerOnDisplay] to (-80, -50),
    before the work-area origin; [positionWindowOnDisplay] puts the
    same window at the origin. *)
Theorem centerOnDisplay_not_clamped :
  calls (centerOnDisplay oneDisplay (newDisplayManager largeWindow "chat")) = [SetPosition (-80) (-50)] /\
  x (bounds (window (centerOnDisplay oneDisplay (newDisplayManager largeWindow "chat"))))
    < x (workArea (oneDisplay (bounds largeWindow))) /\
  y (bounds (window (centerOnDisplay oneDisplay (newDisplayManager largeWindow "chat"))))
    < y (workArea (oneDisplay (bounds largeWindow))) /\
  PositionManager.centeredPosition (mkDisplay screenRect) largeWindow = (0, 0).
Proof.
  split; [vm_compute; reflexivity|].
  split; [vm_compute; reflexivity|].
  split; vm_compute; reflexivity.
Qed.

(** *** shouldHideDock *)

(** X3.  The display manager's [shouldHideDock] is true exactly on
    macOS with no window other than [this] visible. *)
Lemma shouldHideDock_true_iff (p : Platform) (allWindows : list (nat * BrowserWindow))
  (this : nat) :
  shouldHideDock p allWindows this = true <->
  isMac p = true /\
  forall (i : nat) (w : BrowserWindow), In (i, w) allWindows -> i <> this -> visible w = false.
Proof.
  unfold shouldHideDock. destruct (isMac p); simpl.
  2: { split; [discriminate | intros [H _]; discriminate]. }
  rewrite Nat.eqb_eq, length_zero_iff_nil.
  split.
  - intros Hnil. split; [reflexivity|]. intros i w Hin Hne.
    destruct (visible w) eqn:Hv; [|reflexivity]. exfalso.
    assert (Hf : In (i, w) (List.filter
              (fun win => visible (snd win) && negb (Nat.eqb (fst win) this)) allWindows)).
    { apply filter_In. split; [exact Hin|]. simpl. rewrite Hv. simpl.
      apply negb_true_iff, Nat.eqb_neq, Hne. }
    rewrite Hnil in Hf. inversion Hf.
  - intros [_ Hall].
    destruct (List.filter _ allWindows) as [|[i w] rest] eqn:Hfl; [reflexivity|].
    exfalso.
    assert (Hin : In (i, w) (List.filter
              (fun win => visible (snd win) && negb (Nat.eqb (fst win) this)) allWindows))
      by (rewrite Hfl; left; reflexivity).
    apply filter_In in Hin. destruct Hin as [Hin Hc]. simpl in Hc.
    apply andb_true_iff in Hc. destruct Hc as [Hv Hne].
    apply negb_true_iff, Nat.eqb_neq in Hne.
    rewrite (Hall i w Hin Hne) in Hv. discriminate.
Qed.

Lemma shouldHideDock_not_mac (p : Platform) (allWindows : list (nat * BrowserWindow))
  (this : nat) :
  isMac p = false -> shouldHideDock p allWindows this = false.
Proof. intros H. unfold shouldHideDock. rewrite H. reflexivity. Qed.

(** Chat (window 1, being closed) and a visible settings window 2. *)
Definition chatAndSettings : list (nat * BrowserWindow) :=
  [(1%nat, someWindow true true false); (2%nat, someWindow true false false)].

(** C9.  On macOS, while the settings window is visible, the earlier
    Browser class's [shouldHideDock] answers true for the chat window
    and its close handler hides the dock; the display manager's
    [shouldHideDock] answers false for the same windows. *)
Theorem earlier_shouldHideDock_ignores_windows :
  EarlierBrowser.shouldHideDock true chatAndSettings 1 = true /\
  EarlierBrowser.hidesDockOnClose darwin true chatAndSettings 1 = true /\
  (exists w : BrowserWindow, In (2%nat, w) chatAndSettings /\ visible w = true) /\
  shouldHideDock darwin chatAndSettings 1 = false.
Proof.
  split; [reflexivity|]. split; [reflexivity|]. split; [|reflexivity].
  exists (someWindow true false false). split; [right; left; reflexivity | reflexivity].
Qed.

End DisplayFacts.

Module RegistryFacts.
Import StateExn Registry.

(** *** The catalog *)

Lemma appBrowsersAt_identifier (key : string) (o : BrowserWindowOpts) :
  appBrowsersAt key = Some o -> identifier o = key.
Proof.
  unfold appBrowsersAt, appBrowsers. cbn [List.find fst snd].
  destruct (String.eqb_spec "chat" key) as [<-|_]; [intros [= <-]; reflexivity|].
  destruct (String.eqb_spec "devtools" key) as [<-|_]; [intros [= <-]; reflexivity|].
  destruct (String.eqb_spec "settings" key) as [<-|_]; [intros [= <-]; reflexivity|].
  intros H. discriminate H.
Qed.

Lemma appBrowsersAt_Some (key : string) (o : BrowserWindowOpts) :
  appBrowsersAt key = Some o -> appBrowsersAt (identifier o) = Some o.
Proof. intros H. rewrite (appBrowsersAt_identifier key o H). exact H. Qed.

(** *** Well-formed registries *)

Record wf (s : App) : Prop := mkWf {
  (* every Browser object is the registry's entry for its identifier *)
  wf_registered : forall (r : nat) (b : Browser),
    heap s !! r = Some b -> browsers s !! identifier (options b) = Some r;
  wf_entries : forall (id : string) (r : nat),
    browsers s !! id = Some r ->
    exists b, heap s !! r = Some b /\ identifier (options b) = id;
  wf_catalog : forall (r : nat) (b : Browser),
    heap s !! r = Some b -> appBrowsersAt (identifier (options b)) = Some (options b);
  (* every Browser has a window, built by it, carrying its close
     listener while it lives *)
  wf_current : forall (r : nat) (b : Browser),
    heap s !! r = Some b ->
    exists n w, _browserWindow b = Some n /\ natives s !! n = Some w /\
                creator w = r /\ config w = options b /\
                (if isDestroyed w then eventListenersSetup b = false
                 else closeListener w = true);
  (* a window that is not destroyed is the current window of its Browser *)
  wf_live : forall (n : nat) (w : NativeWindow),
    natives s !! n = Some w -> isDestroyed w = false ->
    exists b, heap s !! creator w = Some b /\ _browserWindow b = Some n;
  (* before shutdown no keep-alive window has been destroyed *)
  wf_keepAlive : isQuiting s = false ->
    forall (n : nat) (w : NativeWindow),
      natives s !! n = Some w -> truthy (keepAlive (config w)) = true ->
      isDestroyed w = false
}.

Lemma wf_initialApp : wf initialApp.
Proof.
  split; simpl; intros; discriminate.
Qed.

(** Two windows that differ only in what does not matter to [wf]. *)
Definition sameShape (w w' : NativeWindow) : Prop :=
  creator w' = creator w /\ config w' = config w /\
  isDestroyed w' = isDestroyed w /\ closeListener w' = closeListener w.

Lemma sameShape_refl (w : NativeWindow) : sameShape w w.
Proof. repeat split. Qed.

Definition similar (l l' : list NativeWindow) : Prop :=
  (forall m w, l !! m = Some w -> exists w', l' !! m = Some w' /\ sameShape w w') /\
  (forall m w', l' !! m = Some w' -> exists w, l !! m = Some w /\ sameShape w w').

Lemma wf_similar (s s' : App) :
  wf s -> isQuiting s' = isQuiting s -> heap s' = heap s ->
  browsers s' = browsers s -> similar (natives s) (natives s') -> wf s'.
Proof.
  intros [W1 W2 W3 W4 W5 W6] Hq Hh Hb [Hfwd Hbwd].
  split; rewrite ?Hq, ?Hh, ?Hb; auto.
  - intros r b Hr. destruct (W4 r b Hr) as (n & w & Hn & Hw & Hc & Hcf & Hl).
    destruct (Hfwd n w Hw) as (w' & Hw' & Hc' & Hcf' & Hd' & Hl').
    exists n, w'. unfold sameShape in *. rewrite Hc', Hcf', Hd', Hl'. auto.
  - intros n w' Hw' Hd'. destruct (Hbwd n w' Hw') as (w & Hw & Hc & Hcf & Hd & Hl).
    rewrite Hc. apply W5; [exact Hw | congruence].
  - intros Hq' n w' Hw' Hk. destruct (Hbwd n w' Hw') as (w & Hw & Hc & Hcf & Hd & Hl).
    rewrite Hd. apply (W6 Hq' n w Hw). congruence.
Qed.

Lemma similar_alter (n : nat) (f : NativeWindow -> NativeWindow) (l : list NativeWindow) :
  (forall w, l !! n = Some w -> sameShape w (f w)) -> similar l (alter f n l).
Proof.
  intros Hf. split.
  - intros m w Hw. destruct (decide (n = m)) as [->|Hne].
    + exists (f w). rewrite list_lookup_alter_eq, Hw. split; [reflexivity | auto].
    + exists w. rewrite list_lookup_alter_ne by exact Hne. split; [exact Hw | apply sameShape_refl].
  - intros m w' Hw'. destruct (decide (n = m)) as [->|Hne].
    + rewrite list_lookup_alter_eq in Hw'. destruct (l !! m) as [w|] eqn:Hw; [|discriminate].
      injection Hw' as <-. exists w. split; [reflexivity | auto].
    + rewrite list_lookup_alter_ne in Hw' by exact Hne. exists w'.
      split; [exact Hw' | apply sameShape_refl].
Qed.

Lemma similar_insert (n : nat) (w w' : NativeWindow) (l : list NativeWindow) :
  l !! n = Some w -> sameShape w w' -> similar l (<[n := w']> l).
Proof.
  intros Hn Hs. split.
  - intros m w0 Hw0. destruct (decide (n = m)) as [->|Hne].
    + exists w'. rewrite list_lookup_insert_eq by (eapply lookup_lt_Some; eauto).
      split; [reflexivity | congruence].
    + exists w0. rewrite list_lookup_insert_ne by exact Hne.
      split; [exact Hw0 | apply sameShape_refl].
  - intros m w0 Hw0. destruct (decide (n = m)) as [->|Hne].
    + rewrite list_lookup_insert_eq in Hw0 by (eapply lookup_lt_Some; eauto).
      injection Hw0 as <-. exists w. split; [exact Hn | exact Hs].
    + rewrite list_lookup_insert_ne in Hw0 by exact Hne. exists w0.
      split; [exact Hw0 | apply sameShape_refl].
Qed.

Lemma wf_onNative (n : nat) (f : NativeWindow -> NativeWindow) (s : App) :
  (forall w, sameShape w (f w)) -> wf s -> wf (onNative n f s).
Proof.
  intros Hf Hwf. apply (wf_similar s); try reflexivity; [exact Hwf|].
  simpl. apply similar_alter. auto.
Qed.

Lemma perform_destroyed (c : Electron.Call) (w : Electron.BrowserWindow) :
  Electron.destroyed (Electron.perform c w) = Electron.destroyed w.
Proof. destruct c; reflexivity. Qed.

Lemma wf_nativeCall (n : nat) (c : Electron.Call) (s : App) :
  wf s -> wf (nativeCall n c s).
Proof.
  apply wf_onNative. intros w. repeat split. unfold isDestroyed. simpl.
  apply perform_destroyed.
Qed.

Lemma showWindow_destroyed (p : Electron.Platform) (m : bool)
  (dm : DisplayManager.WindowDisplayManager) :
  Electron.destroyed (DisplayManager.window (DisplayManager.showWindow p m dm))
  = Electron.destroyed (DisplayManager.window dm).
Proof.
  destruct dm as [[d v f fs mi ws b cb] ident was cs wr].
  unfold DisplayManager.showWindow. simpl.
  destruct d, mi, p, fs, v; reflexivity.
Qed.

Lemma hideWindow_destroyed (p : Electron.Platform)
  (dm : DisplayManager.WindowDisplayManager) :
  Electron.destroyed (DisplayManager.window (DisplayManager.hideWindow p dm))
  = Electron.destroyed (DisplayManager.window dm).
Proof.
  destruct dm as [[d v f fs mi ws b cb] ident was cs wr].
  unfold DisplayManager.hideWindow. simpl.
  destruct d, p, was; reflexivity.
Qed.

Lemma wf_runDisplay (n : nat)
  (f : DisplayManager.WindowDisplayManager -> DisplayManager.WindowDisplayManager)
  (s : App) :
  (forall dm, Electron.destroyed (DisplayManager.window (f dm))
              = Electron.destroyed (DisplayManager.window dm)) ->
  wf s -> wf (runDisplay n f s).
Proof.
  intros Hf Hwf. unfold runDisplay.
  destruct (natives s !! n) as [w|] eqn:Hn; [|exact Hwf].
  apply (wf_similar s); try reflexivity; [exact Hwf|]. simpl.
  apply (similar_insert n w); [exact Hn|].
  repeat split. unfold isDestroyed. simpl. rewrite Hf. reflexivity.
Qed.

Lemma wf_warn (msg : string) (s : App) : wf s -> wf (warn msg s).
Proof. intros [W1 W2 W3 W4 W5 W6]. split; auto. Qed.

Lemma wf_setDock (v : bool) (s : App) : wf s -> wf (setDock v s).
Proof. intros [W1 W2 W3 W4 W5 W6]. split; auto. Qed.

Lemma wf_quit (s : App) :
  wf s -> wf (mkApp true (natives s) (heap s) (browsers s) (dockVisible s) (logs s)).
Proof. intros [W1 W2 W3 W4 W5 W6]. split; auto. simpl. discriminate. Qed.

Lemma wf_loadSettled (n : nat) (ok : bool) (s : App) : wf s -> wf (loadSettled n ok s).
Proof.
  apply wf_onNative. intros w. destruct (isDestroyed w) eqn:Hd.
  - apply sameShape_refl.
  - repeat split.
Qed.

(** *** Building windows and Browsers *)

Lemma lookup_snoc_length {A : Type} (l : list A) (a : A) : (l ++ [a]) !! length l = Some a.
Proof. rewrite lookup_app_r by lia. rewrite Nat.sub_diag. reflexivity. Qed.

Lemma insert_snoc_length {A : Type} (l : list A) (a a' : A) :
  <[length l := a']> (l ++ [a]) = l ++ [a'].
Proof. induction l as [|h t IH]; simpl; [reflexivity | f_equal; exact IH]. Qed.

Lemma liveWindowOf_None (s : App) (b : Browser) (n : nat) (w : NativeWindow) :
  liveWindowOf b s = None -> _browserWindow b = Some n -> natives s !! n = Some w ->
  isDestroyed w = true.
Proof.
  unfold liveWindowOf. intros H Hn Hw. rewrite Hn, Hw in H.
  destruct (isDestroyed w); [reflexivity | discriminate].
Qed.

Lemma wf_Browser_retrieveOrInitialize (r : nat) (s : App) :
  wf s -> wf (Browser_retrieveOrInitialize r s).
Proof.
  intros Hwf. unfold Browser_retrieveOrInitialize.
  destruct (heap s !! r) as [b|] eqn:Hr; [|exact Hwf].
  destruct (liveWindowOf b s) eqn:Hlive; [exact Hwf|].
  destruct Hwf as [W1 W2 W3 W4 W5 W6].
  destruct (W4 r b Hr) as (n0 & w0 & Hn0 & Hw0 & Hc0 & Hcf0 & Hl0).
  pose proof (liveWindowOf_None s b n0 w0 Hlive Hn0 Hw0) as Hd0.
  rewrite Hd0 in Hl0.
  assert (Hrlt : (r < length (heap s))%nat) by (eapply lookup_lt_Some; eauto).
  split; simpl.
  - intros r' b' Hr'. destruct (decide (r = r')) as [<-|Hne].
    + rewrite list_lookup_insert_eq in Hr' by exact Hrlt. injection Hr' as <-. simpl. auto.
    + rewrite list_lookup_insert_ne in Hr' by exact Hne. auto.
  - intros id r' Hid. destruct (W2 id r' Hid) as (b' & Hb' & Hid').
    destruct (decide (r = r')) as [<-|Hne].
    + rewrite list_lookup_insert_eq by exact Hrlt. eexists. split; [reflexivity|].
      simpl. congruence.
    + rewrite list_lookup_insert_ne by exact Hne. eauto.
  - intros r' b' Hr'. destruct (decide (r = r')) as [<-|Hne].
    + rewrite list_lookup_insert_eq in Hr' by exact Hrlt. injection Hr' as <-. simpl. eauto.
    + rewrite list_lookup_insert_ne in Hr' by exact Hne. eauto.
  - intros r' b' Hr'. destruct (decide (r = r')) as [<-|Hne].
    + rewrite list_lookup_insert_eq in Hr' by exact Hrlt. injection Hr' as <-. simpl.
      eexists _, _. split; [reflexivity|]. split; [apply lookup_snoc_length|].
      simpl. rewrite Hl0. repeat split.
    + rewrite list_lookup_insert_ne in Hr' by exact Hne.
      destruct (W4 r' b' Hr') as (n' & w' & Hn' & Hw' & Hrest).
      exists n', w'. split; [exact Hn'|]. split; [|exact Hrest].
      apply lookup_app_l_Some. exact Hw'.
  - intros m w' Hm Hd'. apply lookup_app_Some in Hm. destruct Hm as [Hm|[Hlen Hm]].
    + destruct (W5 m w' Hm Hd') as (b0 & Hb0 & Hbw0).
      destruct (decide (r = creator w')) as [Heq|Hne].
      * exfalso. rewrite <- Heq in Hb0. rewrite Hr in Hb0. injection Hb0 as <-.
        rewrite Hn0 in Hbw0. injection Hbw0 as <-. rewrite Hw0 in Hm. injection Hm as <-.
        congruence.
      * exists b0. rewrite list_lookup_insert_ne by exact Hne. auto.
    + destruct (m - length (natives s))%nat as [|k] eqn:Hk; [|destruct k; discriminate].
      simpl in Hm. injection Hm as <-. simpl.
      rewrite list_lookup_insert_eq by exact Hrlt. eexists. split; [reflexivity|].
      simpl. f_equal. lia.
  - intros Hq m w' Hm Hk. apply lookup_app_Some in Hm. destruct Hm as [Hm|[Hlen Hm]].
    + eauto.
    + destruct (m - length (natives s))%nat as [|k]; [|destruct k; discriminate].
      simpl in Hm. injection Hm as <-. reflexivity.
Qed.

Section HostFacts.

Variable platform : Electron.Platform.
Variable getDisplayNearestPoint : Z -> Z -> Electron.Display.

(** The window and the Browser that a construction allocates. *)
Definition builtWindow (r : nat) (o : BrowserWindowOpts) : NativeWindow :=
  mkNative r o (freshWindow o) false true PlaceholderLoading [].

Definition constructed (o : BrowserWindowOpts) (s : App) : App :=
  mkApp (isQuiting s)
        (natives s ++ [builtWindow (length (heap s)) o])
        (heap s ++ [mkBrowser o (Some (length (natives s))) true])
        (<[identifier o := length (heap s)]> (browsers s))
        (dockVisible s) (logs s).

Lemma BrowserManager_retrieveOrInitialize_existing (o : BrowserWindowOpts) (s : App) (r : nat) :
  browsers s !! identifier o = Some r ->
  BrowserManager_retrieveOrInitialize o s = (inr r, s).
Proof.
  intros H. unfold BrowserManager_retrieveOrInitialize, bind, gets. rewrite H. reflexivity.
Qed.

Lemma BrowserManager_retrieveOrInitialize_fresh (o : BrowserWindowOpts) (s : App) :
  browsers s !! identifier o = None ->
  BrowserManager_retrieveOrInitialize o s = (inr (length (heap s)), constructed o s).
Proof.
  intros H. unfold BrowserManager_retrieveOrInitialize, bind, gets, modify, ret. rewrite H.
  cbn [fst snd]. unfold Browser_retrieveOrInitialize. cbn [heap natives].
  rewrite lookup_snoc_length. unfold liveWindowOf. cbn [_browserWindow options eventListenersSetup].
  cbn [isQuiting natives heap browsers dockVisible logs negb].
  rewrite insert_snoc_length. reflexivity.
Qed.

Lemma wf_constructed (o : BrowserWindowOpts) (s : App) :
  browsers s !! identifier o = None ->
  appBrowsersAt (identifier o) = Some o ->
  wf s -> wf (constructed o s).
Proof.
  intros Hnone Hcat [W1 W2 W3 W4 W5 W6]. unfold constructed. split; simpl.
  - intros r b Hr. apply lookup_app_Some in Hr. destruct Hr as [Hr|[Hlen Hr]].
    + pose proof (W1 r b Hr) as Hreg.
      rewrite lookup_insert_ne; [exact Hreg|]. intros Heq. rewrite Heq in Hnone. congruence.
    + destruct (r - length (heap s))%nat as [|k] eqn:Hk; [|destruct k; discriminate].
      simpl in Hr. injection Hr as <-. simpl.
      rewrite lookup_insert_eq. f_equal. lia.
  - intros id r Hid. destruct (decide (identifier o = id)) as [<-|Hne].
    + rewrite lookup_insert_eq in Hid. injection Hid as <-.
      eexists. split; [apply lookup_snoc_length | reflexivity].
    + rewrite lookup_insert_ne in Hid by exact Hne.
      destruct (W2 id r Hid) as (b & Hb & Hi). exists b.
      split; [apply lookup_app_l_Some; exact Hb | exact Hi].
  - intros r b Hr. apply lookup_app_Some in Hr. destruct Hr as [Hr|[Hlen Hr]]; [eauto|].
    destruct (r - length (heap s))%nat as [|k]; [|destruct k; discriminate].
    simpl in Hr. injection Hr as <-. exact Hcat.
  - intros r b Hr. apply lookup_app_Some in Hr. destruct Hr as [Hr|[Hlen Hr]].
    + destruct (W4 r b Hr) as (n & w & Hn & Hw & Hrest). exists n, w.
      split; [exact Hn|]. split; [apply lookup_app_l_Some; exact Hw | exact Hrest].
    + destruct (r - length (heap s))%nat as [|k] eqn:Hk; [|destruct k; discriminate].
      simpl in Hr. injection Hr as <-. simpl.
      eexists _, _. split; [reflexivity|]. split; [apply lookup_snoc_length|].
      simpl. repeat split. lia.
  - intros n w Hn Hd. apply lookup_app_Some in Hn. destruct Hn as [Hn|[Hlen Hn]].
    + destruct (W5 n w Hn Hd) as (b & Hb & Hbw). exists b.
      split; [apply lookup_app_l_Some; exact Hb | exact Hbw].
    + destruct (n - length (natives s))%nat as [|k] eqn:Hk; [|destruct k; discriminate].
      simpl in Hn. injection Hn as <-. simpl.
      eexists. split; [apply lookup_snoc_length|]. simpl. f_equal. lia.
  - intros Hq n w Hn Hk. apply lookup_app_Some in Hn. destruct Hn as [Hn|[Hlen Hn]]; [eauto|].
    destruct (n - length (natives s))%nat as [|k]; [|destruct k; discriminate].
    simpl in Hn. injection Hn as <-. reflexivity.
Qed.

(** *** Closing *)

Lemma wf_closeRequest (n : nat) (s : App) : wf s -> wf (closeRequest platform n s).
Proof.
  intros Hwf. unfold closeRequest.
  destruct (natives s !! n) as [w|] eqn:Hn; [|exact Hwf].
  destruct (isDestroyed w) eqn:Hd; [exact Hwf|].
  pose proof Hwf as [W1 W2 W3 W4 W5 W6].
  destruct (W5 n w Hn Hd) as (b & Hb & Hbw).
  destruct (W4 _ b Hb) as (n' & w' & Hn' & Hw' & Hc' & Hcf' & Hl').
  rewrite Hbw in Hn'. injection Hn' as <-. rewrite Hn in Hw'. injection Hw' as <-.
  rewrite Hd in Hl'. rewrite Hl'. unfold closeListenerBody. rewrite Hb.
  assert (Hrlt : (creator w < length (heap s))%nat) by (eapply lookup_lt_Some; eauto).
  assert (Hclosing :
            (isQuiting s = false -> truthy (keepAlive (options b)) = false) ->
            wf (destroyNative n (cleanupResources (creator w) s))).
  { intros Hq. unfold destroyNative, cleanupResources, onNative, onBrowser. simpl.
    split; simpl.
    - intros r b0 Hr. destruct (decide (creator w = r)) as [<-|Hne].
      + rewrite list_lookup_alter_eq, Hb in Hr. injection Hr as <-. simpl. auto.
      + rewrite list_lookup_alter_ne in Hr by exact Hne. auto.
    - intros id r Hid. destruct (W2 id r Hid) as (b0 & Hb0 & Hi0).
      destruct (decide (creator w = r)) as [<-|Hne].
      + rewrite list_lookup_alter_eq, Hb. eexists. split; [reflexivity|]. simpl. congruence.
      + rewrite list_lookup_alter_ne by exact Hne. eauto.
    - intros r b0 Hr. destruct (decide (creator w = r)) as [<-|Hne].
      + rewrite list_lookup_alter_eq, Hb in Hr. injection Hr as <-. simpl. eauto.
      + rewrite list_lookup_alter_ne in Hr by exact Hne. eauto.
    - intros r b0 Hr. destruct (decide (creator w = r)) as [<-|Hne].
      + rewrite list_lookup_alter_eq, Hb in Hr. injection Hr as <-. simpl.
        eexists n, _. split; [exact Hbw|]. rewrite list_lookup_alter_eq, Hn. simpl.
        split; [reflexivity|]. simpl. repeat split; assumption.
      + rewrite list_lookup_alter_ne in Hr by exact Hne.
        destruct (W4 r b0 Hr) as (n0 & w0 & Hn0 & Hw0 & Hc0 & Hrest).
        exists n0, w0. split; [exact Hn0|]. split; [|split; [exact Hc0 | exact Hrest]].
        rewrite list_lookup_alter_ne; [exact Hw0|].
        intros <-. rewrite Hn in Hw0. injection Hw0 as <-. congruence.
    - intros m w0 Hm Hd0. destruct (decide (n = m)) as [<-|Hne].
      + rewrite list_lookup_alter_eq, Hn in Hm. injection Hm as <-. discriminate Hd0.
      + rewrite list_lookup_alter_ne in Hm by exact Hne.
        destruct (W5 m w0 Hm Hd0) as (b0 & Hb0 & Hbw0).
        destruct (decide (creator w = creator w0)) as [Heq|Hne'].
        * rewrite <- Heq. rewrite list_lookup_alter_eq, Hb. eexists. split; [reflexivity|].
          simpl. rewrite <- Heq in Hb0. congruence.
        * rewrite list_lookup_alter_ne by exact Hne'. eauto.
    - intros Hq0 m w0 Hm Hk. destruct (decide (n = m)) as [<-|Hne].
      + rewrite list_lookup_alter_eq, Hn in Hm. injection Hm as <-. simpl in Hk.
        rewrite Hcf', (Hq Hq0) in Hk. discriminate.
      + rewrite list_lookup_alter_ne in Hm by exact Hne.
        apply (W6 Hq0 m w0); assumption. }
  destruct (isQuiting s) eqn:Hquit.
  - apply Hclosing. discriminate.
  - destruct (truthy (keepAlive (options b))) eqn:Hk.
    + destruct (DisplayManager.shouldHideDock _ _ _).
      * apply wf_setDock. apply wf_nativeCall. exact Hwf.
      * apply wf_nativeCall. exact Hwf.
    + apply Hclosing. auto.
Qed.

(** *** Every operation keeps the registry well formed *)

(** [m] keeps the property [P] of the state, whether it returns or
    throws. *)
Definition preserves (P : App -> Prop) {A : Type} (m : M App Fault A) : Prop :=
  forall s : App, P s -> P (snd (m s)).

Lemma preserves_ret (P : App -> Prop) {A : Type} (a : A) : preserves P (ret a).
Proof. intros s H. exact H. Qed.

Lemma preserves_throw (P : App -> Prop) {A : Type} (e : Fault) :
  preserves P (@throw App Fault A e).
Proof. intros s H. exact H. Qed.

Lemma preserves_gets (P : App -> Prop) {A : Type} (f : App -> A) : preserves P (gets f).
Proof. intros s H. exact H. Qed.

Lemma preserves_modify (P : App -> Prop) (f : App -> App) :
  (forall s, P s -> P (f s)) -> preserves P (modify f).
Proof. intros Hf s H. apply Hf, H. Qed.

Lemma preserves_bind (P : App -> Prop) {A B : Type}
  (m : M App Fault A) (k : A -> M App Fault B) :
  preserves P m -> (forall a, preserves P (k a)) -> preserves P (bind m k).
Proof.
  intros Hm Hk s H. unfold bind. specialize (Hm s H).
  destruct (m s) as [[e|a] s']; simpl in *; [exact Hm | apply Hk, Hm].
Qed.

Ltac pres_step :=
  lazymatch goal with
  | |- preserves _ (ret _) => apply preserves_ret
  | |- preserves _ (throw _) => apply preserves_throw
  | |- preserves _ (gets _) => apply preserves_gets
  | |- preserves _ (bind _ _) => apply preserves_bind; [| intros ?]
  | |- preserves _ (match ?x with _ => _ end) => destruct x eqn:?
  end.

Ltac pres := repeat pres_step.

Lemma wf_BrowserManager_retrieveOrInitialize (o : BrowserWindowOpts) :
  appBrowsersAt (identifier o) = Some o ->
  preserves wf (BrowserManager_retrieveOrInitialize o).
Proof.
  intros Hcat s Hwf. destruct (browsers s !! identifier o) as [r|] eqn:Hb.
  - rewrite (BrowserManager_retrieveOrInitialize_existing o s r Hb). exact Hwf.
  - rewrite (BrowserManager_retrieveOrInitialize_fresh o s Hb). simpl.
    apply wf_constructed; assumption.
Qed.

Lemma wf_retrieveByIdentifier (id : string) : preserves wf (retrieveByIdentifier id).
Proof.
  unfold retrieveByIdentifier. pres.
  apply wf_BrowserManager_retrieveOrInitialize.
  eapply appBrowsersAt_Some; eauto.
Qed.

Lemma preserves_forEach (P : App -> Prop) {A : Type}
  (f : A -> M App Fault unit) (l : list A) :
  (forall a, In a l -> preserves P (f a)) -> preserves P (forEach f l).
Proof.
  induction l as [|a l IH]; intros Hf; simpl.
  - apply preserves_ret.
  - apply preserves_bind; [apply Hf; left; reflexivity|].
    intros _. apply IH. intros a' Ha'. apply Hf. right. exact Ha'.
Qed.

Lemma wf_initializeBrowsers : preserves wf initializeBrowsers.
Proof.
  unfold initializeBrowsers. apply preserves_forEach.
  intros [k o] Hin. simpl. destruct (truthy (keepAlive o)); [|apply preserves_ret].
  apply preserves_bind; [|intros; apply preserves_ret].
  apply wf_BrowserManager_retrieveOrInitialize.
  unfold appBrowsers in Hin. simpl in Hin.
  destruct Hin as [[= <- <-]|[[= <- <-]|[[= <- <-]|[]]]]; reflexivity.
Qed.

Lemma wf_browserWindow (r : nat) : preserves wf (browserWindow r).
Proof.
  unfold browserWindow. pres.
  apply preserves_modify. intros s. apply wf_Browser_retrieveOrInitialize.
Qed.

Lemma positionWindowOnDisplay_destroyed (d : Electron.Display) (w : Electron.BrowserWindow) :
  Electron.destroyed (PositionManager.positionWindowOnDisplay d w) = Electron.destroyed w.
Proof.
  unfold PositionManager.positionWindowOnDisplay.
  destruct (PositionManager.centeredPosition d w). reflexivity.
Qed.

Ltac wf_leaf :=
  first
    [ assumption
    | apply wf_Browser_retrieveOrInitialize; assumption
    | apply wf_closeRequest; assumption
    | apply wf_warn; assumption
    | apply wf_nativeCall; assumption
    | apply wf_runDisplay; [apply showWindow_destroyed | assumption]
    | apply wf_runDisplay; [apply hideWindow_destroyed | assumption]
    | apply wf_onNative; [| assumption]; intros ?; repeat split;
      unfold isDestroyed; simpl; apply positionWindowOnDisplay_destroyed
    | apply wf_onNative; [| assumption]; intros ?; repeat split
    | match goal with
      | |- wf (if ?c then _ else _) => destruct c; [apply wf_setDock|]; assumption
      end ].

Ltac pres_leaf :=
  first
    [ apply wf_retrieveByIdentifier
    | apply wf_browserWindow
    | apply preserves_modify; intros ? ?; wf_leaf ].

Lemma wf_determinePosition (n : nat) (parent : option string) :
  preserves wf (determinePosition getDisplayNearestPoint n parent).
Proof.
  unfold determinePosition. destruct parent as [pid|]; [|apply preserves_ret].
  destruct (String.eqb pid ""); [apply preserves_ret|].
  pres; pres_leaf.
Qed.

Lemma wf_displayShowWindow (n : nat) : preserves wf (displayShowWindow platform n).
Proof. unfold displayShowWindow. pres; pres_leaf. Qed.

Lemma wf_Browser_show (r : nat) :
  preserves wf (Browser_show platform getDisplayNearestPoint r).
Proof.
  unfold Browser_show. pres;
    first [apply wf_determinePosition | apply wf_displayShowWindow | pres_leaf].
Qed.

Lemma wf_Browser_hide (r : nat) : preserves wf (Browser_hide platform r).
Proof. unfold Browser_hide. pres; pres_leaf. Qed.

Lemma wf_closeWindow (id : string) : preserves wf (closeWindow platform id).
Proof. unfold closeWindow, Browser_close. pres; pres_leaf. Qed.

Lemma wf_isWindowValid (id : string) : preserves wf (isWindowValid id).
Proof. unfold isWindowValid. pres; pres_leaf. Qed.

Lemma wf_broadcastToWindow (id ch payload : string) :
  preserves wf (broadcastToWindow id ch payload).
Proof. unfold broadcastToWindow, Browser_broadcast. pres; pres_leaf. Qed.

Lemma wf_step (op : Op) (s : App) :
  wf s -> wf (step platform getDisplayNearestPoint op s).
Proof.
  revert s. change (preserves wf (perform platform getDisplayNearestPoint op)).
  destruct op; simpl.
  - pres; pres_leaf.
  - apply wf_initializeBrowsers.
  - pres; first [apply wf_Browser_show | pres_leaf].
  - pres; first [apply wf_Browser_hide | pres_leaf].
  - apply wf_closeWindow.
  - pres_leaf.
  - pres; apply wf_isWindowValid.
  - apply wf_broadcastToWindow.
  - apply preserves_modify. intros s. apply wf_loadSettled.
  - apply preserves_modify. intros s. apply wf_quit.
Qed.

Lemma wf_run (ops : list Op) (s : App) :
  wf s -> wf (run platform getDisplayNearestPoint ops s).
Proof.
  revert s. induction ops as [|op ops IH]; intros s Hwf; simpl; [exact Hwf|].
  apply IH, wf_step, Hwf.
Qed.

Lemma wf_reachable (s : App) :
  reachable platform getDisplayNearestPoint s -> wf s.
Proof. intros [ops ->]. apply wf_run, wf_initialApp. Qed.

(** *** Registry entries are never removed or replaced *)

Definition holds (id : string) (r : nat) (s : App) : Prop := browsers s !! id = Some r.

Lemma browsers_Browser_retrieveOrInitialize (r : nat) (s : App) :
  browsers (Browser_retrieveOrInitialize r s) = browsers s.
Proof.
  unfold Browser_retrieveOrInitialize.
  destruct (heap s !! r); [|reflexivity]. destruct (liveWindowOf _ s); reflexivity.
Qed.

Lemma browsers_runDisplay (n : nat)
  (f : DisplayManager.WindowDisplayManager -> DisplayManager.WindowDisplayManager) (s : App) :
  browsers (runDisplay n f s) = browsers s.
Proof. unfold runDisplay. destruct (natives s !! n); reflexivity. Qed.

Lemma browsers_closeRequest (n : nat) (s : App) :
  browsers (closeRequest platform n s) = browsers s.
Proof.
  unfold closeRequest, closeListenerBody.
  destruct (natives s !! n) as [w|]; [|reflexivity].
  destruct (isDestroyed w); [reflexivity|].
  destruct (closeListener w); [|reflexivity].
  destruct (heap s !! creator w) as [b|]; [|reflexivity].
  destruct (isQuiting s); [reflexivity|].
  destruct (truthy (keepAlive (options b))); [|reflexivity].
  destruct (DisplayManager.shouldHideDock _ _ _); reflexivity.
Qed.

Ltac holds_leaf :=
  first
    [ assumption
    | unfold holds in *;
      first [ rewrite browsers_Browser_retrieveOrInitialize
            | rewrite browsers_runDisplay
            | rewrite browsers_closeRequest
            | idtac ];
      first [ assumption
            | match goal with
              | |- browsers (if ?c then _ else _) !! _ = _ => destruct c; assumption
              end ] ].

Lemma holds_BrowserManager_retrieveOrInitialize (id : string) (r : nat) (o : BrowserWindowOpts) :
  preserves (holds id r) (BrowserManager_retrieveOrInitialize o).
Proof.
  intros s H. destruct (browsers s !! identifier o) as [r'|] eqn:Hb.
  - rewrite (BrowserManager_retrieveOrInitialize_existing o s r' Hb). exact H.
  - rewrite (BrowserManager_retrieveOrInitialize_fresh o s Hb). unfold holds in *. simpl.
    rewrite lookup_insert_ne; [exact H|]. intros Heq. rewrite Heq in Hb. congruence.
Qed.

Lemma holds_retrieveByIdentifier (id : string) (r : nat) (id' : string) :
  preserves (holds id r) (retrieveByIdentifier id').
Proof. unfold retrieveByIdentifier. pres. apply holds_BrowserManager_retrieveOrInitialize. Qed.

Lemma holds_browserWindow (id : string) (r r' : nat) :
  preserves (holds id r) (browserWindow r').
Proof. unfold browserWindow. pres. apply preserves_modify. intros s H. holds_leaf. Qed.

Ltac holds_pres_leaf :=
  first
    [ apply holds_retrieveByIdentifier
    | apply holds_browserWindow
    | apply preserves_modify; intros ? ?; holds_leaf ].

Lemma holds_step (id : string) (r : nat) (op : Op) (s : App) :
  holds id r s -> holds id r (step platform getDisplayNearestPoint op s).
Proof.
  revert s. change (preserves (holds id r) (perform platform getDisplayNearestPoint op)).
  destruct op; simpl.
  - pres; holds_pres_leaf.
  - unfold initializeBrowsers. apply preserves_forEach. intros [k o] _. simpl.
    destruct (truthy (keepAlive o)); pres. apply holds_BrowserManager_retrieveOrInitialize.
  - unfold Browser_show, displayShowWindow, determinePosition. pres; holds_pres_leaf.
  - unfold Browser_hide. pres; holds_pres_leaf.
  - unfold closeWindow, Browser_close. pres; holds_pres_leaf.
  - holds_pres_leaf.
  - unfold isWindowValid. pres; holds_pres_leaf.
  - unfold broadcastToWindow, Browser_broadcast. pres; holds_pres_leaf.
  - holds_pres_leaf.
  - holds_pres_leaf.
Qed.

Lemma holds_run (id : string) (r : nat) (ops : list Op) (s : App) :
  holds id r s -> holds id r (run platform getDisplayNearestPoint ops s).
Proof.
  revert s. induction ops as [|op ops IH]; intros s H; simpl; [exact H|].
  apply IH, holds_step, H.
Qed.

Lemma retrieveByIdentifier_held (id : string) (r : nat) (s : App) :
  browsers s !! id = Some r -> retrieveByIdentifier id s = (inr r, s).
Proof. intros H. unfold retrieveByIdentifier, bind, gets. rewrite H. reflexivity. Qed.

Lemma retrieveByIdentifier_constructs (id : string) (o : BrowserWindowOpts) (s : App) :
  browsers s !! id = None -> appBrowsersAt id = Some o ->
  retrieveByIdentifier id s = (inr (length (heap s)), constructed o s).
Proof.
  intros H Ho. unfold retrieveByIdentifier, bind, gets. rewrite H, Ho.
  apply BrowserManager_retrieveOrInitialize_fresh.
  rewrite (appBrowsersAt_identifier id o Ho). exact H.
Qed.

(** *** One instance per identifier *)

Lemma live_window_unique (s : App) (n1 n2 : nat) (w1 w2 : NativeWindow) :
  wf s ->
  natives s !! n1 = Some w1 -> natives s !! n2 = Some w2 ->
  isDestroyed w1 = false -> isDestroyed w2 = false ->
  identifier (config w1) = identifier (config w2) -> n1 = n2.
Proof.
  intros [W1 W2 W3 W4 W5 W6] H1 H2 Hd1 Hd2 Hid.
  destruct (W5 n1 w1 H1 Hd1) as (b1 & Hb1 & Hbw1).
  destruct (W5 n2 w2 H2 Hd2) as (b2 & Hb2 & Hbw2).
  destruct (W4 _ b1 Hb1) as (m1 & v1 & Hm1 & Hv1 & _ & Hcf1 & _).
  destruct (W4 _ b2 Hb2) as (m2 & v2 & Hm2 & Hv2 & _ & Hcf2 & _).
  assert (m1 = n1) by congruence. assert (m2 = n2) by congruence. subst m1 m2.
  assert (v1 = w1) by congruence. assert (v2 = w2) by congruence. subst v1 v2.
  pose proof (W1 _ b1 Hb1) as Hr1. pose proof (W1 _ b2 Hb2) as Hr2.
  rewrite <- Hcf1, Hid, Hcf2, Hr2 in Hr1.
  assert (Heq : creator w1 = creator w2) by congruence.
  rewrite Heq in Hb1. congruence.
Qed.

Lemma browser_unique (s : App) (r1 r2 : nat) (b1 b2 : Browser) :
  wf s -> heap s !! r1 = Some b1 -> heap s !! r2 = Some b2 ->
  identifier (options b1) = identifier (options b2) -> r1 = r2.
Proof.
  intros [W1 _ _ _ _ _] H1 H2 Hid.
  pose proof (W1 r1 b1 H1) as E1. pose proof (W1 r2 b2 H2) as E2.
  rewrite Hid in E1. congruence.
Qed.

(** C3.  In every state the registry can reach: two native windows
    that are not destroyed and were built for the same identifier are
    the same window, and two Browser objects with the same identifier
    are the same object; a get on an identifier held in the map
    returns the held instance and changes nothing; a get on a catalog
    identifier not yet held builds one instance, whose load sequence is
    then in flight, and every later get of that identifier, whatever
    happened in between, returns that same instance and builds
    nothing. *)
Theorem registry_single_instance (s : App) :
  reachable platform getDisplayNearestPoint s ->
  (forall (n1 n2 : nat) (w1 w2 : NativeWindow),
     natives s !! n1 = Some w1 -> natives s !! n2 = Some w2 ->
     isDestroyed w1 = false -> isDestroyed w2 = false ->
     identifier (config w1) = identifier (config w2) -> n1 = n2) /\
  (forall (r1 r2 : nat) (b1 b2 : Browser),
     heap s !! r1 = Some b1 -> heap s !! r2 = Some b2 ->
     identifier (options b1) = identifier (options b2) -> r1 = r2) /\
  (forall (id : string) (r : nat),
     browsers s !! id = Some r -> retrieveByIdentifier id s = (inr r, s)) /\
  (forall (id : string) (o : BrowserWindowOpts),
     browsers s !! id = None -> appBrowsersAt id = Some o ->
     exists (r : nat) (s' : App) (n : nat) (w : NativeWindow),
       retrieveByIdentifier id s = (inr r, s') /\
       length (heap s') = S (length (heap s)) /\
       length (natives s') = S (length (natives s)) /\
       heap s' !! r = Some (mkBrowser o (Some n) true) /\
       natives s' !! n = Some w /\ inFlight (loadPhase w) = true /\
       retrieveByIdentifier id s' = (inr r, s') /\
       forall ops : list Op,
         retrieveByIdentifier id (run platform getDisplayNearestPoint ops s')
         = (inr r, run platform getDisplayNearestPoint ops s')).
Proof.
  intros Hreach. pose proof (wf_reachable s Hreach) as Hwf.
  split; [| split; [| split]].
  - intros n1 n2 w1 w2. apply live_window_unique, Hwf.
  - intros r1 r2 b1 b2. apply browser_unique, Hwf.
  - intros id r. apply retrieveByIdentifier_held.
  - intros id o Hnone Ho.
    exists (length (heap s)), (constructed o s), (length (natives s)),
           (builtWindow (length (heap s)) o).
    assert (Hheld : holds id (length (heap s)) (constructed o s)).
    { unfold holds, constructed. simpl.
      rewrite (appBrowsersAt_identifier id o Ho). apply lookup_insert_eq. }
    split; [apply retrieveByIdentifier_constructs; assumption|].
    split; [simpl; rewrite length_app; simpl; lia|].
    split; [simpl; rewrite length_app; simpl; lia|].
    split; [apply lookup_snoc_length|].
    split; [apply lookup_snoc_length|].
    split; [reflexivity|].
    split; [apply retrieveByIdentifier_held, Hheld|].
    intros ops. apply retrieveByIdentifier_held. apply holds_run, Hheld.
Qed.

(** *** Closing a keep-alive window *)

Lemma closeRequest_keepAlive (s : App) (n : nat) (w : NativeWindow) :
  wf s -> natives s !! n = Some w -> isDestroyed w = false ->
  truthy (keepAlive (config w)) = true -> isQuiting s = false ->
  fst (closeListenerBody platform (creator w) n s) = true /\
  exists w', natives (closeRequest platform n s) !! n = Some w' /\
             isDestroyed w' = false /\ Electron.visible (state w') = false /\
             inbox w' = inbox w /\ config w' = config w.
Proof.
  intros Hwf Hn Hd Hk Hq. pose proof Hwf as [W1 W2 W3 W4 W5 W6].
  destruct (W5 n w Hn Hd) as (b & Hb & Hbw).
  destruct (W4 _ b Hb) as (n' & w' & Hn' & Hw' & _ & Hcf & Hl).
  assert (n' = n) by congruence. subst n'.
  assert (w' = w) by congruence. subst w'.
  rewrite Hd in Hl. rewrite Hcf in Hk.
  unfold closeRequest, closeListenerBody. rewrite Hn, Hd, Hl, Hb, Hq, Hk.
  split; [reflexivity|].
  exists (setState (Electron.perform Electron.Hide (state w)) w).
  split.
  - destruct (DisplayManager.shouldHideDock _ _ _); simpl;
      rewrite list_lookup_alter_eq, Hn; reflexivity.
  - unfold isDestroyed in *. simpl. repeat split. exact Hd.
Qed.

Lemma closeRequest_destroys (s : App) (n : nat) (w : NativeWindow) :
  wf s -> natives s !! n = Some w -> isDestroyed w = false ->
  isQuiting s = true \/ truthy (keepAlive (config w)) = false ->
  fst (closeListenerBody platform (creator w) n s) = false /\
  exists w', natives (closeRequest platform n s) !! n = Some w' /\ isDestroyed w' = true.
Proof.
  intros Hwf Hn Hd Hcase. pose proof Hwf as [W1 W2 W3 W4 W5 W6].
  destruct (W5 n w Hn Hd) as (b & Hb & Hbw).
  destruct (W4 _ b Hb) as (n' & w' & Hn' & Hw' & _ & Hcf & Hl).
  assert (n' = n) by congruence. subst n'.
  assert (w' = w) by congruence. subst w'.
  rewrite Hd in Hl. rewrite Hcf in Hcase.
  unfold closeRequest, closeListenerBody. rewrite Hn, Hd, Hl, Hb.
  destruct (isQuiting s) eqn:Hq.
  - split; [reflexivity|]. simpl. rewrite list_lookup_alter_eq, Hn. simpl.
    eexists. split; reflexivity.
  - destruct Hcase as [Hcase|Hcase]; [discriminate|]. rewrite Hcase.
    split; [reflexivity|]. simpl. rewrite list_lookup_alter_eq, Hn. simpl.
    eexists. split; reflexivity.
Qed.

(** [closeWindow] on the identifier of a live window is a close
    request on that window. *)
Lemma closeWindow_live (s : App) (n : nat) (w : NativeWindow) :
  wf s -> natives s !! n = Some w -> isDestroyed w = false ->
  closeWindow platform (identifier (config w)) s = (inr tt, closeRequest platform n s).
Proof.
  intros [W1 W2 W3 W4 W5 W6] Hn Hd.
  destruct (W5 n w Hn Hd) as (b & Hb & Hbw).
  destruct (W4 _ b Hb) as (n' & w' & Hn' & Hw' & _ & Hcf & _).
  assert (n' = n) by congruence. subst n'.
  assert (w' = w) by congruence. subst w'.
  pose proof (W1 _ b Hb) as Hreg. rewrite <- Hcf in Hreg.
  unfold closeWindow, Browser_close, browserWindow, bind, gets, modify.
  rewrite Hreg. cbn [fst snd].
  unfold Browser_retrieveOrInitialize, liveWindowOf. rewrite Hb, Hbw, Hn, Hd.
  rewrite Hb. simpl. rewrite Hbw. reflexivity.
Qed.

(** C2.  In every reachable state, take a native window that is not
    destroyed and was built from options with [keepAlive] true.  A
    close request reaches it from the user or from [closeWindow].
    While [isQuiting] is false the request runs the listener, which
    prevents the default, and leaves the window not destroyed and
    hidden.  While [isQuiting] is true the same request destroys it.
    And in no reachable state is a keep-alive window destroyed unless
    [isQuiting] is true. *)
Theorem keepAlive_close_hides (s : App) (n : nat) (w : NativeWindow) :
  reachable platform getDisplayNearestPoint s ->
  natives s !! n = Some w -> isDestroyed w = false ->
  truthy (keepAlive (config w)) = true ->
  step platform getDisplayNearestPoint (OpCloseWindow (identifier (config w))) s
    = step platform getDisplayNearestPoint (OpUserClose n) s /\
  step platform getDisplayNearestPoint (OpUserClose n) s = closeRequest platform n s /\
  (isQuiting s = false ->
     fst (closeListenerBody platform (creator w) n s) = true /\
     exists w', natives (closeRequest platform n s) !! n = Some w' /\
                isDestroyed w' = false /\ Electron.visible (state w') = false) /\
  (isQuiting s = true ->
     exists w', natives (closeRequest platform n s) !! n = Some w' /\
                isDestroyed w' = true) /\
  (forall (s' : App) (m : nat) (w' : NativeWindow),
     reachable platform getDisplayNearestPoint s' ->
     natives s' !! m = Some w' -> truthy (keepAlive (config w')) = true ->
     isDestroyed w' = true -> isQuiting s' = true).
Proof.
  intros Hreach Hn Hd Hk. pose proof (wf_reachable s Hreach) as Hwf.
  split; [| split; [| split; [| split]]].
  - unfold step. simpl. rewrite (closeWindow_live s n w Hwf Hn Hd). reflexivity.
  - reflexivity.
  - intros Hq. destruct (closeRequest_keepAlive s n w Hwf Hn Hd Hk Hq)
      as (Hp & w' & Hw' & Hd' & Hv' & _).
    split; [exact Hp|]. exists w'. auto.
  - intros Hq. apply (closeRequest_destroys s n w Hwf Hn Hd). left. exact Hq.
  - intros s' m w' Hreach' Hm Hk' Hd'.
    destruct (isQuiting s') eqn:Hq; [reflexivity|].
    pose proof (wf_keepAlive s' (wf_reachable s' Hreach') Hq m w' Hm Hk') as Hlive.
    congruence.
Qed.

(** *** Broadcast to one window *)



(** *** Start-up *)

Lemma catalog_options (s : App) (n : nat) (w : NativeWindow) :
  wf s -> natives s !! n = Some w -> isDestroyed w = false ->
  appBrowsersAt (identifier (config w)) = Some (config w).
Proof.
  intros [W1 W2 W3 W4 W5 W6] Hn Hd.
  destruct (W5 n w Hn Hd) as (b & Hb & Hbw).
  destruct (W4 _ b Hb) as (n' & w' & Hn' & Hw' & _ & Hcf & _).
  assert (n' = n) by congruence. subst n'.
  assert (w' = w) by congruence. subst w'.
  rewrite Hcf. apply (W3 _ b Hb).
Qed.

(** C10.  [initializeBrowsers] on the empty registry builds the chat
    Browser and its window and nothing else: chat is the only catalog
    entry whose [keepAlive] is true.  The settings and devtools entries
    leave [keepAlive] unset; neither is in the map after start-up, and
    the first [retrieveByIdentifier] of either builds it.  In every
    reachable state before shutdown, a close request on a live settings
    or devtools window does not prevent the default and the window is
    destroyed. *)
Theorem initializeBrowsers_prebuilds_chat_only :
  List.filter (fun e => truthy (keepAlive (snd e))) appBrowsers
    = [("chat"%string, chatOpts)] /\
  initializeBrowsers initialApp = (inr tt, constructed chatOpts initialApp) /\
  browsers (constructed chatOpts initialApp) = {[ "chat"%string := 0%nat ]} /\
  heap (constructed chatOpts initialApp) = [mkBrowser chatOpts (Some 0%nat) true] /\
  natives (constructed chatOpts initialApp) = [builtWindow 0 chatOpts] /\
  (forall id : string, id = "settings"%string \/ id = "devtools"%string ->
     exists o : BrowserWindowOpts,
       appBrowsersAt id = Some o /\ keepAlive o = None /\
       browsers (constructed chatOpts initialApp) !! id = None /\
       retrieveByIdentifier id (constructed chatOpts initialApp)
       = (inr 1%nat, constructed o (constructed chatOpts initialApp))) /\
  (forall (s : App) (n : nat) (w : NativeWindow),
     reachable platform getDisplayNearestPoint s -> isQuiting s = false ->
     natives s !! n = Some w -> isDestroyed w = false ->
     identifier (config w) = "settings"%string \/ identifier (config w) = "devtools"%string ->
     fst (closeListenerBody platform (creator w) n s) = false /\
     exists w', natives (closeRequest platform n s) !! n = Some w' /\
                isDestroyed w' = true).
Proof.
  split; [reflexivity|].
  split; [vm_compute; reflexivity|].
  split; [vm_compute; reflexivity|].
  split; [reflexivity|].
  split; [reflexivity|].
  split.
  - intros id [-> | ->].
    + exists settingsOpts. repeat split.
    + exists devtoolsOpts. repeat split.
  - intros s n w Hreach Hq Hn Hd Hid.
    pose proof (wf_reachable s Hreach) as Hwf.
    pose proof (catalog_options s n w Hwf Hn Hd) as Hcat.
    apply (closeRequest_destroys s n w Hwf Hn Hd). right.
    destruct Hid as [Hid|Hid]; rewrite Hid in Hcat.
    + change (Some settingsOpts = Some (config w)) in Hcat.
      injection Hcat as <-. reflexivity.
    + change (Some devtoolsOpts = Some (config w)) in Hcat.
      injection Hcat as <-. reflexivity.
Qed.

End HostFacts.

(** *** Concrete registries *)

Definition oneScreen : Z -> Z -> Electron.Display :=
  fun _ _ => Electron.mkDisplay (Electron.mkRect 0 0 1440 900).

(** After start-up. *)
Definition started : App := run Electron.darwin oneScreen [OpInitialize] initialApp.

(** After start-up, with the chat window shown. *)
Definition chatShown : App :=
  run Electron.darwin oneScreen [OpInitialize; OpShow "chat"] initialApp.


Lemma registry_single_instance_witness :
  retrieveByIdentifier "chat" started = (inr 0%nat, started) /\
  exists (r : nat) (s' : App),
    retrieveByIdentifier "settings" started = (inr r, s') /\
    retrieveByIdentifier "settings" s' = (inr r, s') /\
    retrieveByIdentifier "settings"
      (run Electron.darwin oneScreen [OpLoadSettled 1 true; OpShow "settings"] s')
    = (inr r, run Electron.darwin oneScreen [OpLoadSettled 1 true; OpShow "settings"] s').
Proof.
  pose proof (registry_single_instance Electron.darwin oneScreen started
                (ex_intro _ [OpInitialize] eq_refl)) as (_ & _ & Hheld & Hnew).
  split.
  - apply Hheld. vm_compute. reflexivity.
  - destruct (Hnew "settings"%string settingsOpts) as (r & s' & n & w & H1 & _ & _ & _ & _ & _ & H2 & H3).
    + vm_compute. reflexivity.
    + reflexivity.
    + exists r, s'. split; [exact H1 | split; [exact H2 | apply H3]].
Defined.

Lemma keepAlive_close_hides_witness :
  exists w' : NativeWindow,
    natives (closeRequest Electron.darwin 0 chatShown) !! 0%nat = Some w' /\
    isDestroyed w' = false /\ Electron.visible (state w') = false.
Proof.
  destruct (natives chatShown !! 0%nat) as [w|] eqn:Hn;
    [| vm_compute in Hn; discriminate Hn].
  assert (Hw : isDestroyed w = false /\ truthy (keepAlive (config w)) = true).
  { vm_compute in Hn. injection Hn as <-. split; reflexivity. }
  destruct Hw as [Hd Hk].
  pose proof (keepAlive_close_hides Electron.darwin oneScreen chatShown 0 w
                (ex_intro _ [OpInitialize; OpShow "chat"] eq_refl) Hn Hd Hk)
    as (_ & _ & Hhide & _ & _).
  destruct (Hhide eq_refl) as (_ & w' & H1 & H2 & H3).
  exists w'. auto.
Defined.




End RegistryFacts.

Module SpellCheckFacts.
Import StateExn SpellCheck.

Lemma supported_fixed (l : string) :
  In l SUPPORTED_SPELL_CHECK_LANGUAGES -> mapLocaleToSpellCheckLanguages l = [l].
Proof.
  unfold SUPPORTED_SPELL_CHECK_LANGUAGES. intros H. simpl in H.
  repeat (destruct H as [<-|H]; [vm_compute; reflexivity|]).
  destruct H.
Qed.

Lemma find_eqb_In (locale l : string) (ls : list string) :
  List.find (fun lang => String.eqb lang locale) ls = Some l -> l = locale /\ In locale ls.
Proof.
  intros H. apply find_some in H. destruct H as [Hin Heq].
  apply String.eqb_eq in Heq. subst l. split; [reflexivity | exact Hin].
Qed.

Lemma mapLocale_single (locale : string) :
  exists l : string,
    mapLocaleToSpellCheckLanguages locale = [l] /\
    In l SUPPORTED_SPELL_CHECK_LANGUAGES.
Proof.
  unfold mapLocaleToSpellCheckLanguages.
  destruct (String.eqb locale "");
    [exists "en-US"%string; split; [reflexivity | vm_compute; tauto]|].
  destruct (startsWith locale "ar");
    [exists "ar"%string; split; [reflexivity | vm_compute; tauto]|].
  destruct (startsWith locale "fa");
    [exists "fa"%string; split; [reflexivity | vm_compute; tauto]|].
  destruct (startsWith locale "cn" || String.eqb locale "zh-CN");
    [exists "zh-CN"%string; split; [reflexivity | vm_compute; tauto]|].
  destruct (List.find _ SUPPORTED_SPELL_CHECK_LANGUAGES) as [exact|] eqn:Hfind.
  - exists exact. split; [reflexivity|].
    apply find_eqb_In in Hfind. destruct Hfind as [-> H]. exact H.
  - destruct (List.filter _ SUPPORTED_SPELL_CHECK_LANGUAGES) as [|first rest] eqn:Hf;
      [exists "en-US"%string; split; [reflexivity | vm_compute; tauto]|].
    assert (Hfirst : In first SUPPORTED_SPELL_CHECK_LANGUAGES).
    { assert (Hin : In first (first :: rest)) by (left; reflexivity).
      rewrite <- Hf in Hin. apply filter_In in Hin. tauto. }
    destruct (preferredVariants (beforeDash locale)) as [preferred|];
      [|exists first; split; [reflexivity | exact Hfirst]].
    destruct (existsb (String.eqb preferred) (first :: rest)) eqn:Hex;
      [|exists first; split; [reflexivity | exact Hfirst]].
    exists preferred. split; [reflexivity|].
    apply existsb_exists in Hex. destruct Hex as (x & Hx & Heq).
    apply String.eqb_eq in Heq. subst x.
    rewrite <- Hf in Hx. apply filter_In in Hx. tauto.
Qed.

(** X5.  Whatever the locale, [mapLocaleToSpellCheckLanguages] returns
    exactly one language code, and that code is one of
    [SUPPORTED_SPELL_CHECK_LANGUAGES]. *)
Theorem mapLocale_one_supported (locale : string) :
  exists l : string,
    mapLocaleToSpellCheckLanguages locale = [l] /\
    In l SUPPORTED_SPELL_CHECK_LANGUAGES.
Proof. exact (mapLocale_single locale). Qed.

(** X6.  Mapping is idempotent: the language that a locale is mapped
    to is mapped to itself. *)
Theorem mapLocale_idempotent (locale : string) :
  flat_map mapLocaleToSpellCheckLanguages (mapLocaleToSpellCheckLanguages locale)
  = mapLocaleToSpellCheckLanguages locale.
Proof.
  destruct (mapLocale_single locale) as (l & -> & Hin).
  simpl. rewrite (supported_fixed l Hin). reflexivity.
Qed.

Lemma beforeDash_head (locale : string) (c : Ascii.ascii) (rest : string) :
  beforeDash locale = String c rest -> exists tail, locale = String c tail.
Proof.
  destruct locale as [|c' tail]; simpl; [discriminate|].
  destruct (Ascii.eqb c' (Ascii.ascii_of_nat 45)); [discriminate|].
  intros [= -> _]. exists tail. reflexivity.
Qed.

(** X7.  A locale that is not itself a supported language and whose
    part before the first dash is en, es, pt or zh is mapped to the
    preferred variant of that base: en-US, es-ES, pt-BR or zh-CN. *)
Theorem mapLocale_preferred_variant (locale preferred : string) :
  preferredVariants (beforeDash locale) = Some preferred ->
  ~ In locale SUPPORTED_SPELL_CHECK_LANGUAGES ->
  mapLocaleToSpellCheckLanguages locale = [preferred].
Proof.
  intros Hpref Hnot.
  assert (Hfind : List.find (fun lang => String.eqb lang locale)
                            SUPPORTED_SPELL_CHECK_LANGUAGES = None).
  { destruct (List.find _ _) as [l|] eqn:Hf; [|reflexivity].
    apply find_eqb_In in Hf. tauto. }
  assert (Hzh : String.eqb locale "zh-CN" = false).
  { apply String.eqb_neq. intros ->. apply Hnot. vm_compute. tauto. }
  unfold mapLocaleToSpellCheckLanguages. rewrite Hfind, Hzh.
  unfold preferredVariants in Hpref.
  destruct (String.eqb_spec (beforeDash locale) "en") as [Hb|_];
    [| destruct (String.eqb_spec (beforeDash locale) "es") as [Hb|_];
       [| destruct (String.eqb_spec (beforeDash locale) "pt") as [Hb|_];
          [| destruct (String.eqb_spec (beforeDash locale) "zh") as [Hb|_];
             [| discriminate]]]];
    injection Hpref as <-;
    destruct (beforeDash_head locale _ _ Hb) as [tail ->];
    rewrite Hb; reflexivity.
Qed.

Lemma mapLocale_preferred_variant_witness :
  mapLocaleToSpellCheckLanguages "en-IN" = ["en-US"%string] /\
  mapLocaleToSpellCheckLanguages "zh-HK" = ["zh-CN"%string].
Proof.
  split.
  - apply mapLocale_preferred_variant; [reflexivity|]. vm_compute. intuition discriminate.
  - apply mapLocale_preferred_variant; [reflexivity|]. vm_compute. intuition discriminate.
Defined.

Section PlatformFacts.

Variable valid : string -> bool.

Ltac run_spell :=
  unfold languageChangeListener, setAutoSyncSpellCheckLanguage, setupSpellCheck,
    updateSpellCheck, setSpellCheckerLanguages, getSpellCheckConfig, setStore, logger,
    tryCatch, bind, ret, throw, gets, modify; simpl.

Lemma find_invalid (l : list string) :
  List.find (fun code => negb (valid code)) l = None <-> forallb valid l = true.
Proof.
  induction l as [|a l IH]; simpl; [tauto|].
  destruct (valid a); simpl; [exact IH|]. split; discriminate.
Qed.

(** The languages the session ends with when asked for [l]. *)
Definition applied (l : list string) (before : list string) : list string :=
  if forallb valid l then l else before.

Lemma updateSpellCheck_runs (w : World) (en : bool) (langs : option (list string))
  (updateAutoSync : bool) :
  exists w' : World,
    updateSpellCheck valid en langs updateAutoSync w = (inr tt, w') /\
    enabled (getConfig w') = en /\
    languages (getConfig w') = default (languages (getConfig w)) langs /\
    autoSync (getConfig w')
      = (if updateAutoSync && negb en then false else autoSync (getConfig w)) /\
    sessionLanguages w'
      = (if en && nonEmpty (default [] langs)
         then applied (default [] langs) (sessionLanguages w)
         else []) /\
    i18n w' = i18n w.
Proof.
  unfold applied.
  destruct langs as [l|]; simpl.
  - destruct (en && nonEmpty l) eqn:Hen.
    + run_spell. rewrite Hen.
      destruct (updateAutoSync && negb en) eqn:Hu; simpl;
        destruct (List.find _ l) as [code|] eqn:Hf; simpl;
        (eexists; split; [reflexivity|]); simpl;
        (destruct (forallb valid l) eqn:Hv;
          [ try (apply find_invalid in Hv; congruence)
          | try (apply find_invalid in Hf; congruence) ]);
        repeat split.
    + run_spell. rewrite Hen.
      destruct (updateAutoSync && negb en) eqn:Hu; simpl;
        (eexists; split; [reflexivity|]); simpl; repeat split.
  - rewrite andb_false_r. run_spell.
    destruct (updateAutoSync && negb en) eqn:Hu; simpl;
      (eexists; split; [reflexivity|]); simpl; repeat split.
Qed.

(** X8.  [updateSpellCheck] never throws.  Afterwards the reported
    configuration has [enabled] as requested and the requested
    languages (the earlier ones when none were given); auto-sync is
    switched off exactly when spell check is being disabled with
    [updateAutoSync] set.  The session gets the requested languages
    when spell check is enabled, the list is not empty and the platform
    accepts every code; it keeps its languages when the platform
    rejects one; in every other case its languages are cleared. *)
Theorem updateSpellCheck_effect (w : World) (en : bool) (langs : option (list string))
  (updateAutoSync : bool) :
  exists w' : World,
    updateSpellCheck valid en langs updateAutoSync w = (inr tt, w') /\
    enabled (getConfig w') = en /\
    languages (getConfig w') = default (languages (getConfig w)) langs /\
    autoSync (getConfig w')
      = (if updateAutoSync && negb en then false else autoSync (getConfig w)) /\
    sessionLanguages w'
      = (if en && nonEmpty (default [] langs)
         then applied (default [] langs) (sessionLanguages w)
         else []) /\
    i18n w' = i18n w.
Proof. exact (updateSpellCheck_runs w en langs updateAutoSync). Qed.

(** X9.  The listener for a change of the interface language changes
    nothing unless spell check is enabled and auto-sync is on.  When
    both hold it stores the one supported language the new locale maps
    to, leaves [enabled] and auto-sync as they are, and gives that
    language to the session if the platform accepts it. *)
Theorem languageChangeListener_effect (w : World) (language : string) :
  exists w' : World,
    languageChangeListener valid language w = (inr tt, w') /\
    if enabled (getConfig w) && autoSync (getConfig w)
    then exists l : string,
           mapLocaleToSpellCheckLanguages language = [l] /\
           In l SUPPORTED_SPELL_CHECK_LANGUAGES /\
           languages (getConfig w') = [l] /\
           enabled (getConfig w') = true /\
           autoSync (getConfig w') = true /\
           sessionLanguages w' = (if valid l then [l] else sessionLanguages w)
    else w' = w.
Proof.
  unfold languageChangeListener, getSpellCheckConfig, bind at 1, gets. cbn [fst snd].
  destruct (enabled (getConfig w) && autoSync (getConfig w)) eqn:Hc.
  - destruct (mapLocale_single language) as (l & Hl & Hin).
    rewrite Hl. cbn [nonEmpty].
    apply andb_true_iff in Hc. destruct Hc as [He Ha].
    unfold bind at 1, logger, modify. cbn [fst snd].
    set (w1 := mkWorld (store w) (sessionLanguages w) (i18n w) _).
    destruct (updateSpellCheck_runs w1 true (Some [l]) false)
      as (w' & Hrun & Hen & Hlang & Hauto & Hsess & _).
    exists w'. split; [exact Hrun|]. exists l.
    split; [reflexivity|]. split; [exact Hin|].
    split; [exact Hlang|]. split; [exact Hen|].
    split; [rewrite Hauto; exact Ha|].
    rewrite Hsess. simpl. unfold applied. simpl. rewrite andb_true_r. reflexivity.
  - exists w. split; reflexivity.
Qed.

(** X10.  [setupSpellCheck], run when a window is built, never throws.
    With spell check disabled it touches neither the store nor the
    session.  With spell check enabled, auto-sync on and an interface
    language known, it stores the one supported language that the
    interface language maps to and gives it to the session if the
    platform accepts it. *)
Theorem setupSpellCheck_effect (w : World) :
  exists w' : World,
    setupSpellCheck valid w = (inr tt, w') /\
    (enabled (getConfig w) = false ->
       store w' = store w /\ sessionLanguages w' = sessionLanguages w) /\
    (forall currentLanguage : string,
       enabled (getConfig w) = true -> autoSync (getConfig w) = true ->
       i18n w = Some currentLanguage ->
       exists l : string,
         mapLocaleToSpellCheckLanguages currentLanguage = [l] /\
         In l SUPPORTED_SPELL_CHECK_LANGUAGES /\
         languages (getConfig w') = [l] /\
         sessionLanguages w' = (if valid l then [l] else sessionLanguages w)).
Proof.
  unfold setupSpellCheck, tryCatch, bind, getSpellCheckConfig, gets. cbv beta iota.
  destruct (enabled (getConfig w)) eqn:He; cbv beta iota; cbn [negb].
  2: { unfold logger, modify. eexists. split; [reflexivity|].
       split; [split; reflexivity|]. intros cur H. discriminate H. }
  destruct (i18n w) as [lang|] eqn:Hi; cbv beta iota.
  - destruct (autoSync (getConfig w)) eqn:Ha; cbv beta iota.
    + destruct (mapLocale_single lang) as (l & Hl & Hin).
      rewrite Hl. cbn [nonEmpty]. unfold setStore, modify, ret, logger. cbv beta iota.
      unfold setSpellCheckerLanguages, throw, modify. cbn [List.find].
      destruct (valid l) eqn:Hv; cbn [negb]; cbv beta iota;
        (eexists; split; [reflexivity|]); (split; [discriminate|]);
        intros cur _ _ [= <-]; exists l; rewrite Hl; simpl;
        rewrite ?Hv; repeat split; try assumption.
    + unfold ret. cbv beta iota.
      destruct (nonEmpty (languages (getConfig w))); cbv beta iota;
        unfold logger, modify, setSpellCheckerLanguages, throw; cbv beta iota;
        [destruct (List.find _ _); cbv beta iota|];
        (eexists; split; [reflexivity|]); (split; discriminate).
  - unfold ret. cbv beta iota.
    destruct (nonEmpty (languages (getConfig w))); cbv beta iota;
      unfold logger, modify, setSpellCheckerLanguages, throw; cbv beta iota;
      [destruct (List.find _ _); cbv beta iota|];
      (eexists; split; [reflexivity|]); (split; [discriminate|]);
      intros cur _ _ H; discriminate H.
Qed.

End PlatformFacts.

End SpellCheckFacts.

Module ConfigBuilderFacts.
Import ConfigBuilder.

Lemma assign_lookup_other (target : gmap string JsValue)
  (source : list (string * JsValue)) (key : string) :
  ~ In key (map fst source) -> assign target source !! key = target !! key.
Proof.
  revert target. induction source as [|[k v] source IH]; intros target Hnot; simpl.
  - reflexivity.
  - unfold assign in *. simpl. rewrite IH.
    + apply lookup_insert_ne. intros ->. apply Hnot. left. reflexivity.
    + intros Hin. apply Hnot. right. exact Hin.
Qed.

Lemma assign_lookup_last (target : gmap string JsValue)
  (source : list (string * JsValue)) (key : string) (v : JsValue) :
  ~ In key (map fst source) ->
  assign (<[key := v]> target) source !! key = Some v.
Proof. intros H. rewrite assign_lookup_other by exact H. apply lookup_insert_eq. Qed.

Section OutsideFacts.

Variable keeper : KeeperOptions -> State.
Variable preload : string.

(** The names [build] decides itself. *)
Definition ownNames (isWindows : bool) : list string :=
  ["autoHideMenuBar"; "darkTheme"; "frame"; "height"; "minHeight"; "minWidth";
   "show"; "title"; "transparent"; "vibrancy"; "visualEffectState";
   "webPreferences"; "width"; "x"; "y"]%string
  ++ (if isWindows then ["backgroundColor"; "titleBarOverlay"; "titleBarStyle"]%string
      else []).

(** X11.  Whatever the options ask for, the built configuration has
    [show], [frame] and [transparent] false, [autoHideMenuBar] true,
    the minimum size 480 x 600, the vibrancy [sidebar], and the size
    and position of the restored window state; on Windows the title
    bar style is [hidden] as well. *)
Theorem build_fixed (isWindows isDarkMode : bool) (options : gmap string JsValue) :
  let c := config (build keeper preload isWindows isDarkMode options) in
  let st := keeper (initializeWindowStateKeeper options) in
  c !! "show"%string = Some (JBool false) /\
  c !! "frame"%string = Some (JBool false) /\
  c !! "transparent"%string = Some (JBool false) /\
  c !! "autoHideMenuBar"%string = Some (JBool true) /\
  c !! "minWidth"%string = Some (JNum 480) /\
  c !! "minHeight"%string = Some (JNum 600) /\
  c !! "vibrancy"%string = Some (JStr "sidebar") /\
  c !! "width"%string = Some (JNum (width st)) /\
  c !! "height"%string = Some (JNum (height st)) /\
  c !! "x"%string = Some (optNum (x st)) /\
  c !! "y"%string = Some (optNum (y st)) /\
  (isWindows = true -> c !! "titleBarStyle"%string = Some (JStr "hidden")) /\
  windowStateKeeper (build keeper preload isWindows isDarkMode options) = st.
Proof.
  intros c st. subst c. unfold build. fold st.
  destruct isWindows; cbn [config windowStateKeeper];
    unfold assign, baseProperties, getWindowsSpecificConfig; cbn [fold_left fst snd];
    repeat split; try discriminate; try intros _;
    try rewrite lookup_delete_ne by discriminate;
    repeat first [ apply lookup_insert_eq
                 | rewrite lookup_insert_ne by discriminate ].
Qed.

(** X12.  The options [devTools] and [showOnInit] never reach the
    built configuration, [title] is copied, and every option whose name
    [build] does not decide itself is passed through unchanged. *)
Theorem build_passes_other_options (isWindows isDarkMode : bool)
  (options : gmap string JsValue) :
  let c := config (build keeper preload isWindows isDarkMode options) in
  c !! "devTools"%string = None /\
  c !! "showOnInit"%string = None /\
  c !! "title"%string = Some (default JUndefined (options !! "title"%string)) /\
  (forall key : string,
     ~ In key (ownNames isWindows) ->
     key <> "devTools"%string -> key <> "showOnInit"%string ->
     key <> "windowStateKeeper"%string ->
     c !! key = options !! key).
Proof.
  intros c. subst c. unfold build.
  set (st := keeper (initializeWindowStateKeeper options)).
  set (rest := delete "showOnInit"%string _).
  cbn [config].
  assert (Hother : forall key : string,
            ~ In key (ownNames isWindows) ->
            (if isWindows
             then assign (assign rest (baseProperties options st isDarkMode preload))
                         (getWindowsSpecificConfig isDarkMode)
             else assign rest (baseProperties options st isDarkMode preload)) !! key
            = rest !! key).
  { intros key Hnot. unfold ownNames in Hnot.
    destruct isWindows.
    - rewrite !assign_lookup_other; [reflexivity | |];
        intros Hin; apply Hnot; apply in_or_app; [left | right]; exact Hin.
    - rewrite assign_lookup_other; [reflexivity|].
      intros Hin. apply Hnot. apply in_or_app. left. exact Hin. }
  split; [| split; [| split]].
  - rewrite lookup_delete_ne by discriminate. rewrite Hother.
    + subst rest. rewrite lookup_delete_ne by discriminate. apply lookup_delete_eq.
    + unfold ownNames. destruct isWindows; simpl; intuition discriminate.
  - rewrite lookup_delete_ne by discriminate. rewrite Hother.
    + subst rest. apply lookup_delete_eq.
    + unfold ownNames. destruct isWindows; simpl; intuition discriminate.
  - rewrite lookup_delete_ne by discriminate. destruct isWindows;
      unfold assign, baseProperties, getWindowsSpecificConfig; cbn [fold_left fst snd];
      repeat first [ apply lookup_insert_eq
                   | rewrite lookup_insert_ne by discriminate ].
  - intros key Hnot Hd Hs Hk. rewrite lookup_delete_ne by congruence.
    rewrite (Hother key Hnot). subst rest.
    rewrite !lookup_delete_ne; [reflexivity | | |]; try congruence.
    intros <-. apply Hnot. unfold ownNames. apply in_or_app. left. simpl. tauto.
Qed.

End OutsideFacts.

Lemma append_cons (c : Ascii.ascii) (a b : string) :
  String c a +:+ b = String c (a +:+ b).
Proof. reflexivity. Qed.

Lemma length_append (a b : string) :
  String.length (a +:+ b) = (String.length a + String.length b)%nat.
Proof.
  induction a as [|c a IH]; [reflexivity|].
  rewrite append_cons. simpl. rewrite IH. reflexivity.
Qed.

Lemma append_inj_r (a b c : string) : a +:+ c = b +:+ c -> a = b.
Proof.
  revert b. induction a as [|x a IH]; intros b H.
  - destruct b as [|y b]; [reflexivity|]. exfalso.
    apply (f_equal String.length) in H. rewrite append_cons in H.
    change (String.length ("" +:+ c)) with (String.length c) in H.
    simpl in H. rewrite length_append in H. lia.
  - destruct b as [|y b].
    + exfalso. apply (f_equal String.length) in H. rewrite append_cons in H.
      change (String.length ("" +:+ c)) with (String.length c) in H.
      simpl in H. rewrite length_append in H. lia.
    + rewrite !append_cons in H. injection H as -> H. f_equal. apply IH, H.
Qed.

(** X13.  Two identifiers never share a window-state file: the file
    name determines the identifier. *)
Theorem stateFile_injective (id1 id2 : string) :
  stateFile id1 = stateFile id2 -> id1 = id2.
Proof.
  unfold stateFile. intros H.
  apply (append_inj_r _ _ ".json").
  repeat (rewrite !append_cons in H; injection H as H).
  exact H.
Qed.

Lemma stateFile_injective_witness :
  stringOf (Some (JStr "chat")) = "chat"%string.
Proof.
  apply stateFile_injective.
  change (file (initializeWindowStateKeeper {[ "identifier"%string := JStr "chat" ]})
          = "window-state-chat.json"%string).
  vm_compute. reflexivity.
Defined.

End ConfigBuilderFacts.

Module BrowserLoadFacts.
Import StateExn ErrorHandler BrowserLoad.

Ltac run_load :=
  unfold initialLoad, loadPlaceholder, loadUrl, handleLoadError, retryHandler,
    setupRetryHandler, reloadErrorPage, loadFallbackErrorPage, cleanupRetryHandler,
    loadFile, loadURL, navigate, handle, removeHandler, listenerCount, logger,
    tryCatch, bind, ret, throw; simpl.

Definition shows (w : World) (eh : WindowErrorHandler) : option Page :=
  pages w !! identifier eh.

(** X14.  [loadUrl] never throws, whatever the navigations do.  When
    the content loads, the window shows it and [ipcMain] is untouched.
    When the content fails and the error page and the fall-back page
    both fail too, the window shows what it showed before.  In every
    case the window ends on the content, the error page, the fall-back
    page or what it showed before. *)
Theorem loadUrl_contained (eh : WindowErrorHandler) (nextServerUrl path : string)
  (w : World) :
  exists w' : World,
    loadUrl eh nextServerUrl path w = (inr tt, w') /\
    (match script w with
     | [] | Loaded :: _ =>
       shows w' eh = Some (UrlPage (nextServerUrl +:+ path)) /\ ipcMain w' = ipcMain w
     | Failed _ :: Failed _ :: Failed _ :: _ =>
       shows w' eh = shows w eh /\ ipcMain w' = ipcMain w
     | _ => True
     end) /\
    (shows w' eh = Some (UrlPage (nextServerUrl +:+ path)) \/
     shows w' eh = Some (FilePage errorHtml) \/
     shows w' eh = Some (UrlPage fallbackHtml) \/
     shows w' eh = shows w eh).
Proof.
  unfold shows. run_load.
  destruct (script w) as [|[|m1] rest1]; simpl.
  - eexists. split; [reflexivity|]. simpl. rewrite lookup_insert_eq. auto.
  - eexists. split; [reflexivity|]. simpl. rewrite lookup_insert_eq. auto.
  - destruct rest1 as [|[|m2] rest2]; simpl.
    + destruct (0 <? default 0 (listeners (ipcMain w) !! retryHandlerKey eh))%nat; simpl.
      * rewrite lookup_delete_eq. simpl.
        eexists. split; [reflexivity|]. simpl. rewrite lookup_insert_eq. auto.
      * destruct (invokeHandlers (ipcMain w) !! retryHandlerKey eh); simpl;
          (eexists; split; [reflexivity|]); simpl; rewrite ?lookup_insert_eq; auto.
    + destruct (0 <? default 0 (listeners (ipcMain w) !! retryHandlerKey eh))%nat; simpl.
      * rewrite lookup_delete_eq. simpl.
        eexists. split; [reflexivity|]. simpl. rewrite lookup_insert_eq. auto.
      * destruct (invokeHandlers (ipcMain w) !! retryHandlerKey eh); simpl.
        -- destruct rest2 as [|[|m3] rest3]; simpl;
             (eexists; split; [reflexivity|]); simpl;
             rewrite ?lookup_insert_eq, ?lookup_insert_ne by (intros E; discriminate E);
             auto.
        -- eexists. split; [reflexivity|]. simpl. rewrite lookup_insert_eq. auto.
    + destruct rest2 as [|[|m3] rest3]; simpl;
        (eexists; split; [reflexivity|]); simpl; rewrite ?lookup_insert_eq; auto.
Qed.

(** X15.  When the content fails to load, the error page loads and
    the window's retry channel has no handler yet, [loadUrl] leaves the
    window on the error page with the retry handler registered for
    exactly the URL that failed; the handlers of other channels are
    untouched. *)
Theorem loadUrl_arms_retry (eh : WindowErrorHandler) (nextServerUrl path : string)
  (w : World) (msg : string) (rest : list LoadResult) :
  script w = Failed msg :: Loaded :: rest ->
  invokeHandlers (ipcMain w) !! retryHandlerKey eh = None ->
  exists w' : World,
    loadUrl eh nextServerUrl path w = (inr tt, w') /\
    shows w' eh = Some (FilePage errorHtml) /\
    invokeHandlers (ipcMain w') !! retryHandlerKey eh
      = Some (mkRetryHandler eh (nextServerUrl +:+ path)) /\
    (forall channel : string, channel <> retryHandlerKey eh ->
       invokeHandlers (ipcMain w') !! channel = invokeHandlers (ipcMain w) !! channel) /\
    script w' = rest.
Proof.
  intros Hs Hfree. unfold shows. run_load. rewrite Hs. simpl.
  destruct (0 <? default 0 (listeners (ipcMain w) !! retryHandlerKey eh))%nat; simpl.
  - rewrite lookup_delete_eq. simpl.
    eexists. split; [reflexivity|]. simpl.
    rewrite !lookup_insert_eq. repeat split.
    intros channel Hne. rewrite lookup_insert_ne by congruence.
    apply lookup_delete_ne. congruence.
  - rewrite Hfree. simpl.
    eexists. split; [reflexivity|]. simpl.
    rewrite !lookup_insert_eq. repeat split.
    intros channel Hne. apply lookup_insert_ne. congruence.
Qed.

Lemma loadUrl_arms_retry_witness :
  exists w' : World,
    loadUrl (newErrorHandler "settings") "http://localhost:3015" "/settings"
            (initial [Failed "ERR_CONNECTION_REFUSED"; Loaded]) = (inr tt, w') /\
    invokeHandlers (ipcMain w') !! "retry-connection-settings"%string
      = Some (mkRetryHandler (newErrorHandler "settings")
                             "http://localhost:3015/settings").
Proof.
  destruct (loadUrl_arms_retry (newErrorHandler "settings") "http://localhost:3015"
              "/settings" (initial [Failed "ERR_CONNECTION_REFUSED"; Loaded])
              "ERR_CONNECTION_REFUSED" [] eq_refl eq_refl)
    as (w' & H1 & _ & H2 & _).
  exists w'. split; [exact H1 | exact H2].
Defined.

(** A retry that fails answers with the failure and leaves [ipcMain]
    as it was; it uses up the failed navigation and the reload of the
    error page. *)
Lemma invoke_failed (w : World) (channel : string) (h : RetryHandler)
  (msg : string) (reload : LoadResult) (rest : list LoadResult) :
  invokeHandlers (ipcMain w) !! channel = Some h ->
  script w = Failed msg :: reload :: rest ->
  exists w' : World,
    invoke channel w = (inr (mkRetryResult false (Some msg)), w') /\
    ipcMain w' = ipcMain w /\ script w' = rest.
Proof.
  intros Hh Hs. unfold invoke. rewrite Hh. run_load. rewrite Hs. simpl.
  destruct reload as [|m]; simpl; eexists; split; reflexivity || (split; reflexivity).
Qed.

(** The script of [attempts] failed retries: each is a failed
    navigation with its message, then the outcome of reloading the
    error page. *)
Definition failures (attempts : list (string * LoadResult)) : list LoadResult :=
  flat_map (fun a => [Failed (fst a); snd a]) attempts.

(** X16.  Once a retry handler is registered, any number of failed
    retries leaves it registered: each attempt answers
    [{error, success: false}] with the message of its own failure, and
    after all of them the channel still has the same handler. *)
Theorem failed_retries_keep_handler (attempts : list (string * LoadResult))
  (w : World) (channel : string) (h : RetryHandler) (rest : list LoadResult) :
  invokeHandlers (ipcMain w) !! channel = Some h ->
  script w = failures attempts ++ rest ->
  fst (invokeEach channel attempts w)
    = map (fun a => inr (mkRetryResult false (Some (fst a)))) attempts /\
  ipcMain (snd (invokeEach channel attempts w)) = ipcMain w /\
  script (snd (invokeEach channel attempts w)) = rest.
Proof.
  revert w. induction attempts as [|[msg reload] attempts IH]; intros w Hh Hs.
  - simpl in *. auto.
  - simpl in Hs.
    destruct (invoke_failed w channel h msg reload (failures attempts ++ rest) Hh Hs)
      as (w1 & Hinv & Hipc & Hscr).
    simpl. rewrite Hinv.
    assert (Hh1 : invokeHandlers (ipcMain w1) !! channel = Some h) by (rewrite Hipc; exact Hh).
    destruct (IH w1 Hh1 Hscr) as (Hr & Hi & Hsc).
    destruct (invokeEach channel attempts w1) as [rs w2]. simpl in *.
    split; [f_equal; exact Hr|]. split; [congruence | exact Hsc].
Qed.

Lemma failed_retries_keep_handler_witness :
  let w := snd (loadUrl (newErrorHandler "chat") "http://localhost:3015" "/chat"
                        (initial [Failed "down"; Loaded;
                                  Failed "still down"; Loaded;
                                  Failed "timeout"; Failed "no error page"])) in
  fst (invokeEach "retry-connection-chat" [("still down"%string, Loaded);
                                           ("timeout"%string, Failed "no error page")] w)
    = [inr (mkRetryResult false (Some "still down"%string));
       inr (mkRetryResult false (Some "timeout"%string))].
Proof.
  intros w.
  apply (failed_retries_keep_handler
           [("still down"%string, Loaded); ("timeout"%string, Failed "no error page")]
           w "retry-connection-chat"
           (mkRetryHandler (newErrorHandler "chat") "http://localhost:3015/chat") []).
  - vm_compute. reflexivity.
  - vm_compute. reflexivity.
Defined.

(** X17.  When the placeholder fails to load, the load sequence stops
    there: the content is never requested, the window shows what it
    showed before, no retry handler is registered, and the rejection
    is left unhandled. *)
Theorem placeholder_failure_stops_load (eh : WindowErrorHandler)
  (nextServerUrl path : string) (w : World) (msg : string) (rest : list LoadResult) :
  script w = Failed msg :: rest ->
  exists w' : World,
    initialLoad eh nextServerUrl path w = (inl (LoadError msg), w') /\
    pages w' = pages w /\ ipcMain w' = ipcMain w /\ script w' = rest.
Proof.
  intros Hs. run_load. rewrite Hs. simpl. eexists. split; [reflexivity|]. auto.
Qed.

Lemma placeholder_failure_stops_load_witness :
  exists w' : World,
    initialLoad (newErrorHandler "chat") "http://localhost:3015" "/chat"
                (initial [Failed "ERR_FILE_NOT_FOUND"; Loaded])
    = (inl (LoadError "ERR_FILE_NOT_FOUND"), w') /\
    pages w' = ∅ /\ script w' = [Loaded].
Proof.
  destruct (placeholder_failure_stops_load (newErrorHandler "chat")
              "http://localhost:3015" "/chat"
              (initial [Failed "ERR_FILE_NOT_FOUND"; Loaded])
              "ERR_FILE_NOT_FOUND" [Loaded] eq_refl)
    as (w' & H1 & H2 & _ & H3).
  exists w'. split; [exact H1|]. split; [exact H2 | exact H3].
Defined.

End BrowserLoadFacts.

Module RegistryMoreFacts.
Import StateExn Registry RegistryFacts.

Section HostMore.

Variable platform : Electron.Platform.
Variable getDisplayNearestPoint : Z -> Z -> Electron.Display.

Lemma liveWindowOf_current (s : App) (r : nat) (b : Browser) :
  wf s -> heap s !! r = Some b ->
  exists n w, _browserWindow b = Some n /\ natives s !! n = Some w /\
              liveWindowOf b s = (if isDestroyed w then None else Some n) /\
              currentDestroyed b s = isDestroyed w.
Proof.
  intros Hwf Hb. destruct (wf_current s Hwf r b Hb) as (n & w & Hn & Hw & _).
  exists n, w. unfold liveWindowOf, currentDestroyed. rewrite Hn, Hw. auto.
Qed.

(** X18.  In every reachable state [isWindowValid id] answers true
    exactly when the map holds an instance for [id], also when that
    instance's window has been destroyed: reading [browserWindow]
    builds a new window first, so the number of native windows grows
    by one in that case and is unchanged otherwise. *)
Theorem isWindowValid_rebuilds (s : App) (id : string) :
  reachable platform getDisplayNearestPoint s ->
  (browsers s !! id = None -> isWindowValid id s = (inr false, s)) /\
  (forall (r : nat) (b : Browser),
     browsers s !! id = Some r -> heap s !! r = Some b ->
     fst (isWindowValid id s) = inr true /\
     length (natives (snd (isWindowValid id s)))
     = (if currentDestroyed b s then S (length (natives s)) else length (natives s))).
Proof.
  intros Hreach. pose proof (wf_reachable platform getDisplayNearestPoint s Hreach) as Hwf.
  split.
  - intros Hnone. unfold isWindowValid, bind, gets. rewrite Hnone. reflexivity.
  - intros r b Hr Hb.
    destruct (liveWindowOf_current s r b Hwf Hb) as (n & w & Hn & Hw & Hlive & Hgone).
    unfold isWindowValid, browserWindow, bind, gets, modify. rewrite Hr. cbn [fst snd].
    unfold Browser_retrieveOrInitialize. rewrite Hb, Hlive, Hgone.
    destruct (isDestroyed w) eqn:Hd.
    + cbn [heap natives].
      rewrite list_lookup_insert_eq by (eapply lookup_lt_Some; eauto).
      cbn [mbind option_bind _browserWindow]. rewrite lookup_snoc_length.
      cbn [fst snd natives]. rewrite length_app. simpl. split; [reflexivity | lia].
    + rewrite Hb. cbn [mbind option_bind]. rewrite Hn. cbn [mbind option_bind].
      rewrite Hw, Hd. split; reflexivity.
Qed.

Lemma runDisplay_destroyed_show (s : App) (n : nat) (w : NativeWindow) (m : bool) :
  natives s !! n = Some w -> isDestroyed w = true ->
  runDisplay n (DisplayManager.showWindow platform m) s
  = mkApp (isQuiting s) (natives s) (heap s) (browsers s) (dockVisible s)
          (logs s ++ ["[" +:+ identifier (config w) +:+ "] Cannot show destroyed window"]).
Proof.
  intros Hn Hd. unfold runDisplay, DisplayManager.showWindow. rewrite Hn.
  cbn [DisplayManager.window]. unfold isDestroyed in Hd. rewrite Hd.
  unfold DisplayManager.warn, DisplayManager.tag.
  cbn [DisplayManager.window DisplayManager.identifier DisplayManager.wasMainWindowFocused
       DisplayManager.warnings app].
  destruct w; cbn [creator config state wasMainWindowFocused closeListener loadPhase inbox] in *.
  rewrite list_insert_id by exact Hn. reflexivity.
Qed.

(** X19.  In every reachable state, showing an identifier whose
    window has been destroyed brings no window back: the display
    manager refuses, the log grows by the one warning
    [[<identifier>] Cannot show destroyed window], and no window, no
    Browser, no registry entry and not the dock changes. *)
Theorem show_destroyed_is_refused (s : App) (id : string) (r : nat) (b : Browser) :
  reachable platform getDisplayNearestPoint s ->
  browsers s !! id = Some r -> heap s !! r = Some b ->
  currentDestroyed b s = true ->
  logs (step platform getDisplayNearestPoint (OpShow id) s)
  = logs s ++ ["[" +:+ id +:+ "] Cannot show destroyed window"] /\
  natives (step platform getDisplayNearestPoint (OpShow id) s) = natives s /\
  heap (step platform getDisplayNearestPoint (OpShow id) s) = heap s /\
  browsers (step platform getDisplayNearestPoint (OpShow id) s) = browsers s /\
  dockVisible (step platform getDisplayNearestPoint (OpShow id) s) = dockVisible s /\
  isQuiting (step platform getDisplayNearestPoint (OpShow id) s) = isQuiting s.
Proof.
  intros Hreach Hr Hb Hgone.
  pose proof (wf_reachable platform getDisplayNearestPoint s Hreach) as Hwf.
  destruct (liveWindowOf_current s r b Hwf Hb) as (n & w & Hn & Hw & _ & Hcd).
  rewrite Hgone in Hcd. symmetry in Hcd.
  assert (Hid : identifier (config w) = id).
  { destruct (wf_entries s Hwf id r Hr) as (b' & Hb' & Hid).
    destruct (wf_current s Hwf r b Hb) as (n' & w' & Hn' & Hw' & _ & Hcf & _).
    assert (n' = n) by congruence. subst n'.
    assert (w' = w) by congruence. subst w'.
    assert (b' = b) by congruence. subst b'. rewrite Hcf. exact Hid. }
  assert (Hstep : step platform getDisplayNearestPoint (OpShow id) s
                  = mkApp (isQuiting s) (natives s) (heap s) (browsers s) (dockVisible s)
                          (logs s ++ ["[" +:+ id +:+ "] Cannot show destroyed window"])).
  { unfold step. cbn [perform]. unfold bind at 1.
    rewrite (retrieveByIdentifier_held id r s Hr).
    unfold Browser_show, bind, gets. rewrite Hb. cbn [fst snd]. rewrite Hgone.
    cbn [negb]. unfold ret. rewrite Hn.
    unfold displayShowWindow, bind, gets. rewrite Hw, Hcd. unfold modify. cbn [snd].
    rewrite (runDisplay_destroyed_show s n w false Hw Hcd), Hid. reflexivity. }
  rewrite Hstep. repeat split.
Qed.





End HostMore.

Lemma isWindowValid_rebuilds_witness :
  let closed := run Electron.darwin oneScreen
                    [OpInitialize; OpRetrieve "settings"; OpCloseWindow "settings"]
                    initialApp in
  fst (isWindowValid "settings" closed) = inr true /\
  length (natives (snd (isWindowValid "settings" closed))) = 3%nat.
Proof.
  intros closed.
  destruct (isWindowValid_rebuilds Electron.darwin oneScreen closed "settings"
              (ex_intro _ [OpInitialize; OpRetrieve "settings"; OpCloseWindow "settings"]
                        eq_refl)) as [_ H].
  destruct (heap closed !! 1%nat) as [b|] eqn:Hb; [| vm_compute in Hb; discriminate Hb].
  destruct (H 1%nat b) as [H1 H2]; [vm_compute; reflexivity | exact Hb |].
  split; [exact H1|]. rewrite H2.
  vm_compute in Hb. injection Hb as <-. vm_compute. reflexivity.
Defined.

Lemma show_destroyed_is_refused_witness :
  let closed := run Electron.darwin oneScreen
                    [OpInitialize; OpShow "settings"; OpCloseWindow "settings"]
                    initialApp in
  logs (step Electron.darwin oneScreen (OpShow "settings") closed)
  = logs closed ++ ["[settings] Cannot show destroyed window"%string] /\
  natives (step Electron.darwin oneScreen (OpShow "settings") closed) = natives closed.
Proof.
  intros closed.
  destruct (heap closed !! 1%nat) as [b|] eqn:Hb; [| vm_compute in Hb; discriminate Hb].
  destruct (show_destroyed_is_refused Electron.darwin oneScreen closed "settings" 1 b
              (ex_intro _ [OpInitialize; OpShow "settings"; OpCloseWindow "settings"] eq_refl))
    as (Hlogs & Hnat & _).
  - vm_compute. reflexivity.
  - exact Hb.
  - vm_compute in Hb. injection Hb as <-. vm_compute. reflexivity.
  - split; [exact Hlogs | exact Hnat].
Defined.


End RegistryMoreFacts.

Module WebRequestFacts.
Import WebRequest.

Lemma prefix_nil (s : string) : String.prefix EmptyString s = true.
Proof. destruct s; reflexivity. Qed.

Lemma prefix_cons (c d : Ascii.ascii) (p s : string) :
  String.prefix (String c p) (String d s)
  = if Ascii.ascii_dec c d then String.prefix p s else false.
Proof. reflexivity. Qed.

Lemma append_step (c : Ascii.ascii) (a b : string) :
  String.append (String c a) b = String c (String.append a b).
Proof. reflexivity. Qed.

Lemma prefix_append (p s : string) : String.prefix p (String.append p s) = true.
Proof.
  induction p as [|c p IH].
  - apply prefix_nil.
  - rewrite append_step, prefix_cons.
    destruct (Ascii.ascii_dec c c) as [_|Hc]; [exact IH | contradiction].
Qed.

Lemma prefix_split (p s : string) :
  String.prefix p s = true ->
  s = String.append p (dropChars (String.length p) s).
Proof.
  revert s. induction p as [|c p IH]; intros s H.
  - reflexivity.
  - destruct s as [|d s]; [discriminate H|].
    rewrite prefix_cons in H.
    destruct (Ascii.ascii_dec c d) as [->|_]; [|discriminate H].
    rewrite append_step. cbn [String.length dropChars]. f_equal. exact (IH s H).
Qed.

Lemma append_assoc (a b c : string) :
  String.append (String.append a b) c = String.append a (String.append b c).
Proof.
  induction a as [|x a IH]; [reflexivity|].
  rewrite !append_step. f_equal. exact IH.
Qed.

Lemma includes_cons (c : Ascii.ascii) (s sub : string) :
  includes (String c s) sub = String.prefix sub (String c s) || includes s sub.
Proof. reflexivity. Qed.

Lemma includes_nil (sub : string) :
  includes EmptyString sub = String.prefix sub EmptyString.
Proof. apply orb_false_r. Qed.

Lemma includes_occurs (s sub : string) :
  includes s sub = true <->
  exists pre post : string, s = String.append pre (String.append sub post).
Proof.
  split.
  - induction s as [|c s IH]; intros H.
    + rewrite includes_nil in H.
      exists EmptyString, (dropChars (String.length sub) EmptyString).
      exact (prefix_split sub EmptyString H).
    + rewrite includes_cons in H. apply orb_true_iff in H as [H|H].
      * exists EmptyString, (dropChars (String.length sub) (String c s)).
        exact (prefix_split sub (String c s) H).
      * destruct (IH H) as (pre & post & ->). exists (String c pre), post. reflexivity.
  - intros (pre & post & ->). induction pre as [|c pre IH].
    + change (String.append EmptyString (String.append sub post))
        with (String.append sub post).
      destruct (String.append sub post) as [|d t] eqn:E.
      * rewrite includes_nil, <- E. apply prefix_append.
      * rewrite includes_cons, <- E, prefix_append. reflexivity.
    + rewrite append_step, includes_cons, IH. apply orb_true_r.
Qed.

(** X21.  In-app navigation is decided by a substring test.  The
    ['will-navigate'] listener leaves a navigation alone exactly when the
    URL contains [localhost:] or [127.0.0.1:] somewhere, in its host or
    anywhere else; every other navigation is prevented and the URL is
    handed to the external browser, once. *)
Theorem willNavigate_allows_iff (url : string) :
  ((exists pre post : string,
       url = String.append pre (String.append "localhost:" post) \/
       url = String.append pre (String.append "127.0.0.1:" post))
   <-> willNavigate url = mkHandled false []) /\
  (willNavigate url = mkHandled false [] \/
   willNavigate url = mkHandled true [OpenExternal url]).
Proof.
  unfold willNavigate.
  destruct (includes url "localhost:") eqn:H1; [|destruct (includes url "127.0.0.1:") eqn:H2];
    cbn [orb].
  - split; [|left; reflexivity]. split; [reflexivity|]. intros _.
    apply includes_occurs in H1 as (pre & post & ->). exists pre, post. left. reflexivity.
  - split; [|left; reflexivity]. split; [reflexivity|]. intros _.
    apply includes_occurs in H2 as (pre & post & ->). exists pre, post. right. reflexivity.
  - split; [|right; reflexivity]. split; [|discriminate].
    intros (pre & post & [E|E]).
    + assert (includes url "localhost:" = true) by (apply includes_occurs; eauto).
      congruence.
    + assert (includes url "127.0.0.1:" = true) by (apply includes_occurs; eauto).
      congruence.
Qed.

Lemma replace_unfold (s pattern : string) :
  replace s pattern ""
  = if String.prefix pattern s
    then dropChars (String.length pattern) s
    else match s with
         | EmptyString => EmptyString
         | String c s' => String c (replace s' pattern "")
         end.
Proof. destruct s; reflexivity. Qed.

Lemma replace_cuts (s pattern : string) :
  includes s pattern = true ->
  exists pre post : string,
    s = String.append pre (String.append pattern post) /\
    replace s pattern "" = String.append pre post.
Proof.
  induction s as [|c s IH]; intros H.
  - rewrite includes_nil in H. exists EmptyString. eexists. split.
    + exact (prefix_split pattern EmptyString H).
    + rewrite replace_unfold, H. reflexivity.
  - rewrite includes_cons in H.
    destruct (String.prefix pattern (String c s)) eqn:Hp.
    + exists EmptyString. eexists. split.
      * exact (prefix_split pattern (String c s) Hp).
      * rewrite replace_unfold, Hp. reflexivity.
    + cbn [orb] in H. destruct (IH H) as (pre & post & E & Hr).
      exists (String c pre), post. split; [rewrite E at 1; reflexivity|].
      rewrite replace_unfold, Hp, Hr. reflexivity.
Qed.

(** X22.  [window.open] never opens a window.  The handler answers
    [deny] for every URL and makes exactly one call on [shell]: a URL
    containing [http://file/] is opened as a path, the path being the URL
    with one occurrence of [http://file/] cut out; every other URL goes
    to the external browser unchanged. *)
Theorem windowOpenHandler_denies (url : string) :
  fst (windowOpenHandler url) = deny /\
  ((exists pre post : string,
       url = String.append pre (String.append "http://file/" post) /\
       snd (windowOpenHandler url) = [OpenPath (String.append pre post)])
   \/
   ((forall pre post : string,
        url <> String.append pre (String.append "http://file/" post)) /\
    snd (windowOpenHandler url) = [OpenExternal url])).
Proof.
  unfold windowOpenHandler. destruct (includes url "http://file/") eqn:H.
  - split; [reflexivity|]. left.
    destruct (replace_cuts url "http://file/" H) as (pre & post & E & Hr).
    exists pre, post. split; [exact E|]. cbn [snd]. rewrite Hr. reflexivity.
  - split; [reflexivity|]. right. split; [|reflexivity].
    intros pre post E.
    assert (includes url "http://file/" = true) by (apply includes_occurs; eauto).
    congruence.
Qed.

Definition removedHeaders : list string :=
  ["X-Frame-Options"; "x-frame-options";
   "Content-Security-Policy"; "content-security-policy"]%string.

Lemma deleteHeader_lookup (name k : string) (h : Headers) :
  deleteHeader name h !! k = if decide (name = k) then None else h !! k.
Proof.
  unfold deleteHeader. destruct (decide (name = k)) as [->|Hne].
  - destruct (h !! k) eqn:E; [apply lookup_delete_eq | exact E].
  - destruct (h !! name); [apply lookup_delete_ne; exact Hne | reflexivity].
Qed.

(** X23.  The response-header filter never cancels a request, passes a
    response without headers on as it is, and otherwise removes the four
    header names [X-Frame-Options], [x-frame-options],
    [Content-Security-Policy] and [content-security-policy], in these
    spellings only: a header under any other name, another spelling of
    these included, is passed on with its values. *)
Theorem onHeadersReceived_filters (headers : option Headers) :
  cancel (onHeadersReceived headers) = false /\
  match headers with
  | None => responseHeaders (onHeadersReceived headers) = None
  | Some h =>
    exists h' : Headers,
      responseHeaders (onHeadersReceived headers) = Some h' /\
      forall name : string,
        h' !! name = if bool_decide (name ∈ removedHeaders) then None else h !! name
  end.
Proof.
  split; [reflexivity|]. destruct headers as [h|]; [|reflexivity].
  eexists. split; [reflexivity|]. intros name.
  rewrite !deleteHeader_lookup. unfold removedHeaders.
  repeat match goal with
         | |- context [decide (?a = name)] =>
           destruct (decide (a = name)) as [<-|?]; [vm_compute; reflexivity|]
         end.
  rewrite bool_decide_eq_false_2; [reflexivity|].
  rewrite !elem_of_cons, elem_of_nil. intros [?|[?|[?|[?|[]]]]]; congruence.
Qed.

End WebRequestFacts.

Module LifecycleFacts.
Import StateExn Lifecycle.

Lemma webContents_setZoomFactor_valid (f : Q) (w : World) :
  (0 < f)%Q ->
  webContents_setZoomFactor f w
  = (inr tt, mkWorld (destroyed w) (fullScreen w) f (sent w)
                     (readyToShowPending w) (storedZoomFactor w)).
Proof.
  intros Hf. unfold webContents_setZoomFactor.
  destruct (Qle_bool f 0) eqn:E; [|reflexivity].
  apply Qle_bool_iff in E. exfalso. exact (Qlt_not_le _ _ Hf E).
Qed.

Lemma reapplyZoomFactor_stored (f : Q) (w : World) :
  (0 < f)%Q -> storedZoomFactor w = Some f ->
  reapplyZoomFactor w
  = (inr tt, mkWorld (destroyed w) (fullScreen w) f (sent w)
                     (readyToShowPending w) (storedZoomFactor w)).
Proof.
  intros Hf Hs. unfold reapplyZoomFactor, storeGetZoomFactor, bind, gets.
  rewrite Hs. simpl default.
  rewrite (webContents_setZoomFactor_valid f w Hf), Hs. reflexivity.
Qed.

Section HostFacts.

Variable platform : Electron.Platform.

(** With a valid factor in the store no listener raises, and none
    changes the store. *)
Lemma emit_keeps_store (f : Q) (ev : Event) (w : World) :
  (0 < f)%Q -> storedZoomFactor w = Some f ->
  exists (r : bool) (w' : World),
    emit platform ev w = (inr r, w') /\ storedZoomFactor w' = Some f /\
    destroyed w' = destroyed w.
Proof.
  intros Hf Hs. destruct ev; unfold emit.
  - unfold bind at 1, gets at 1. destruct (readyToShowPending w).
    + unfold bind at 1, modify at 1. unfold bind at 1.
      rewrite (reapplyZoomFactor_stored f) by assumption.
      eexists _, _. split; [reflexivity|]. split; [exact Hs | reflexivity].
    + eexists _, _. split; [reflexivity|]. split; [exact Hs | reflexivity].
  - unfold bind. rewrite (reapplyZoomFactor_stored f) by assumption.
    eexists _, _. split; [reflexivity|]. split; [exact Hs | reflexivity].
  - destruct (Electron.isLinux platform).
    + unfold bind. rewrite (reapplyZoomFactor_stored f) by assumption.
      eexists _, _. split; [reflexivity|]. split; [exact Hs | reflexivity].
    + eexists _, _. split; [reflexivity|]. split; [exact Hs | reflexivity].
  - unfold bind at 1. rewrite (reapplyZoomFactor_stored f) by assumption.
    eexists _, _. split; [reflexivity|]. split; [exact Hs | reflexivity].
  - eexists _, _. split; [reflexivity|]. split; [exact Hs | reflexivity].
  - eexists _, _. split; [reflexivity|]. split; [exact Hs | reflexivity].
  - unfold bind at 1, gets at 1.
    destruct (_ && fullScreen w);
      eexists _, _; (split; [reflexivity|]); (split; [exact Hs | reflexivity]).
  - eexists _, _. split; [reflexivity|]. split; [exact Hs | reflexivity].
  - eexists _, _. split; [reflexivity|]. split; [exact Hs | reflexivity].
  - eexists _, _. split; [reflexivity|]. split; [exact Hs | reflexivity].
Qed.

Lemma run_keeps_store (f : Q) (ops : list Op) (w : World) :
  (0 < f)%Q -> storedZoomFactor w = Some f ->
  exists w' : World,
    run platform ops w = (inr tt, w') /\ storedZoomFactor w' = Some f /\
    destroyed w' = destroyed w.
Proof.
  intros Hf. revert w. induction ops as [|op ops IH]; intros w Hs.
  - exists w. repeat split; assumption.
  - cbn [run]. unfold bind at 1.
    assert (Hop : exists w1 : World,
               perform platform op w = (inr tt, w1) /\ storedZoomFactor w1 = Some f /\
               destroyed w1 = destroyed w).
    { destruct op as [ev|q]; cbn [perform].
      - destruct (emit_keeps_store f ev w Hf Hs) as (r & w1 & E & H1 & H2).
        exists w1. unfold bind. rewrite E. repeat split; assumption.
      - eexists. split; [reflexivity|]. split; [exact Hs | reflexivity]. }
    destruct Hop as (w1 & -> & Hs1 & Hd1).
    destruct (IH w1 Hs1) as (w' & E & H1 & H2).
    exists w'. split; [exact E|]. split; [exact H1 | congruence].
Qed.

(** X24.  A zoom factor set through the manager survives resizes.  After
    [setZoomFactor f] on a live window, with [f] greater than 0, the
    factor is in the store; whatever events arrive afterwards and however
    the page's zoom is changed under the manager, no listener raises, and
    the next ['will-resize'] or ['restore'] event, and on Linux the next
    ['resize'] event, puts the page's zoom back to [f]. *)
Theorem stored_zoom_reapplied (f : Q) (w : World) (ops : list Op) (ev : Event) :
  destroyed w = false -> (0 < f)%Q ->
  ev = WillResize \/ ev = Restore \/ (ev = Resize /\ platform = Electron.linux) ->
  exists w1 w' : World,
    setZoomFactor f w = (inr tt, w1) /\ storedZoomFactor w1 = Some f /\
    run platform (ops ++ [Emit ev]) w1 = (inr tt, w') /\
    pageZoomFactor w' = f /\ storedZoomFactor w' = Some f.
Proof.
  intros Hd Hf Hev.
  assert (Hset : setZoomFactor f w
                 = (inr tt, mkWorld (destroyed w) (fullScreen w) f (sent w)
                                    (readyToShowPending w) (Some f))).
  { unfold setZoomFactor, bind at 1, gets at 1. rewrite Hd. cbn [negb].
    unfold bind. rewrite (webContents_setZoomFactor_valid f w Hf).
    unfold storeSetZoomFactor, modify. cbn. rewrite ?Hd. reflexivity. }
  eexists. rewrite Hset.
  set (w1 := mkWorld _ _ _ _ _ _).
  assert (Hrun : forall (l1 l2 : list Op) (v v' : World),
             run platform l1 v = (inr tt, v') ->
             run platform (l1 ++ l2) v = run platform l2 v').
  { induction l1 as [|op l1 IH]; intros l2 v v' E.
    - cbn in E. injection E as <-. reflexivity.
    - cbn [app run] in *. unfold bind in *.
      destruct (perform platform op v) as [[e|[]] v1]; [discriminate E|].
      exact (IH l2 v1 v' E). }
  destruct (run_keeps_store f ops w1 Hf eq_refl) as (w2 & E2 & Hs2 & _).
  rewrite (Hrun ops [Emit ev] w1 w2 E2).
  cbn [run perform]. unfold bind at 1, bind at 1.
  assert (Hlast : exists (r : bool) (w' : World),
             emit platform ev w2 = (inr r, w') /\ pageZoomFactor w' = f /\
             storedZoomFactor w' = Some f).
  { destruct Hev as [->|[->|[-> ->]]]; unfold emit; cbn [Electron.isLinux].
    - unfold bind. rewrite (reapplyZoomFactor_stored f) by assumption.
      eexists _, _. split; [reflexivity|]. split; [reflexivity | exact Hs2].
    - unfold bind at 1. rewrite (reapplyZoomFactor_stored f) by assumption.
      eexists _, _. split; [reflexivity|]. split; [reflexivity | exact Hs2].
    - unfold bind. rewrite (reapplyZoomFactor_stored f) by assumption.
      eexists _, _. split; [reflexivity|]. split; [reflexivity | exact Hs2]. }
  destruct Hlast as (r & w' & -> & Hz & Hs').
  exists w'. repeat split; assumption.
Qed.

End HostFacts.

(** X25.  A zoom factor set on a destroyed window is dropped.
    [setZoomFactor f] returns without raising and writes neither the page
    nor the store, so [getZoomFactor] right after it answers the factor
    stored before, 1 when the store has none, whatever [f] is. *)
Theorem setZoomFactor_destroyed_dropped (f : Q) (w : World) :
  destroyed w = true ->
  (setZoomFactor f ;;; getZoomFactor) w
  = (inr (default 1%Q (storedZoomFactor w)), w).
Proof.
  intros Hd. unfold setZoomFactor, getZoomFactor, bind, gets, storeGetZoomFactor.
  rewrite Hd. cbn [negb]. unfold ret. rewrite Hd. reflexivity.
Qed.

Definition unshownWindow : World := mkWorld false false 1 [] true None.

Lemma stored_zoom_reapplied_witness :
  exists w1 w' : World,
    setZoomFactor (3 # 2) unshownWindow = (inr tt, w1) /\
    storedZoomFactor w1 = Some (3 # 2)%Q /\
    run Electron.darwin
        ([Emit ReadyToShow; PageZoomChanged 1; Emit Minimize] ++ [Emit Restore]) w1
    = (inr tt, w') /\
    pageZoomFactor w' = (3 # 2)%Q /\ storedZoomFactor w' = Some (3 # 2)%Q.
Proof.
  apply (stored_zoom_reapplied Electron.darwin (3 # 2) unshownWindow
           [Emit ReadyToShow; PageZoomChanged 1; Emit Minimize] Restore).
  - reflexivity.
  - reflexivity.
  - right. left. reflexivity.
Defined.

Lemma setZoomFactor_destroyed_dropped_witness :
  (setZoomFactor 2 ;;; getZoomFactor) (mkWorld true false 1 [] false (Some (5 # 4)%Q))
  = (inr (5 # 4)%Q, mkWorld true false 1 [] false (Some (5 # 4)%Q)).
Proof.
  apply (setZoomFactor_destroyed_dropped 2 (mkWorld true false 1 [] false (Some (5 # 4)%Q))).
  reflexivity.
Defined.

End LifecycleFacts.

Module ThemeFacts.
Import Theme.

Definition isConstruct (op : Op) : bool :=
  match op with OpConstruct _ => true | _ => false end.

Lemma handleThemeChange_each (pending : list nat) (s : World) :
  fold_left (fun s this => handleThemeChange this s) pending s
  = mkWorld (managers s) (listeners s) (timers s ++ pending) (shouldUseDarkColors s).
Proof.
  revert s. induction pending as [|i pending IH]; intros s; cbn [fold_left].
  - rewrite app_nil_r. destruct s; reflexivity.
  - rewrite IH. unfold handleThemeChange. cbn. rewrite <- app_assoc. reflexivity.
Qed.

Lemma nativeThemeUpdated_timers (dark : bool) (s : World) :
  nativeThemeUpdated dark s
  = mkWorld (managers s) (listeners s) (timers s ++ listeners s) dark.
Proof. unfold nativeThemeUpdated. rewrite handleThemeChange_each. reflexivity. Qed.

Lemma applyVisualEffects_shape (isWindows : bool) (this : nat) (s : World) :
  let s' := applyVisualEffects isWindows this s in
  listeners s' = listeners s /\ timers s' = timers s /\
  shouldUseDarkColors s' = shouldUseDarkColors s /\
  length (managers s') = length (managers s).
Proof.
  unfold applyVisualEffects. destruct (managers s !! this) as [m|]; [|auto].
  destruct (destroyed (window m)); [auto|]. destruct isWindows; [|auto].
  cbn. rewrite length_alter. auto.
Qed.

Lemma step_listeners (isWindows : bool) (op : Op) (s : World) :
  listeners s = seq 0 (length (managers s)) ->
  listeners (step isWindows op s) = seq 0 (length (managers (step isWindows op s))) /\
  length (managers (step isWindows op s))
  = (length (managers s) + if isConstruct op then 1 else 0)%nat.
Proof.
  intros H. destruct op as [w|this|this|dark| |this]; cbn [step isConstruct].
  - unfold construct, setupThemeListener. cbn [managers].
    rewrite lookup_app_r by lia. rewrite Nat.sub_diag. cbn.
    rewrite length_alter, length_app, H, seq_app. cbn. auto.
  - unfold cleanup. destruct (managers s !! this) as [m|]; [|rewrite Nat.add_0_r; auto].
    destruct (themeListenerSetup m); [|rewrite Nat.add_0_r; auto].
    cbn. rewrite length_alter, Nat.add_0_r. auto.
  - unfold reapplyVisualEffects.
    destruct (applyVisualEffects_shape isWindows this s) as (-> & _ & _ & ->).
    rewrite Nat.add_0_r. auto.
  - rewrite nativeThemeUpdated_timers. cbn. rewrite Nat.add_0_r. auto.
  - unfold timerFires. destruct (timers s) as [|this rest]; [rewrite Nat.add_0_r; auto|].
    destruct (applyVisualEffects_shape isWindows this
                (mkWorld (managers s) (listeners s) rest (shouldUseDarkColors s)))
      as (-> & _ & _ & ->).
    cbn. rewrite Nat.add_0_r. auto.
  - cbn. rewrite length_alter, Nat.add_0_r. auto.
Qed.

Lemma theme_listeners_shape (isWindows : bool) (ops : list Op) :
  listeners (run isWindows ops initial)
  = seq 0 (length (managers (run isWindows ops initial))) /\
  length (managers (run isWindows ops initial)) = length (List.filter isConstruct ops).
Proof.
  assert (H : forall (l : list Op) (s : World),
             listeners s = seq 0 (length (managers s)) ->
             listeners (run isWindows l s) = seq 0 (length (managers (run isWindows l s))) /\
             length (managers (run isWindows l s))
             = (length (managers s) + length (List.filter isConstruct l))%nat).
  { induction l as [|op l IH]; intros s Hs.
    - cbn. rewrite Nat.add_0_r. auto.
    - destruct (step_listeners isWindows op s Hs) as [H1 H2].
      destruct (IH (step isWindows op s) H1) as [H3 H4].
      change (run isWindows (op :: l) s) with (run isWindows l (step isWindows op s)).
      split; [exact H3|]. rewrite H4, H2. cbn [List.filter].
      destruct (isConstruct op); cbn [length]; lia. }
  exact (H ops initial eq_refl).
Qed.

(** X26.  No theme listener is ever removed.  After any sequence of
    constructions, clean-ups, theme changes, timers and window
    destructions, [nativeTheme] holds one ['updated'] listener for every
    manager that was ever constructed, in construction order, cleaned up
    or not: their number is the number of constructions. *)
Theorem theme_listeners_never_removed (isWindows : bool) (ops : list Op) :
  let s := run isWindows ops initial in
  listeners s = seq 0 (length (managers s)) /\
  length (listeners s) = length (List.filter isConstruct ops).
Proof.
  cbn zeta. destruct (theme_listeners_shape isWindows ops) as [H1 H2].
  split; [exact H1|]. rewrite H1, length_seq, H2. reflexivity.
Qed.

(** A manager whose window, unless destroyed, shows the colours of the
    given mode. *)
Definition themed (dark : bool) (m : WindowThemeManager) : Prop :=
  destroyed (window m) = false ->
  backgroundColor (window m)
  = Some (if dark then ConfigBuilder.BACKGROUND_DARK else ConfigBuilder.BACKGROUND_LIGHT) /\
  titleBarOverlay (window m)
  = Some (mkOverlay (if dark then ConfigBuilder.BACKGROUND_DARK
                     else ConfigBuilder.BACKGROUND_LIGHT)
                    ConfigBuilder.TITLE_BAR_HEIGHT
                    (if dark then ConfigBuilder.SYMBOL_COLOR_DARK
                     else ConfigBuilder.SYMBOL_COLOR_LIGHT)).

Lemma applyVisualEffects_themed (this i : nat) (s : World) (m' : WindowThemeManager) :
  managers (applyVisualEffects true this s) !! i = Some m' ->
  exists m : WindowThemeManager,
    managers s !! i = Some m /\
    (i = this \/ themed (shouldUseDarkColors s) m -> themed (shouldUseDarkColors s) m').
Proof.
  unfold applyVisualEffects. intros H.
  destruct (managers s !! this) as [m0|] eqn:E0.
  - destruct (destroyed (window m0)) eqn:Ed.
    + exists m'. split; [exact H|]. intros [->|Ht]; [|exact Ht].
      intros Hd. congruence.
    + cbn in H. destruct (decide (i = this)) as [->|Hne].
      * rewrite list_lookup_alter_eq, E0 in H. injection H as <-.
        exists m0. split; [exact E0|]. intros _ _. split; reflexivity.
      * rewrite list_lookup_alter_ne in H by congruence.
        exists m'. split; [exact H|]. intros [?|Ht]; [contradiction | exact Ht].
  - exists m'. split; [exact H|]. intros [->|Ht]; [congruence | exact Ht].
Qed.

Lemma timersFire_themed (pending : list nat) (s : World) :
  timers s = pending ->
  timers (timersFire true (length pending) s) = [] /\
  forall (i : nat) (m' : WindowThemeManager),
    managers (timersFire true (length pending) s) !! i = Some m' ->
    exists m : WindowThemeManager,
      managers s !! i = Some m /\
      (In i pending \/ themed (shouldUseDarkColors s) m ->
       themed (shouldUseDarkColors s) m').
Proof.
  revert s. induction pending as [|this rest IH]; intros s Ht.
  - cbn. split; [exact Ht|]. intros i m' H.
    exists m'. split; [exact H|]. intros [[]|Hm]. exact Hm.
  - cbn [length timersFire].
    replace (timerFires true s)
      with (applyVisualEffects true this
              (mkWorld (managers s) (listeners s) rest (shouldUseDarkColors s)))
      by (unfold timerFires; rewrite Ht; reflexivity).
    set (s0 := mkWorld (managers s) (listeners s) rest (shouldUseDarkColors s)).
    destruct (applyVisualEffects_shape true this s0) as (_ & Htm & Hdk & _).
    destruct (IH (applyVisualEffects true this s0) Htm) as (H1 & H3).
    split; [exact H1|].
    intros i m' H. destruct (H3 i m' H) as (m1 & Hm1 & Hth).
    destruct (applyVisualEffects_themed this i s0 m1 Hm1) as (m & Hm & Hth0).
    exists m. split; [exact Hm|].
    rewrite Hdk in Hth. cbn [shouldUseDarkColors s0] in Hth, Hth0.
    intros [[->|Hin]|Hm0].
    + apply Hth. right. apply Hth0. left. reflexivity.
    + apply Hth. left. exact Hin.
    + apply Hth. right. apply Hth0. right. exact Hm0.
Qed.

(** X27.  On Windows a theme change reaches every window.  In every
    reachable world, once the system theme has changed and the timers
    pending after it have fired, no timer is left and the window of every
    manager ever constructed, cleaned up or not, shows the background and
    the title-bar overlay of the new mode, unless it is destroyed. *)
Theorem theme_change_reaches_every_window (s : World) (dark : bool) :
  reachable true s ->
  let s1 := nativeThemeUpdated dark s in
  let s' := timersFire true (length (timers s1)) s1 in
  timers s' = [] /\
  length (managers s') = length (managers s) /\
  forall (i : nat) (m : WindowThemeManager),
    managers s' !! i = Some m -> themed dark m.
Proof.
  intros [ops ->]. cbn zeta.
  destruct (theme_listeners_shape true ops) as [Hl _].
  set (s := run true ops initial) in *.
  destruct (timersFire_themed (timers (nativeThemeUpdated dark s))
              (nativeThemeUpdated dark s) eq_refl) as (H1 & H2).
  split; [exact H1|].
  assert (Hlen : length (managers (timersFire true
                   (length (timers (nativeThemeUpdated dark s)))
                   (nativeThemeUpdated dark s))) = length (managers s)).
  { generalize (length (timers (nativeThemeUpdated dark s))) as n.
    replace (managers s) with (managers (nativeThemeUpdated dark s))
      by (rewrite nativeThemeUpdated_timers; reflexivity).
    generalize (nativeThemeUpdated dark s) as v.
    intros v n. revert v. induction n as [|n IHn]; intros v; [reflexivity|].
    cbn [timersFire]. rewrite IHn. unfold timerFires.
    destruct (timers v) as [|this rest]; [reflexivity|].
    destruct (applyVisualEffects_shape true this
                (mkWorld (managers v) (listeners v) rest (shouldUseDarkColors v)))
      as (_ & _ & _ & ->). reflexivity. }
  split; [exact Hlen|].
  intros i m Hm. destruct (H2 i m Hm) as (m0 & Hm0 & Hth).
  rewrite nativeThemeUpdated_timers in Hth, Hm0.
  cbn [shouldUseDarkColors timers managers] in Hth, Hm0.
  apply Hth. left. apply in_or_app. right. rewrite Hl. apply in_seq.
  apply lookup_lt_Some in Hm0. lia.
Qed.

Lemma theme_change_reaches_every_window_witness :
  let s := run true [OpConstruct (mkWindow false None None); OpCleanup 0] initial in
  let s1 := nativeThemeUpdated true s in
  let s' := timersFire true (length (timers s1)) s1 in
  timers s' = [] /\
  length (managers s') = 1%nat /\
  forall (i : nat) (m : WindowThemeManager),
    managers s' !! i = Some m -> themed true m.
Proof.
  exact (theme_change_reaches_every_window
           (run true [OpConstruct (mkWindow false None None); OpCleanup 0] initial) true
           (ex_intro _ [OpConstruct (mkWindow false None None); OpCleanup 0] eq_refl)).
Defined.

End ThemeFacts.

Module TrayFacts.
Import Tray.

(** Every tray that is not destroyed is the registered main tray. *)
Definition tidy (s : TrayManager) : Prop :=
  (trays s = [] \/
   exists r : nat, trays s = [("main"%string, r)] /\ (r < length (heap s))%nat) /\
  forall (r : nat) (t : Tray),
    heap s !! r = Some t -> destroyed t = false -> trays s = [("main"%string, r)].

Lemma onTray_broadcast_tidy (m : Message) (r : nat) (s : TrayManager) :
  tidy s -> tidy (Tray_broadcast m r s).
Proof.
  intros [H1 H2]. unfold Tray_broadcast, onTray. split; cbn [trays heap].
  - rewrite length_alter. exact H1.
  - intros r' t Ht Hd. cbn [heap] in Ht. destruct (decide (r' = r)) as [->|Hne].
    + rewrite list_lookup_alter_eq in Ht.
      destruct (heap s !! r) as [t0|] eqn:E; [|discriminate Ht].
      injection Ht as <-. exact (H2 r t0 E Hd).
    + rewrite list_lookup_alter_ne in Ht by congruence. exact (H2 r' t Ht Hd).
Qed.

Section HostFacts.

Variable name : string.

Lemma step_tidy (op : Op) (s : TrayManager) : tidy s -> tidy (step name op s).
Proof.
  intros Hs. pose proof Hs as [H1 H2]. destruct op as [|m|identifier m|]; cbn [step].
  - unfold initializeTrays, initializeMainTray, retrieveOrInitialize.
    cbn [identifier]. destruct H1 as [E|(r & E & Hr)]; rewrite E; cbn.
    + split; cbn [trays heap].
      * right. exists (length (heap s)). split; [reflexivity|]. rewrite length_app. cbn. lia.
      * intros r t Ht Hd. apply lookup_app_Some in Ht as [Ht|[Hlen Ht]].
        -- specialize (H2 r t Ht Hd). congruence.
        -- destruct (r - length (heap s))%nat as [|k] eqn:Ek; [|discriminate Ht].
           assert (r = length (heap s)) by lia. subst r. reflexivity.
    + exact Hs.
  - unfold broadcastToAllTrays. destruct H1 as [E|(r & E & Hr)]; rewrite E; cbn [fold_left snd].
    + exact Hs.
    + apply onTray_broadcast_tidy. exact Hs.
  - unfold broadcastToTray. destruct (mapGet identifier (trays s)); [|exact Hs].
    apply onTray_broadcast_tidy. exact Hs.
  - unfold destroyAll. destruct H1 as [E|(r & E & Hr)]; rewrite E; cbn [fold_left snd].
    + split; cbn [trays heap]; [left; reflexivity|].
      intros r t Ht Hd. specialize (H2 r t Ht Hd). congruence.
    + split; cbn [trays heap]; [left; reflexivity|].
      intros r' t Ht Hd. exfalso. unfold Tray_destroy, onTray in Ht. cbn [heap] in Ht.
      destruct (decide (r' = r)) as [->|Hne].
      * rewrite list_lookup_alter_eq in Ht.
        destruct (heap s !! r) as [t0|]; [|discriminate Ht].
        injection Ht as <-. discriminate Hd.
      * rewrite list_lookup_alter_ne in Ht by congruence.
        specialize (H2 r' t Ht Hd). congruence.
Qed.

Lemma run_tidy (ops : list Op) (s : TrayManager) : tidy s -> tidy (run name ops s).
Proof.
  revert s. induction ops as [|op ops IH]; intros s Hs; [exact Hs|].
  exact (IH (step name op s) (step_tidy op s Hs)).
Qed.

Lemma tidy_initialManager : tidy initialManager.
Proof. split; [left; reflexivity|]. intros r t Ht. discriminate Ht. Qed.

(** X28.  There is never more than one tray.  After any sequence of
    initialisations, broadcasts and [destroyAll] calls, at most one tray
    is not destroyed, and that one is the registered main tray;
    initialising again returns the registered tray and builds nothing,
    and builds one tray only when none is registered; [destroyAll]
    leaves no tray registered and every tray ever built destroyed. *)
Theorem tray_single_instance (ops : list Op) :
  let s := run name ops initialManager in
  (forall (r r' : nat) (t t' : Tray),
      heap s !! r = Some t -> destroyed t = false ->
      heap s !! r' = Some t' -> destroyed t' = false ->
      r = r' /\ getMainTray s = Some r) /\
  (forall r : nat, getMainTray s = Some r -> initializeMainTray name s = (r, s)) /\
  (getMainTray s = None ->
   getMainTray (initializeTrays name s) = Some (length (heap s)) /\
   length (heap (initializeTrays name s)) = S (length (heap s))) /\
  getMainTray (destroyAll s) = None /\
  (forall (r : nat) (t : Tray), heap (destroyAll s) !! r = Some t -> destroyed t = true).
Proof.
  cbn zeta. pose proof (run_tidy ops initialManager tidy_initialManager) as Hs.
  set (s := run name ops initialManager) in *.
  pose proof (step_tidy OpDestroyAll s Hs) as [_ Hd]. cbn [step] in Hd.
  destruct Hs as [H1 H2].
  split; [|split; [|split; [|split]]].
  - intros r r' t t' Ht Hdt Ht' Hdt'.
    pose proof (H2 r t Ht Hdt) as E. pose proof (H2 r' t' Ht' Hdt') as E'.
    split; [congruence|]. unfold getMainTray, retrieveByIdentifier. rewrite E. reflexivity.
  - intros r Hr. unfold initializeMainTray, retrieveOrInitialize. cbn [identifier].
    unfold getMainTray, retrieveByIdentifier in Hr. rewrite Hr. reflexivity.
  - intros Hn. unfold initializeTrays, initializeMainTray, retrieveOrInitialize.
    cbn [identifier]. unfold getMainTray, retrieveByIdentifier in Hn. rewrite Hn.
    destruct H1 as [E|(r & E & _)]; [|rewrite E in Hn; discriminate Hn].
    cbn [snd]. unfold getMainTray, retrieveByIdentifier. cbn [trays heap].
    rewrite E, length_app. cbn. split; [reflexivity | lia].
  - reflexivity.
  - intros r t Ht. destruct (destroyed t) eqn:E; [reflexivity|].
    specialize (Hd r t Ht E). discriminate Hd.
Qed.

End HostFacts.

End TrayFacts.

Module DisplayMoreFacts.
Import Electron DisplayManager.

(** X29.  Toggling twice is a round trip.  Off Windows, for a window
    that is neither destroyed, minimized nor full screen and that is
    focused exactly when it is visible, two calls of [toggleWindow] leave
    it as visible and as focused as it was, where it was: a shown window
    is hidden and shown again, a hidden one is shown and hidden again. *)
Theorem toggleWindow_twice (p : Platform) (mainFocused mainFocused' : bool)
  (dm : WindowDisplayManager) :
  destroyed (window dm) = false ->
  minimized (window dm) = false ->
  fullScreen (window dm) = false ->
  focused (window dm) = visible (window dm) ->
  isWin32 p = false ->
  let once := toggleWindow p mainFocused dm in
  let twice := toggleWindow p mainFocused' once in
  visible (window once) = negb (visible (window dm)) /\
  visible (window twice) = visible (window dm) /\
  focused (window twice) = focused (window dm) /\
  bounds (window twice) = bounds (window dm) /\
  destroyed (window twice) = false /\ minimized (window twice) = false /\
  warnings twice = warnings dm.
Proof.
  destruct dm as [[d v f fs m voa b cb] ident wf cs ws]. cbn [window destroyed minimized
    fullScreen focused visible DisplayManager.window]. intros -> -> -> -> Hp.
  destruct p; try discriminate Hp; destruct v, wf, mainFocused, mainFocused';
    cbn; repeat split; reflexivity.
Qed.

Lemma toggleWindow_twice_witness :
  let dm := newDisplayManager (mkWindow false true true false false false
                                        (mkRect 10 20 800 600) (mkRect 10 20 800 600)) "chat" in
  let once := toggleWindow darwin false dm in
  let twice := toggleWindow darwin true once in
  visible (window once) = false /\
  visible (window twice) = true /\ focused (window twice) = true /\
  bounds (window twice) = mkRect 10 20 800 600 /\
  destroyed (window twice) = false /\ minimized (window twice) = false /\
  warnings twice = [].
Proof.
  exact (toggleWindow_twice darwin false true
           (newDisplayManager (mkWindow false true true false false false
                                        (mkRect 10 20 800 600) (mkRect 10 20 800 600)) "chat")
           eq_refl eq_refl eq_refl eq_refl eq_refl).
Defined.

End DisplayMoreFacts.
